(** * FingerBot: adaptive batching scheduler and LLM orchestration core

    A shallow embedding of the TypeScript sources of the FingerBot chat
    mediator, and the properties of its scheduler core that the
    specification states.

    Conventions of the embedding.
    - A JavaScript [Map] whose iteration order is never observed by the
      modelled code is a [gmap]; where the order is observed the keys are
      visited in insertion order, kept in a list next to the map.
    - Wall-clock instants ([Date.now()]) are [Z] milliseconds and are passed
      to the operation that reads the clock.  One synchronous call reads one
      instant.
    - JavaScript numbers that carry fractional quantities (the stamina
      model) are exact rationals [Q]; the one division is by [S_max], and a
      statement that depends on its value takes [S_max] positive.
    - JavaScript strings are [string]s of bytes, the UTF-8 form of the
      text.  [trim] and the regular-expression class [\s] take the white
      space of Unicode, [length] and the cut of a long text count UTF-16
      code units; [toLowerCase] maps the letters A to Z.
    - An [async] method is split at its [await]: the part before it, and
      the part after it which receives the awaited outcome. *)

From Stdlib Require Import ZArith QArith Qminmax Qround Lqa Lia List String Ascii Bool.
From stdpp Require Import base option list strings gmap pretty.

Local Open Scope Z_scope.

(** ** JavaScript string primitives *)

Module Js.

(** Strings are held as bytes: the UTF-8 form of the JavaScript string, a
    surrogate without its partner taking the three bytes of its code unit.
    The primitives below read the characters off the bytes. *)

(** A byte [10xxxxxx], which continues a character. *)
Definition isContinuation (c : ascii) : bool :=
  let n := N_of_ascii c in ((128 <=? n) && (n <? 192))%N.

(** The code points that [trim] and the class [\s] of a regular expression
    take for white space: tab to carriage return, space, U+00A0, U+1680,
    U+2000 to U+200A, U+2028, U+2029, U+202F, U+205F, U+3000 and U+FEFF. *)
Definition isWhiteSpace (codePoint : N) : bool :=
  ((9 <=? codePoint) && (codePoint <=? 13)
   || (codePoint =? 32) || (codePoint =? 160) || (codePoint =? 5760)
   || (8192 <=? codePoint) && (codePoint <=? 8202)
   || (codePoint =? 8232) || (codePoint =? 8233) || (codePoint =? 8239)
   || (codePoint =? 8287) || (codePoint =? 12288) || (codePoint =? 65279))%N.

(** A white-space character of one, two or three bytes. *)
Definition whiteSpace1 (c1 : ascii) : bool :=
  let n1 := N_of_ascii c1 in (n1 <? 128)%N && isWhiteSpace n1.

Definition whiteSpace2 (c1 c2 : ascii) : bool :=
  let n1 := N_of_ascii c1 in
  let n2 := N_of_ascii c2 in
  ((194 <=? n1) && (n1 <? 224))%N && isContinuation c2
  && isWhiteSpace ((n1 - 192) * 64 + (n2 - 128))%N.

Definition whiteSpace3 (c1 c2 c3 : ascii) : bool :=
  let n1 := N_of_ascii c1 in
  let n2 := N_of_ascii c2 in
  let n3 := N_of_ascii c3 in
  let codePoint := (((n1 - 224) * 64 + (n2 - 128)) * 64 + (n3 - 128))%N in
  ((224 <=? n1) && (n1 <? 240))%N && isContinuation c2 && isContinuation c3
  && (2048 <=? codePoint)%N && isWhiteSpace codePoint.

Definition lowerChar (c : ascii) : ascii :=
  let n := nat_of_ascii c in
  if ((65 <=? n) && (n <=? 90))%nat then ascii_of_nat (n + 32) else c.

(** [String.prototype.toLowerCase] on the letters A to Z; the characters
    outside ASCII keep their bytes. *)
Fixpoint toLowerCase (s : string) : string :=
  match s with
  | EmptyString => EmptyString
  | String c s' => String (lowerChar c) (toLowerCase s')
  end.

Fixpoint trimStart (s : string) : string :=
  match s with
  | EmptyString => EmptyString
  | String c1 r1 =>
      if whiteSpace1 c1 then trimStart r1
      else match r1 with
           | String c2 r2 =>
               if whiteSpace2 c1 c2 then trimStart r2
               else match r2 with
                    | String c3 r3 => if whiteSpace3 c1 c2 c3 then trimStart r3 else s
                    | EmptyString => s
                    end
           | EmptyString => s
           end
  end.

Fixpoint allWhiteSpace (s : string) : bool :=
  match s with
  | EmptyString => true
  | String c1 r1 =>
      if whiteSpace1 c1 then allWhiteSpace r1
      else match r1 with
           | String c2 r2 =>
               if whiteSpace2 c1 c2 then allWhiteSpace r2
               else match r2 with
                    | String c3 r3 => whiteSpace3 c1 c2 c3 && allWhiteSpace r3
                    | EmptyString => false
                    end
           | EmptyString => false
           end
  end.

(** The text up to its last character that is not white space: a tail of
    white space only starts at the first byte of a character. *)
Fixpoint trimEnd (s : string) : string :=
  match s with
  | EmptyString => EmptyString
  | String c s' => if allWhiteSpace s then EmptyString else String c (trimEnd s')
  end.

(** [String.prototype.trim] *)
Definition trim (s : string) : string := trimEnd (trimStart s).

(** [String.prototype.startsWith] *)
Definition startsWith (s p : string) : bool := String.prefix p s.

(** [String.prototype.includes] *)
Fixpoint includes (s sub : string) : bool :=
  if String.prefix sub s then true
  else match s with
       | EmptyString => false
       | String _ s' => includes s' sub
       end.

(** [String.prototype.substring(0, n)] of a text of one-byte characters:
    the API keys and the fence of a code block. *)
Definition substring0 (n : nat) (s : string) : string := String.substring 0 n s.

(** The UTF-16 code units of the character that starts with the byte [c]:
    none for a continuation byte, two for the first byte of a character of
    four bytes, which lies outside the basic plane. *)
Definition codeUnitsAt (c : ascii) : nat :=
  if isContinuation c then 0%nat
  else if (240 <=? N_of_ascii c)%N then 2%nat else 1%nat.

(** [s.length]: the number of UTF-16 code units. *)
Fixpoint length (s : string) : nat :=
  match s with
  | EmptyString => 0%nat
  | String c s' => (codeUnitsAt c + length s')%nat
  end.

(** The high surrogate of the character of four bytes that starts with
    [c1 c2 c3], in the three bytes of its code unit:
    [0xD800 + ((codePoint - 0x10000) >> 10)]. *)
Definition highSurrogate (c1 c2 c3 : ascii) : string :=
  let n1 := N_of_ascii c1 in
  let n2 := N_of_ascii c2 in
  let n3 := N_of_ascii c3 in
  let unit := (55232 + ((n1 - 240) * 4096 + (n2 - 128) * 64 + (n3 - 128)) / 16)%N in
  String (ascii_of_N (224 + unit / 4096))
    (String (ascii_of_N (128 + (unit / 64) mod 64))
       (String (ascii_of_N (128 + unit mod 64)) EmptyString)).

(** [s.substring(0, n)]: the first [n] UTF-16 code units.  The bytes that
    continue a character follow its first byte; a cut between the two
    surrogates of a character keeps the high one. *)
Fixpoint substringTo (n : nat) (s : string) : string :=
  match s with
  | EmptyString => EmptyString
  | String c s' =>
      match codeUnitsAt c, n with
      | O, _ => String c (substringTo n s')
      | _, O => EmptyString
      | 1%nat, S n' => String c (substringTo n' s')
      | _, 1%nat =>
          match s' with
          | String c2 (String c3 _) => highSurrogate c c2 c3
          | _ => EmptyString
          end
      | _, S (S n') => String c (substringTo n' s')
      end
  end.

(** [String.prototype.replace(pattern, '')] with a string pattern: the
    first occurrence of [pattern] is removed. *)
Fixpoint removeFirst (pattern s : string) : string :=
  if String.prefix pattern s then String.substring (String.length pattern)
                                    (String.length s - String.length pattern) s
  else match s with
       | EmptyString => EmptyString
       | String c s' => String c (removeFirst pattern s')
       end.

(** Truthiness of a string: every string but the empty one. *)
Definition truthyStr (s : string) : bool :=
  match s with EmptyString => false | _ => true end.

(** Truthiness of a [number | null] that holds an instant. *)
Definition truthyNum (o : option Z) : bool :=
  match o with Some t => negb (t =? 0) | None => false end.

End Js.

(** ** Credential pool: [ApiKeyManager] (src/ai/api-key-manager.ts) *)

Module ApiKeyManager.

Definition MAX_ERRORS_IN_WINDOW : Z := 5.
Definition ERROR_WINDOW_MS : Z := 5 * 60 * 1000.
Definition BLOCK_DURATION_MS : Z := 60 * 60 * 1000.

Record ApiKeyStatus := mkStatus {
  key : string;
  isBlocked : bool;
  errorCount : Z;
  lastErrorTime : Z;
  blockStartTime : option Z
}.

(** The fields of the class.  [keyStatus] is filled once, by
    [initializeKeys], in the order of [apiKeys]; no key is added later, so
    iterating the map visits the keys in the order of [apiKeys]. *)
Record t := mk {
  apiKeys : list string;
  keyStatus : gmap string ApiKeyStatus;
  currentKeyIndex : nat
}.

(** The thrown value handed to [recordError]: the three properties the
    code inspects. *)
Record JsError := mkError {
  status : option Z;
  code : option Z;
  message : option string
}.

Definition initializeKeys (keys : list string) : t :=
  {| apiKeys := keys;
     keyStatus := fold_left (fun m k => <[k := mkStatus k false 0 0 None]> m) keys ∅;
     currentKeyIndex := 0 |}.

(** [this.keyStatus.entries()] *)
Definition entries (st : t) : list (string * ApiKeyStatus) :=
  omap (fun k => (fun s => (k, s)) <$> keyStatus st !! k) (apiKeys st).

Definition is429Error (error : option JsError) : bool :=
  match error with
  | None => false
  | Some e =>
      if bool_decide (status e = Some 429) || bool_decide (code e = Some 429) then true
      else match message e with
           | None => false
           | Some m =>
               Js.truthyStr m &&
               (Js.includes m "429"
                || Js.includes (Js.toLowerCase m) "rate limit"
                || Js.includes (Js.toLowerCase m) "quota exceeded")
           end
  end.

Definition cleanStatus (now : Z) (s : ApiKeyStatus) : ApiKeyStatus :=
  if isBlocked s && Js.truthyNum (blockStartTime s) then
    match blockStartTime s with
    | Some t0 =>
        if BLOCK_DURATION_MS <? now - t0
        then mkStatus (key s) false 0 (lastErrorTime s) None
        else s
    | None => s
    end
  else s.

Definition cleanExpiredBlocks (now : Z) (st : t) : t :=
  {| apiKeys := apiKeys st;
     keyStatus := cleanStatus now <$> keyStatus st;
     currentKeyIndex := currentKeyIndex st |}.

Definition getAvailableKeysCount (st : t) : nat :=
  length (filter (fun e => isBlocked e.2 = false) (entries st)).

(** One round of the loop of [getEarliestBlockedKey]; [None] as the time
    stands for [Infinity]. *)
Definition earliestStep (acc : option string * option Z) (e : string * ApiKeyStatus)
  : option string * option Z :=
  match blockStartTime e.2 with
  | Some t0 =>
      if isBlocked e.2 && Js.truthyNum (blockStartTime e.2)
         && match acc.2 with None => true | Some m => t0 <? m end
      then (Some e.1, Some t0)
      else acc
  | None => acc
  end.

Definition getEarliestBlockedKey (st : t) : option string :=
  (fold_left earliestStep (entries st) (None, None)).1.

(** The key at index [(currentKeyIndex + i) % length] is usable. *)
Definition usableAt (st : t) (i : nat) : bool :=
  let keyIndex := ((currentKeyIndex st + i) mod length (apiKeys st))%nat in
  match apiKeys st !! keyIndex with
  | Some k => match keyStatus st !! k with
              | Some s => negb (isBlocked s)
              | None => false
              end
  | None => false
  end.

Definition getCurrentApiKey (now : Z) (st0 : t) : string * t :=
  let st := cleanExpiredBlocks now st0 in
  let n := length (apiKeys st) in
  match find (usableAt st) (seq 0 n) with
  | Some i =>
      let keyIndex := ((currentKeyIndex st + i) mod n)%nat in
      (default EmptyString (apiKeys st !! keyIndex),
       {| apiKeys := apiKeys st; keyStatus := keyStatus st; currentKeyIndex := keyIndex |})
  | None =>
      let first := default EmptyString (apiKeys st !! 0%nat) in
      (match getEarliestBlockedKey st with
       | Some k => if Js.truthyStr k then k else first
       | None => first
       end, st)
  end.

Definition switchToNextKey (st : t) : t :=
  let n := length (apiKeys st) in
  match find (usableAt st) (seq 1 (n - 1)) with
  | Some i =>
      {| apiKeys := apiKeys st; keyStatus := keyStatus st;
         currentKeyIndex := ((currentKeyIndex st + i) mod n)%nat |}
  | None => st
  end.

Definition blockApiKey (now : Z) (apiKey : string) (st : t) : t :=
  match keyStatus st !! apiKey with
  | None => st
  | Some s =>
      let s' := mkStatus (key s) true (errorCount s) (lastErrorTime s) (Some now) in
      let st' := {| apiKeys := apiKeys st;
                    keyStatus := <[apiKey := s']> (keyStatus st);
                    currentKeyIndex := currentKeyIndex st |} in
      if (0 <? getAvailableKeysCount st')%nat then switchToNextKey st' else st'
  end.

Definition recordError (now : Z) (apiKey : string) (error : option JsError) (st : t) : t :=
  match keyStatus st !! apiKey with
  | None => st
  | Some s =>
      if is429Error error then
        let count0 := if ERROR_WINDOW_MS <? now - lastErrorTime s then 0 else errorCount s in
        let s' := mkStatus (key s) (isBlocked s) (count0 + 1) now (blockStartTime s) in
        let st' := {| apiKeys := apiKeys st;
                      keyStatus := <[apiKey := s']> (keyStatus st);
                      currentKeyIndex := currentKeyIndex st |} in
        if MAX_ERRORS_IN_WINDOW <=? errorCount s' then blockApiKey now apiKey st' else st'
      else st
  end.

Definition resetAllKeyStatus (st : t) : t :=
  {| apiKeys := apiKeys st;
     keyStatus := (fun s => if isBlocked s || (0 <? errorCount s)
                            then mkStatus (key s) false 0 0 None else s) <$> keyStatus st;
     currentKeyIndex := currentKeyIndex st |}.

(** [switchToNext()], the administrator's switch: the key it returns. *)
Definition switchToNext (now : Z) (st0 : t) : string * t :=
  let oldKey := default EmptyString (apiKeys st0 !! currentKeyIndex st0) in
  let st := cleanExpiredBlocks now st0 in
  let n := length (apiKeys st) in
  match find (usableAt st) (seq 1 (n - 1)) with
  | Some i =>
      let nextIndex := ((currentKeyIndex st + i) mod n)%nat in
      (default EmptyString (apiKeys st !! nextIndex),
       {| apiKeys := apiKeys st; keyStatus := keyStatus st; currentKeyIndex := nextIndex |})
  | None => (oldKey, st)
  end.

(** The preview of a key that the logs and [getStatus()] show. *)
Definition previewOf (k : string) : string := Js.substring0 10 k +:+ "...".

(** One element of [keyDetails]; [blockTimeRemaining] is in minutes. *)
Record KeyDetail := mkDetail {
  keyPreview : string;
  detail_isBlocked : bool;
  detail_errorCount : Z;
  blockTimeRemaining : option Z
}.

Record PoolStatus := mkPoolStatus {
  totalKeys : nat;
  availableKeys : nat;
  blockedKeys : Z;
  currentKey : string;
  keyDetails : list KeyDetail
}.

Definition keyDetailOf (now : Z) (k : string) (s : ApiKeyStatus) : KeyDetail :=
  mkDetail (previewOf k) (isBlocked s) (errorCount s)
    (if isBlocked s && Js.truthyNum (blockStartTime s) then
       match blockStartTime s with
       | Some t0 => Some (Z.max 0 ((BLOCK_DURATION_MS - (now - t0)) / 60000))
       | None => None
       end
     else None).

(** [getStatus()]; [None] when the status record of a listed key is
    missing and the property access throws. *)
Definition getStatus (now : Z) (st0 : t) : option (PoolStatus * t) :=
  let st := cleanExpiredBlocks now st0 in
  match mapM (fun k => keyDetailOf now k <$> keyStatus st !! k) (apiKeys st) with
  | None => None
  | Some details =>
      let available := getAvailableKeysCount st in
      let '(current, st') := getCurrentApiKey now st in
      Some (mkPoolStatus (length (apiKeys st)) available
              (Z.of_nat (length (apiKeys st)) - Z.of_nat available)
              (previewOf current) details,
            st')
  end.

(** [resetApiKey(keyPreview)]: the first key, in the order of the map,
    that starts with the preview less its dots. *)
Definition resetApiKey (keyPreview : string) (st : t) : bool * t :=
  let wanted := Js.removeFirst "..." keyPreview in
  match find (fun e => Js.startsWith e.1 wanted) (entries st) with
  | Some e =>
      (true,
       {| apiKeys := apiKeys st;
          keyStatus := <[e.1 := mkStatus (key e.2) false 0 0 None]> (keyStatus st);
          currentKeyIndex := currentKeyIndex st |})
  | None => (false, st)
  end.

(** What the accumulator of [getEarliestBlockedKey] holds after the
    entries [seen]: nothing when there are none, else an entry of least
    block instant. *)
Definition earliestOf (seen : list (string * ApiKeyStatus)) (acc : option string * option Z)
  : Prop :=
  match acc with
  | (None, None) => seen = []
  | (Some ka, Some ta) =>
      (exists sa, (ka, sa) ∈ seen /\ blockStartTime sa = Some ta)
      /\ forall e t', e ∈ seen -> blockStartTime e.2 = Some t' -> ta <= t'
  | _ => False
  end.

(** Key [k] is blocked since [t0]. *)
Definition blockedAt (st : t) (k : string) (t0 : Z) : Prop :=
  exists s, keyStatus st !! k = Some s /\ isBlocked s = true /\ blockStartTime s = Some t0.

(** Key [k] is blocked and its block is at most one hour old at [now]. *)
Definition stillBlocked (now : Z) (st : t) (k : string) : Prop :=
  exists t0, blockedAt st k t0 /\ now - t0 <= BLOCK_DURATION_MS.

(** What the constructor and the clock guarantee of a pool: every key of
    the list is a non-empty string with a status record, and a blocked key
    carries the instant of its block, which lies after the epoch. *)
Record wellFormed (st : t) : Prop := mkWellFormed {
  wf_keys : forall k, k ∈ apiKeys st -> k <> EmptyString /\ is_Some (keyStatus st !! k);
  wf_blocked : forall k s, keyStatus st !! k = Some s -> isBlocked s = true ->
               exists t0, blockStartTime s = Some t0 /\ 0 < t0
}.

End ApiKeyManager.

(** The failure window of one credential as the specification words it:
    the window opens at its first error and is reset once five minutes have
    elapsed since that error. *)
Module CredentialSpec.

Record t := mk {
  errorCount : Z;
  firstErrorAtInWindow : option Z;
  blockedAt : option Z
}.

Definition healthy : t := mk 0 None None.

Definition reportRateLimit (now : Z) (c : t) : t :=
  let c1 :=
    match firstErrorAtInWindow c with
    | Some first =>
        if ApiKeyManager.ERROR_WINDOW_MS <=? now - first
        then mk 0 None (blockedAt c) else c
    | None => c
    end in
  let first := match firstErrorAtInWindow c1 with Some f => Some f | None => Some now end in
  let count := errorCount c1 + 1 in
  mk count first
     (if ApiKeyManager.MAX_ERRORS_IN_WINDOW <=? count then Some now else blockedAt c1).

End CredentialSpec.

(** ** Stamina controller: [StaminaManager] (src/utils/stamina-manager.ts) *)

(** [Math.pow] belongs to the runtime; the model takes it as an interface. *)
Class MathPow := { Math_pow : Q -> Q -> Q }.

Module StaminaManager.

Local Open Scope Q_scope.

Record StaminaConfig := mkConfig {
  maxStamina : Q;
  replyStaminaCost : Q;
  regenRate : Q;
  regenInterval : Z;
  lowStaminaThreshold : Q;
  criticalStaminaThreshold : Q;
  restMode : bool;
  k : Q;
  p : Q;
  alpha : Q;
  beta : Q;
  gamma : Q
}.

Inductive Level := high | medium | low | critical.

Record t := mk {
  config : StaminaConfig;
  currentStamina : Q;
  momentum : Q;
  lastUpdateTime : Z;
  lastReplyTime : Z;
  lastNetRecovery : Q
}.

Definition setConfigRestMode (c : StaminaConfig) (b : bool) : StaminaConfig :=
  mkConfig (maxStamina c) (replyStaminaCost c) (regenRate c) (regenInterval c)
           (lowStaminaThreshold c) (criticalStaminaThreshold c) b
           (k c) (p c) (alpha c) (beta c) (gamma c).

(** The constructor: full stamina, no momentum. *)
Definition new (c : StaminaConfig) (now : Z) : t :=
  mk c (maxStamina c) 0 now now 0.

Section Model.
Context `{MathPow}.

(** [update(intensity, dt)], statement by statement.  The events it
    emits are observed by loggers only and are left out. *)
Definition update (intensity dt : Q) (s : t) : t :=
  let c := config s in
  if restMode c then
    mk c (currentStamina s)
       (Qmax 0 (momentum s * (1 - beta c * dt)))
       (lastUpdateTime s) (lastReplyTime s) (lastNetRecovery s)
  else
    let momentum1 := momentum s * (1 - beta c * dt) + alpha c * intensity * dt in
    let momentum2 := Qmax 0 momentum1 in
    let consume := k c * Math_pow intensity (p c) * dt in
    let stamina1 := currentStamina s - consume in
    let recoveryRaw := regenRate c * (1 - stamina1 / maxStamina c) in
    let recoveryPenalty := gamma c * momentum2 in
    let netRecovery := (recoveryRaw - recoveryPenalty) * dt in
    let stamina2 := stamina1 + netRecovery in
    let stamina3 := Qmax 0 (Qmin stamina2 (maxStamina c)) in
    mk c stamina3 momentum2 (lastUpdateTime s) (lastReplyTime s) netRecovery.

Definition calculateLevel (c : StaminaConfig) (stamina : Q) : Level :=
  let percentage := (stamina / maxStamina c) * 100 in
  if Qle_bool 70 percentage then high
  else if Qle_bool 50 percentage then medium
  else if Qle_bool (criticalStaminaThreshold c) percentage then low
  else critical.

Definition canReply (s : t) : bool :=
  if restMode (config s) then false
  else
    let minStaminaRequired := k (config s) * Math_pow 1 (p (config s)) in
    Qle_bool minStaminaRequired (currentStamina s).

(** Seconds between two instants given in milliseconds. *)
Definition elapsedSeconds (now last : Z) : Q := inject_Z (now - last) / 1000.

(** The callback of the [setInterval] timer. *)
Definition tick (now : Z) (s : t) : t :=
  let dt := elapsedSeconds now (lastUpdateTime s) in
  let s1 := mk (config s) (currentStamina s) (momentum s) now
               (lastReplyTime s) (lastNetRecovery s) in
  update 0 dt s1.

Definition consumeStamina (messageCount : Z) (now : Z) (s : t) : bool * t :=
  if restMode (config s) then (false, s)
  else
    let dt := elapsedSeconds now (lastUpdateTime s) in
    let s1 := mk (config s) (currentStamina s) (momentum s) now
                 (lastReplyTime s) (lastNetRecovery s) in
    let s2 := if Qle_bool dt (1 # 1000) then s1 else update 0 dt s1 in
    let s3 := update (inject_Z messageCount) 1 s2 in
    (true, mk (config s3) (currentStamina s3) (momentum s3) (lastUpdateTime s3)
              now (lastNetRecovery s3)).

Definition setRestMode (enabled : bool) (s : t) : t :=
  mk (setConfigRestMode (config s) enabled) (currentStamina s) (momentum s)
     (lastUpdateTime s) (lastReplyTime s) (lastNetRecovery s).

Definition setStamina (value : Q) (s : t) : t :=
  mk (config s) (Qmax 0 (Qmin (maxStamina (config s)) value)) (momentum s)
     (lastUpdateTime s) (lastReplyTime s) (lastNetRecovery s).

(** The part of [getStatus()] that callers branch on. *)
Record StaminaStatus := mkStaminaStatus {
  status_level : Level;
  status_canReply : bool;
  status_restMode : bool
}.

Definition getStatus (s : t) : StaminaStatus :=
  mkStaminaStatus (calculateLevel (config s) (currentStamina s))
                  (canReply s) (restMode (config s)).

(** The update step as the specification words it: the recovery term
    reads the stamina from before this step's consumption. *)
Definition update_spec (intensity dt : Q) (s : t) : t :=
  let c := config s in
  let momentum' := Qmax 0 (momentum s * (1 - beta c * dt) + alpha c * intensity * dt) in
  let consume := k c * Math_pow intensity (p c) * dt in
  let recover := (regenRate c * (1 - currentStamina s / maxStamina c)
                  - gamma c * momentum') * dt in
  let current' := Qmax 0 (Qmin (currentStamina s - consume + recover) (maxStamina c)) in
  mk c current' momentum' (lastUpdateTime s) (lastReplyTime s) recover.

End Model.

(** The operations that change the stamina state. *)
Inductive Op :=
| OpTick (now : Z)
| OpConsume (messageCount : Z) (now : Z)
| OpSetStamina (value : Q)
| OpSetRestMode (enabled : bool)
| OpUpdate (intensity dt : Q).

Definition run `{MathPow} (o : Op) (s : t) : t :=
  match o with
  | OpTick now => tick now s
  | OpConsume n now => (consumeStamina n now s).2
  | OpSetStamina v => setStamina v s
  | OpSetRestMode b => setRestMode b s
  | OpUpdate i dt => update i dt s
  end.

Definition runAll `{MathPow} (ops : list Op) (s : t) : t :=
  fold_left (fun s o => run o s) ops s.

(** The quantities of one update step outside rest mode, as closed
    formulas of the state before the step: the consumption, the new
    momentum, and the recovery for a given stamina reading [current]. *)
Definition consumeOf `{MathPow} (s : t) (i dt : Q) : Q :=
  k (config s) * Math_pow i (p (config s)) * dt.

Definition momentumOf (s : t) (i dt : Q) : Q :=
  Qmax 0 (momentum s * (1 - beta (config s) * dt) + alpha (config s) * i * dt).

Definition recoverOf (s : t) (i dt : Q) (current : Q) : Q :=
  (regenRate (config s) * (1 - current / maxStamina (config s))
   - gamma (config s) * momentumOf s i dt) * dt.

(** The bounds the specification gives for the stamina state. *)
Definition in_bounds (s : t) : Prop :=
  0 <= currentStamina s /\ currentStamina s <= maxStamina (config s)
  /\ 0 <= momentum s.

(** The operations that the timer and the queue perform, as opposed to
    the two the administrator performs. *)
Definition routineOp (o : Op) : bool :=
  match o with
  | OpTick _ | OpConsume _ _ | OpUpdate _ _ => true
  | OpSetStamina _ | OpSetRestMode _ => false
  end.

(** The levels from worst to best. *)
Definition levelRank (l : Level) : nat :=
  match l with critical => 0 | low => 1 | medium => 2 | high => 3 end.

End StaminaManager.

(** [Math.pow] on the exponents the examples use: integral ones. *)
Definition intPow : MathPow := {| Math_pow b e := Qpower b (Qfloor e) |}.

(** ** Shared interfaces (src/core/types.ts, src/core/message-queue-types.ts) *)

Module MessageType.
Inductive t := text | command.
End MessageType.

Module Message.
Record t := mk {
  id : string;
  userId : string;
  userName : option string;
  groupId : option string;
  conversationId : option string;
  content : string;
  timestamp : Z;
  type : MessageType.t
}.
End Message.

Inductive ChatTask :=
| ThinkingTask (content : string)
| ReplyTask (content : list string).

(** A recorded tool call: its name and the two properties of its result
    that the server reads. *)
Module ToolCallInfo.
Record t := mk {
  name : string;
  result_action : option string;
  result_userId : option Z
}.
End ToolCallInfo.

Module ChatResponse.
Record t := mk {
  content : string;
  timestamp : Z;
  tokensUsed : option Z;
  skipReply : option bool;
  thinking : option string;
  replies : option (list string);
  messageIds : option (list string);
  tasks : option (list ChatTask);
  toolCalls : option (list ToolCallInfo.t)
}.
End ChatResponse.

Module QueuedMessage.
Record t := mk {
  userId : string;
  userName : option string;
  groupId : option string;
  content : string;
  timestamp : Z;
  messageId : string;
  isHighPriority : bool;
  contextId : string;
  receivedAt : Z
}.
End QueuedMessage.

Module QueueConfig.
Record t := mk {
  botName : string;
  silenceSeconds : Z;
  maxQueueSize : Z;
  maxQueueAgeSeconds : Z
}.
End QueueConfig.

Inductive FlushReason :=
| high_priority_trigger
| silence_trigger
| max_size_trigger
| max_age_trigger
| manual_trigger
| stamina_insufficient.

Module QueueMessageLog.
Record t := mk {
  messageId : string;
  userId : string;
  userName : option string;
  groupId : option string;
  contentPreview : string;
  contextId : option string
}.
End QueueMessageLog.

Module QueueProcessResult.
Record t := mk {
  processed : bool;
  messageCount : nat;
  response : option ChatResponse.t;
  error : option string;
  reason : FlushReason;
  messages : list QueueMessageLog.t;
  contextId : option string
}.
End QueueProcessResult.

(** ** Per-context queue: [MessageQueueManager]
    (src/core/message-queue-manager.ts) *)

Module QueueState.
(** [silenceTimer] holds the instant at which the armed timer fires. *)
Record t := mk {
  messages : list QueuedMessage.t;
  silenceTimer : option Z;
  isProcessing : bool;
  lastFlushTime : option Z;
  lastFlushReason : option FlushReason
}.
End QueueState.

Module MessageQueueManager.

(** The fields of the class together with the [staminaManager] singleton
    that [flushQueue] consults. *)
Record t := mk {
  queueConfig : QueueConfig.t;
  queues : gmap string QueueState.t;
  processingContexts : gset string;
  totalProcessed : nat;
  lastFlushTime : option Z;
  lastFlushReason : option FlushReason;
  staminaManager : StaminaManager.t
}.

(** What the awaited [processMessages] call settles to. *)
Inductive Outcome :=
| Fulfilled (response : ChatResponse.t)
| Rejected (error : string).

(** The injected [IMessageProcessor].  The context string it also receives
    is computed from the batch alone ([formatMessagesContext]). *)
Definition Processor := list QueuedMessage.t -> Outcome.

(** What the manager does to its collaborators, in order. *)
Inductive Event :=
| MessageQueued (message : QueuedMessage.t)
| ProcessMessages (batch : list QueuedMessage.t)
| QueueFlushed (result : QueueProcessResult.t)
| QueueError (error : string) (context : string).

Definition withQueues (st : t) (q : gmap string QueueState.t) : t :=
  mk (queueConfig st) q (processingContexts st) (totalProcessed st)
     (lastFlushTime st) (lastFlushReason st) (staminaManager st).

Definition isHighPriorityMessage (cfg : QueueConfig.t) (message : Message.t) : bool :=
  let content := Js.toLowerCase (Js.trim (Message.content message)) in
  let botName := Js.toLowerCase (QueueConfig.botName cfg) in
  Js.includes content (String "@" botName)
  || Js.includes content botName
  || match Message.type message with
     | MessageType.command => true
     | MessageType.text => false
     end.

Definition truthyOpt (o : option string) : bool :=
  match o with Some s => Js.truthyStr s | None => false end.

Definition getContextId (message : Message.t) : string :=
  if truthyOpt (Message.groupId message)
  then "group_" +:+ default EmptyString (Message.groupId message)
  else if truthyOpt (Message.conversationId message)
  then "conv_" +:+ default EmptyString (Message.conversationId message)
  else "private_" +:+ Message.userId message.

Definition convertToQueuedMessage (cfg : QueueConfig.t) (now : Z)
    (message : Message.t) (contextId : string) : QueuedMessage.t :=
  QueuedMessage.mk (Message.userId message) (Message.userName message)
    (Message.groupId message) (Message.content message)
    (Message.timestamp message / 1000) (Message.id message)
    (isHighPriorityMessage cfg message) contextId now.

Definition emptyQueue : QueueState.t := QueueState.mk [] None false None None.

(** [getOrCreateQueue]: the state of the context and the map that holds it. *)
Definition getOrCreateQueue (st : t) (contextId : string) : QueueState.t * t :=
  match queues st !! contextId with
  | Some state => (state, st)
  | None => (emptyQueue, withQueues st (<[contextId := emptyQueue]> (queues st)))
  end.

Definition truncateContent (content : string) : string :=
  if (80 <? Js.length content)%nat
  then Js.substringTo 80 content +:+ "..."
  else content.

Definition createMessageLog (message : QueuedMessage.t) : QueueMessageLog.t :=
  QueueMessageLog.mk (QueuedMessage.messageId message) (QueuedMessage.userId message)
    (QueuedMessage.userName message) (QueuedMessage.groupId message)
    (truncateContent (QueuedMessage.content message))
    (Some (QueuedMessage.contextId message)).

Definition createMessageLogs (messages : list QueuedMessage.t) : list QueueMessageLog.t :=
  map createMessageLog messages.

Definition clearSilenceTimer (state : QueueState.t) : QueueState.t :=
  QueueState.mk (QueueState.messages state) None (QueueState.isProcessing state)
    (QueueState.lastFlushTime state) (QueueState.lastFlushReason state).

Definition resetSilenceTimer (cfg : QueueConfig.t) (now : Z) (state : QueueState.t)
  : QueueState.t :=
  if QueueConfig.silenceSeconds cfg <=? 0 then clearSilenceTimer state
  else QueueState.mk (QueueState.messages state)
         (Some (now + QueueConfig.silenceSeconds cfg * 1000))
         (QueueState.isProcessing state)
         (QueueState.lastFlushTime state) (QueueState.lastFlushReason state).

Definition withMessages (state : QueueState.t) (ms : list QueuedMessage.t) : QueueState.t :=
  QueueState.mk ms (QueueState.silenceTimer state) (QueueState.isProcessing state)
    (QueueState.lastFlushTime state) (QueueState.lastFlushReason state).

Definition notProcessed (reason : FlushReason) (ms : list QueuedMessage.t)
    (contextId : string) : QueueProcessResult.t :=
  QueueProcessResult.mk false (length ms) None None reason
    (createMessageLogs ms) (Some contextId).

(** Where [flushQueue] stands when it first yields: it has returned, or it
    awaits [processMessages] on the drained batch. *)
Inductive FlushStart :=
| Returned (result : QueueProcessResult.t)
| Awaiting (messagesToProcess : list QueuedMessage.t).

Section Model.
Context `{MathPow}.

(** [flushQueue] up to the [await]. *)
Definition flushQueue_begin (st : t) (contextId : string) (reason : FlushReason)
  : t * FlushStart :=
  match queues st !! contextId with
  | None => (st, Returned (notProcessed reason [] contextId))
  | Some queueState0 =>
      let queueState := clearSilenceTimer queueState0 in
      let st1 := withQueues st (<[contextId := queueState]> (queues st)) in
      match QueueState.messages queueState with
      | [] => (st1, Returned (notProcessed reason [] contextId))
      | _ :: _ =>
          let staminaStatus := StaminaManager.getStatus (staminaManager st1) in
          if negb (StaminaManager.canReply (staminaManager st1)) then
            let queueState' :=
              match StaminaManager.status_level staminaStatus with
              | StaminaManager.critical => withMessages queueState []
              | _ => queueState
              end in
            (withQueues st (<[contextId := queueState']> (queues st)),
             Returned (notProcessed stamina_insufficient
                         (QueueState.messages queueState') contextId))
          else if QueueState.isProcessing queueState then
            (st1, Returned (notProcessed reason (QueueState.messages queueState) contextId))
          else
            let messagesToProcess := QueueState.messages queueState in
            let queueState' :=
              QueueState.mk [] (QueueState.silenceTimer queueState) true
                (QueueState.lastFlushTime queueState)
                (QueueState.lastFlushReason queueState) in
            (mk (queueConfig st) (<[contextId := queueState']> (queues st))
                ({[contextId]} ∪ processingContexts st) (totalProcessed st)
                (lastFlushTime st) (lastFlushReason st) (staminaManager st),
             Awaiting messagesToProcess)
      end
  end.

Definition reasonName (reason : FlushReason) : string :=
  match reason with
  | high_priority_trigger => "high_priority_trigger"
  | silence_trigger => "silence_trigger"
  | max_size_trigger => "max_size_trigger"
  | max_age_trigger => "max_age_trigger"
  | manual_trigger => "manual_trigger"
  | stamina_insufficient => "stamina_insufficient"
  end.

(** The [finally] block. *)
Definition flushQueue_finally (st : t) (contextId : string) : t :=
  let pcs := processingContexts st ∖ {[contextId]} in
  let qs :=
    match queues st !! contextId with
    | None => queues st
    | Some queueState =>
        let queueState' :=
          QueueState.mk (QueueState.messages queueState)
            (QueueState.silenceTimer queueState) false
            (QueueState.lastFlushTime queueState)
            (QueueState.lastFlushReason queueState) in
        match QueueState.messages queueState', QueueState.silenceTimer queueState' with
        | [], None => delete contextId (queues st)
        | _, _ => <[contextId := queueState']> (queues st)
        end
    end in
  mk (queueConfig st) qs pcs (totalProcessed st)
     (lastFlushTime st) (lastFlushReason st) (staminaManager st).

(** [flushQueue] from the point where the awaited call has settled. *)
Definition flushQueue_end (now : Z) (st : t) (contextId : string) (reason : FlushReason)
    (messagesToProcess : list QueuedMessage.t) (outcome : Outcome)
  : t * QueueProcessResult.t * list Event :=
  let messageCount := length messagesToProcess in
  match outcome with
  | Fulfilled response =>
      let stamina' :=
        (StaminaManager.consumeStamina (Z.of_nat messageCount) now (staminaManager st)).2 in
      let flushTime := now / 1000 in
      let qs :=
        match queues st !! contextId with
        | None => queues st
        | Some queueState =>
            <[contextId := QueueState.mk (QueueState.messages queueState)
                             (QueueState.silenceTimer queueState)
                             (QueueState.isProcessing queueState)
                             (Some flushTime) (Some reason)]> (queues st)
        end in
      let st1 := mk (queueConfig st) qs (processingContexts st)
                    (totalProcessed st + messageCount)%nat
                    (Some flushTime) (Some reason) stamina' in
      let result :=
        QueueProcessResult.mk true messageCount (Some response) None reason
          (createMessageLogs messagesToProcess) (Some contextId) in
      (flushQueue_finally st1 contextId, result, [QueueFlushed result])
  | Rejected error =>
      let result :=
        QueueProcessResult.mk false messageCount None (Some error) reason
          (createMessageLogs messagesToProcess) (Some contextId) in
      (flushQueue_finally st contextId, result,
       [QueueError error ("flush_queue_" +:+ reasonName reason)])
  end.

(** [flushQueue] run through, the processor answering at once. *)
Definition flushQueue (processor : Processor) (now : Z) (st : t)
    (contextId : string) (reason : FlushReason)
  : t * QueueProcessResult.t * list Event :=
  match flushQueue_begin st contextId reason with
  | (st1, Returned result) => (st1, result, [])
  | (st1, Awaiting messagesToProcess) =>
      let '(st2, result, events) :=
        flushQueue_end now st1 contextId reason messagesToProcess
          (processor messagesToProcess) in
      (st2, result, ProcessMessages messagesToProcess :: events)
  end.

Definition checkAndTriggerFlush (processor : Processor) (now : Z) (st : t)
    (contextId : string) : t * list Event :=
  match queues st !! contextId with
  | None => (st, [])
  | Some queueState =>
      match QueueState.messages queueState with
      | [] => (st, [])
      | oldestMessage :: _ =>
          if QueueConfig.maxQueueSize (queueConfig st)
             <=? Z.of_nat (length (QueueState.messages queueState)) then
            let '(st', _, events) := flushQueue processor now st contextId max_size_trigger in
            (st', events)
          else if QueueConfig.maxQueueAgeSeconds (queueConfig st) * 1000
                  <=? now - QueuedMessage.receivedAt oldestMessage then
            let '(st', _, events) := flushQueue processor now st contextId max_age_trigger in
            (st', events)
          else (st, [])
      end
  end.

(** [addMessage]: the entry point of the queue. *)
Definition addMessage (processor : Processor) (now : Z) (st : t) (message : Message.t)
  : t * list Event :=
  let contextId := getContextId message in
  let '(queueState, st0) := getOrCreateQueue st contextId in
  let queuedMessage := convertToQueuedMessage (queueConfig st) now message contextId in
  let pushed := withMessages queueState (QueueState.messages queueState ++ [queuedMessage]) in
  let st1 := withQueues st0 (<[contextId := pushed]> (queues st0)) in
  if QueuedMessage.isHighPriority queuedMessage then
    let '(st2, _, events) := flushQueue processor now st1 contextId high_priority_trigger in
    (st2, MessageQueued queuedMessage :: events)
  else
    let st2 := withQueues st1
                 (<[contextId := resetSilenceTimer (queueConfig st) now pushed]> (queues st1)) in
    let '(st3, events) := checkAndTriggerFlush processor now st2 contextId in
    (st3, MessageQueued queuedMessage :: events).

(** [flush(contextId)] *)
Definition flush (processor : Processor) (now : Z) (st : t) (contextId : string)
  : t * QueueProcessResult.t * list Event :=
  flushQueue processor now st contextId manual_trigger.

(** The callback of the silence timer. *)
Definition onSilenceTimer (processor : Processor) (now : Z) (st : t) (contextId : string)
  : t * list Event :=
  match queues st !! contextId with
  | None => (st, [])
  | Some currentState =>
      match QueueState.messages currentState with
      | [] => (st, [])
      | _ :: _ =>
          let '(st', _, events) := flushQueue processor now st contextId silence_trigger in
          (st', events)
      end
  end.

End Model.

(** [staminaManager.canReply()] and the level of [getStatus()], as
    [flushQueue] reads them. *)
Definition canReplyNow `{MathPow} (st : t) : bool :=
  StaminaManager.canReply (staminaManager st).

Definition levelNow (st : t) : StaminaManager.Level :=
  StaminaManager.calculateLevel (StaminaManager.config (staminaManager st))
    (StaminaManager.currentStamina (staminaManager st)).

(** The queued messages of a context, if it has a queue. *)
Definition messagesAt (st : t) (contextId : string) : option (list QueuedMessage.t) :=
  QueueState.messages <$> queues st !! contextId.

Definition queuedBefore (st : t) (contextId : string) : list QueuedMessage.t :=
  default [] (messagesAt st contextId).


(** The batches handed to the processor, in order. *)
Definition batches (events : list Event) : list (list QueuedMessage.t) :=
  omap (fun e => match e with ProcessMessages b => Some b | _ => None end) events.

Definition new (cfg : QueueConfig.t) (stamina : StaminaManager.t) : t :=
  mk cfg ∅ ∅ 0 None None stamina.

End MessageQueueManager.

(** ** Task runner: [TaskQueue] (src/core/task-queue.ts) *)

Inductive TaskType := send_message | store_memory.

#[global] Instance TaskType_eq_dec : EqDecision TaskType.
Proof. solve_decision. Defined.

Module SendMessageTaskPayload.
Record Target := mkTarget {
  userId : option Z;
  groupId : option Z;
  atUser : option Z
}.
(** [metadata] carries the originating event and [pendingMessageId]; the
    event is identified by its [message_id]. *)
Record t := mk {
  target : Target;
  message : string;
  metadata_qqMessageId : Z;
  metadata_pendingMessageId : option string
}.
End SendMessageTaskPayload.

Module StoreMemoryTaskPayload.
Record t := mk {
  content : string;
  metadata_contextId : option string;
  metadata_associatedMessageIds : list string;
  metadata_finalReplies : list string
}.
End StoreMemoryTaskPayload.

Inductive TaskPayload :=
| SendMessage (payload : SendMessageTaskPayload.t)
| StoreMemory (payload : StoreMemoryTaskPayload.t).

Definition taskTypeOf (payload : TaskPayload) : TaskType :=
  match payload with SendMessage _ => send_message | StoreMemory _ => store_memory end.

Inductive Priority := priority_high | priority_normal.

Module TaskOptions.
Record t := mk {
  priority : option Priority;
  maxAttempts : option nat
}.
Definition none : t := mk None None.
End TaskOptions.

(** The state of the promise that [enqueue] returns for a task. *)
Inductive PromiseState :=
| Pending
| Resolved
| RejectedWith (error : string).

Module TaskQueue.

(** [id] numbers the tasks in the order of their creation; the promise of
    task [id] is looked up in [promises]. *)
Record InternalTask := mkTask {
  id : nat;
  payload : TaskPayload;
  attempts : nat;
  maxAttempts : nat;
  createdAt : Z
}.

(** The fields of the class; [inFlight] is the task of the loop of
    [processQueue] while that loop is suspended at [await handler(task)]
    or at the retry delay. *)
Record t := mk {
  handlers : list TaskType;
  queue : list InternalTask;
  isProcessing : bool;
  stopRequested : bool;
  inFlight : option InternalTask;
  promises : gmap nat PromiseState;
  nextId : nat
}.

(** What a handler invocation does: it returns ([None]) or throws, and it
    acts on the state [E] of the component that registered it. *)
Definition Handler (E : Type) := InternalTask -> E -> option string * E.

Definition new : t := mk [] [] false false None ∅ 0.

Definition registerHandler (type : TaskType) (st : t) : t :=
  mk (type :: handlers st) (queue st) (isProcessing st) (stopRequested st)
     (inFlight st) (promises st) (nextId st).

Definition hasHandler (st : t) (type : TaskType) : bool :=
  bool_decide (type ∈ handlers st).

Definition retryDelayStrategy (attempt : nat) : Z :=
  Z.min (1000 * 2 ^ (Z.of_nat attempt - 1)) 10000.

Definition settlePromise (i : nat) (p : PromiseState) (st : t) : t :=
  mk (handlers st) (queue st) (isProcessing st) (stopRequested st)
     (inFlight st) (<[i := p]> (promises st)) (nextId st).

(** The loop of [processQueue] from its head to the next point where it
    yields: a task is handed to its handler, or the loop is left and the
    [finally] block clears [isProcessing]. *)
Fixpoint loopHead (q : list InternalTask) (st : t) : t :=
  if stopRequested st then
    mk (handlers st) q false (stopRequested st) None (promises st) (nextId st)
  else
    match q with
    | [] => mk (handlers st) [] false (stopRequested st) None (promises st) (nextId st)
    | task :: rest =>
        if hasHandler st (taskTypeOf (payload task)) then
          mk (handlers st) rest true (stopRequested st)
             (Some (mkTask (id task) (payload task) (S (attempts task))
                           (maxAttempts task) (createdAt task)))
             (promises st) (nextId st)
        else
          loopHead rest
            (settlePromise (id task) (RejectedWith "No handler for task type") st)
    end.

(** The loop from the point where the handler of the task in flight has
    settled, up to the head of the loop. *)
Definition afterHandler (outcome : option string) (st : t) : t :=
  match inFlight st with
  | None => st
  | Some task =>
      match outcome with
      | None =>
          mk (handlers st) (queue st) (isProcessing st) (stopRequested st) None
             (<[id task := Resolved]> (promises st)) (nextId st)
      | Some error =>
          if (attempts task <? maxAttempts task)%nat then
            mk (handlers st) (task :: queue st) (isProcessing st) (stopRequested st) None
               (promises st) (nextId st)
          else
            mk (handlers st) (queue st) (isProcessing st) (stopRequested st) None
               (<[id task := RejectedWith error]> (promises st)) (nextId st)
      end
  end.

(** [processQueue()] as called: up to its first yield. *)
Definition processQueue (st : t) : t :=
  if isProcessing st || stopRequested st then st
  else loopHead (queue st) st.

(** [enqueue], up to the point where it returns the promise of the new
    task; [None] when it throws for want of a handler. *)
Definition enqueue (now : Z) (payload : TaskPayload) (options : TaskOptions.t) (st : t)
  : option (nat * t) :=
  if hasHandler st (taskTypeOf payload) then
    let task := mkTask (nextId st) payload 0
                  (default 3%nat (TaskOptions.maxAttempts options)) now in
    let q := match TaskOptions.priority options with
             | Some priority_high => task :: queue st
             | _ => queue st ++ [task]
             end in
    Some (nextId st,
          processQueue (mk (handlers st) q (isProcessing st) (stopRequested st)
                          (inFlight st) (<[nextId st := Pending]> (promises st))
                          (S (nextId st))))
  else None.

(** One turn of the event loop on the suspended [processQueue]: the
    handler in flight settles and the loop runs to its next yield. *)
Definition turn {E} (handler : Handler E) (st : t) (env : E) : t * E :=
  match inFlight st with
  | Some task =>
      let '(outcome, env1) := handler task env in
      let st1 := afterHandler outcome st in
      (loopHead (queue st1) st1, env1)
  | None => (st, env)
  end.

(** The event loop run until the queue is quiescent, for at most [fuel]
    turns. *)
Fixpoint runLoop {E} (handler : Handler E) (fuel : nat) (st : t) (env : E) : t * E :=
  match fuel with
  | O => (st, env)
  | S fuel' =>
      match inFlight st with
      | Some _ =>
          let '(st1, env1) := turn handler st env in
          runLoop handler fuel' st1 env1
      | None => (st, env)
      end
  end.

(** Handler invocations that a task can still take. *)
Definition triesLeft (task : InternalTask) : nat :=
  S (maxAttempts task - attempts task).

(** Turns that suffice for the tasks at hand. *)
Definition turnsFor (st : t) : nat :=
  list_sum (map triesLeft (queue st))
  + match inFlight st with Some task => triesLeft task | None => 0 end.

Definition run {E} (handler : Handler E) (st : t) (env : E) : t * E :=
  runLoop handler (turnsFor st) st env.

Definition requestStop (st : t) : t :=
  mk (handlers st) (queue st) (isProcessing st) true
     (inFlight st) (promises st) (nextId st).

(** [shutdown()]: the stop flag, then the wait for [isProcessing] to
    clear, during which the suspended loop takes its turn. *)
Definition shutdown {E} (handler : Handler E) (st : t) (env : E) : t * E :=
  let st1 := requestStop st in
  if isProcessing st1 then
    match inFlight st1 with
    | Some _ => turn handler st1 env
    | None => (loopHead (queue st1) st1, env)
    end
  else (st1, env).

(** No loop of [processQueue] is running, nothing waits, and no stop has
    been requested. *)
Definition idle (st : t) : Prop :=
  isProcessing st = false /\ inFlight st = None /\ queue st = [] /\ stopRequested st = false.

(** The queue between two turns of the event loop when no stop has been
    requested: a loop of [processQueue] is suspended on the task in flight,
    or no loop runs and nothing waits. *)
Definition running (st : t) : Prop :=
  stopRequested st = false
  /\ match inFlight st with
     | Some _ => isProcessing st = true
     | None => isProcessing st = false /\ queue st = []
     end.

(** The promise of task [i] has settled; task [i] is in the queue or in
    flight. *)
Definition settled (st : t) (i : nat) : Prop :=
  promises st !! i = Some Resolved
  \/ exists error, promises st !! i = Some (RejectedWith error).

Definition waiting (st : t) (i : nat) : Prop :=
  i ∈ map id (queue st) \/ exists task, inFlight st = Some task /\ id task = i.

(** A task as the loop hands it to its handler: one more attempt counted. *)
Definition started (task : InternalTask) : InternalTask :=
  mkTask (id task) (payload task) (S (attempts task)) (maxAttempts task) (createdAt task).

(** A handler together with the record of its invocations: the tasks it
    was handed, in order. *)
Definition traced {E} (handler : Handler E) : Handler (list InternalTask * E) :=
  fun task state =>
    let '(outcome, env') := handler task state.2 in
    (outcome, (state.1 ++ [task], env')).

(** What the specification says of [shutdown()]: after the task in flight
    has completed, the tasks left in the queue are discarded and their
    promises rejected. *)
Definition shutdown_spec {E} (handler : Handler E) (st : t) (env : E) : t * E :=
  let '(st1, env1) := shutdown handler st env in
  (mk (handlers st1) [] (isProcessing st1) (stopRequested st1) (inFlight st1)
      (fold_left (fun m task => <[id task := RejectedWith "shutdown"]> m)
                 (queue st1) (promises st1))
      (nextId st1), env1).

End TaskQueue.

(** ** Outbound correlator: [EnhancedQQChatAgentServer]
    (src/core/enhanced-qq-agent-server.ts) *)

Inductive QQMessageType := group | private.

Module QQMessage.
Record t := mk {
  message_id : Z;
  message_type : QQMessageType;
  group_id : option Z;
  user_id : Z
}.
End QQMessage.

Module AgentServer.

Record PendingReply := mkPending {
  qqMessage : QQMessage.t;
  timestamp : Z
}.

(** [pendingReplies] is a [Map] whose keys are listed in insertion order
    by the fallback of [extractMessageIdsFromResult]: an association list
    with one entry per key. *)
Record t := mk {
  taskQueue : TaskQueue.t;
  pendingReplies : list (string * PendingReply)
}.

Definition PENDING_REPLY_TIMEOUT : Z := 30 * 60 * 1000.

Fixpoint mapGet {V} (m : list (string * V)) (key : string) : option V :=
  match m with
  | [] => None
  | (k, v) :: m' => if String.eqb k key then Some v else mapGet m' key
  end.

Fixpoint mapSet {V} (m : list (string * V)) (key : string) (v : V) : list (string * V) :=
  match m with
  | [] => [(key, v)]
  | (k, v0) :: m' => if String.eqb k key then (k, v) :: m' else (k, v0) :: mapSet m' key v
  end.

Definition mapDelete {V} (m : list (string * V)) (key : string) : list (string * V) :=
  filter (fun e => negb (String.eqb e.1 key)) m.

Definition mapKeys {V} (m : list (string * V)) : list string := map fst m.

Definition removePendingReply (messageId : string) (pending : list (string * PendingReply))
  : list (string * PendingReply) :=
  mapDelete pending messageId.

Definition cleanupExpiredPendingReplies (now : Z) (pending : list (string * PendingReply))
  : list (string * PendingReply) :=
  filter (fun e => negb (PENDING_REPLY_TIMEOUT <? now - timestamp e.2)) pending.

Definition addToPendingReplies (now : Z) (messageId : string) (m : QQMessage.t) (st : t) : t :=
  mk (taskQueue st)
     (cleanupExpiredPendingReplies now (mapSet (pendingReplies st) messageId (mkPending m now))).

Definition truthyZ (o : option Z) : bool :=
  match o with Some n => negb (n =? 0) | None => false end.

(** The WebSocket server: whether delivering the payload succeeds at the
    given attempt. *)
Definition WsServer := SendMessageTaskPayload.t -> nat -> bool.

(** The two handlers of [registerTaskHandlers]; the state they act on is
    [pendingReplies]. *)
Definition taskHandler (ws : WsServer) : TaskQueue.Handler (list (string * PendingReply)) :=
  fun task pending =>
    match TaskQueue.payload task with
    | SendMessage payload =>
        let target := SendMessageTaskPayload.target payload in
        if truthyZ (SendMessageTaskPayload.groupId target)
           || truthyZ (SendMessageTaskPayload.userId target) then
          if ws payload (TaskQueue.attempts task) then
            (None,
             match SendMessageTaskPayload.metadata_pendingMessageId payload with
             | Some pendingMessageId =>
                 if Js.truthyStr pendingMessageId
                 then removePendingReply pendingMessageId pending
                 else pending
             | None => pending
             end)
          else (Some "Failed to deliver message via WebSocket server", pending)
        else (Some "Invalid message target", pending)
    | StoreMemory _ => (None, pending)
    end.

(** How an awaited call ends: it returns, it throws, or the promise it
    awaits never settles. *)
Inductive Completion :=
| Completed
| Threw (error : string)
| Suspended.

(** [await this.taskQueue.enqueue(...)]: the enqueue, the event loop run
    until the queue is quiescent, and the state of the awaited promise.
    The second component lists the task that entered the queue. *)
Definition awaitEnqueue (ws : WsServer) (now : Z) (payload : TaskPayload) (st : t)
  : t * list TaskPayload * Completion :=
  match TaskQueue.enqueue now payload TaskOptions.none (taskQueue st) with
  | None => (st, [], Threw "No handler registered for task type")
  | Some (i, tq1) =>
      let '(tq2, pending2) := TaskQueue.run (taskHandler ws) tq1 (pendingReplies st) in
      (mk tq2 pending2, [payload],
       match TaskQueue.promises tq2 !! i with
       | Some Resolved => Completed
       | Some (RejectedWith error) => Threw error
       | _ => Suspended
       end)
  end.

Definition trimNonEmpty (l : list string) : list string :=
  filter (fun reply => (0 <? String.length reply)%nat) (map Js.trim l).

Definition normalizeTask (task : ChatTask) : option ChatTask :=
  match task with
  | ThinkingTask content =>
      let trimmed := Js.trim content in
      if (0 <? String.length trimmed)%nat then Some (ThinkingTask trimmed) else None
  | ReplyTask content =>
      let replies := trimNonEmpty content in
      if (0 <? length replies)%nat then Some (ReplyTask replies) else None
  end.

Definition normalizeChatTasks (response : ChatResponse.t) : list ChatTask :=
  match ChatResponse.tasks response with
  | Some (task :: tasks) => omap normalizeTask (task :: tasks)
  | _ =>
      let thinkingTasks :=
        match ChatResponse.thinking response with
        | Some thinking =>
            if Js.truthyStr thinking && (0 <? String.length (Js.trim thinking))%nat
            then [ThinkingTask (Js.trim thinking)] else []
        | None => []
        end in
      let fallbackReplies :=
        trimNonEmpty (default [] (ChatResponse.replies response)
                      ++ (if Js.truthyStr (ChatResponse.content response)
                          then [ChatResponse.content response] else [])) in
      thinkingTasks ++ (if (0 <? length fallbackReplies)%nat
                         then [ReplyTask fallbackReplies] else [])
  end.

(** [QQMessageAdapter.formatReply] (src/core/qq-adapter.ts) *)
Definition formatReply (content : string) : string :=
  if (1000 <? Js.length content)%nat
  then Js.substringTo 997 content +:+ "..."
  else content.

Definition extractMessageIdsFromResult (result : QueueProcessResult.t) (st : t) : list string :=
  match QueueProcessResult.response result ≫= ChatResponse.messageIds with
  | Some ids => ids
  | None =>
      let ids := filter (fun i => Js.truthyStr i)
                   (map QueueMessageLog.messageId (QueueProcessResult.messages result)) in
      match ids with
      | _ :: _ => ids
      | [] => mapKeys (pendingReplies st)
      end
  end.

Definition getPendingRepliesForMessages (messageIds : list string) (st : t)
  : list (string * QQMessage.t) :=
  omap (fun messageId =>
          (fun entry => (messageId, qqMessage entry)) <$> mapGet (pendingReplies st) messageId)
       messageIds.

Definition mentionedUser (toolCalls : option (list ToolCallInfo.t)) (isGroup : bool)
  : option Z :=
  match toolCalls with
  | Some calls =>
      if isGroup then
        match find (fun call => String.eqb (ToolCallInfo.name call) "mention_user"
                                && bool_decide (ToolCallInfo.result_action call = Some "mention"))
                   calls with
        | Some mentionTool =>
            if truthyZ (ToolCallInfo.result_userId mentionTool)
            then ToolCallInfo.result_userId mentionTool else None
        | None => None
        end
      else None
  | None => None
  end.

Definition sendReply (ws : WsServer) (now : Z) (st : t) (m : QQMessage.t)
    (replyText : string) (pendingMessageId : string)
    (toolCalls : option (list ToolCallInfo.t))
  : t * list TaskPayload * Completion :=
  let isGroup := match QQMessage.message_type m with group => true | private => false end in
  let atUser := mentionedUser toolCalls isGroup in
  let target :=
    if isGroup && truthyZ (QQMessage.group_id m)
    then SendMessageTaskPayload.mkTarget None (QQMessage.group_id m) atUser
    else SendMessageTaskPayload.mkTarget (Some (QQMessage.user_id m)) None None in
  let payload :=
    SendMessageTaskPayload.mk target replyText (QQMessage.message_id m)
      (Some pendingMessageId) in
  let '(st1, enqueued, completion) := awaitEnqueue ws now (SendMessage payload) st in
  match completion with
  | Threw error =>
      (mk (taskQueue st1) (removePendingReply pendingMessageId (pendingReplies st1)),
       enqueued, Threw error)
  | _ => (st1, enqueued, completion)
  end.

Definition enqueueThinkingTask (ws : WsServer) (now : Z) (st : t) (content : string)
    (associatedMessageIds : list string) (contextId : option string)
    (aggregateReplies : list string)
  : t * list TaskPayload * Completion :=
  let payload :=
    StoreMemoryTaskPayload.mk content contextId associatedMessageIds aggregateReplies in
  let '(st1, enqueued, completion) := awaitEnqueue ws now (StoreMemory payload) st in
  match completion with
  | Threw _ => (st1, enqueued, Completed)
  | _ => (st1, enqueued, completion)
  end.

Definition collectRepliesFromTasks (tasks : list ChatTask) : list string :=
  trimNonEmpty
    (flat_map (fun task => match task with ReplyTask content => content | _ => [] end) tasks).

(** The inner loop of [enqueueChatTasks]: one [sendReply] per reply text.
    A reply whose [sendReply] throws is reported to the administrator and
    the loop goes on. *)
Fixpoint sendReplies (ws : WsServer) (now : Z) (st : t) (primary : string * QQMessage.t)
    (toolCalls : option (list ToolCallInfo.t)) (contents : list string)
  : t * list TaskPayload * Completion :=
  match contents with
  | [] => (st, [], Completed)
  | replyContent :: rest =>
      let replyText := formatReply replyContent in
      let '(st1, enqueued1, completion) :=
        sendReply ws now st primary.2 replyText primary.1 toolCalls in
      match completion with
      | Suspended => (st1, enqueued1, Suspended)
      | _ =>
          let '(st2, enqueued2, completion2) :=
            sendReplies ws now st1 primary toolCalls rest in
          (st2, enqueued1 ++ enqueued2, completion2)
      end
  end.

(** The outer loop of [enqueueChatTasks]. *)
Fixpoint enqueueTasks (ws : WsServer) (now : Z) (st : t)
    (primaryPending : option (string * QQMessage.t)) (associatedMessageIds : list string)
    (contextId : option string) (aggregateReplies : list string)
    (toolCalls : option (list ToolCallInfo.t)) (tasks : list ChatTask)
  : t * list TaskPayload * Completion :=
  match tasks with
  | [] => (st, [], Completed)
  | task :: rest =>
      let '(st1, enqueued1, completion) :=
        match task with
        | ThinkingTask content =>
            enqueueThinkingTask ws now st content associatedMessageIds contextId
              aggregateReplies
        | ReplyTask content =>
            match primaryPending with
            | None => (st, [], Completed)
            | Some primary => sendReplies ws now st primary toolCalls content
            end
        end in
      match completion with
      | Suspended => (st1, enqueued1, Suspended)
      | _ =>
          let '(st2, enqueued2, completion2) :=
            enqueueTasks ws now st1 primaryPending associatedMessageIds contextId
              aggregateReplies toolCalls rest in
          (st2, enqueued1 ++ enqueued2, completion2)
      end
  end.

Definition enqueueChatTasks (ws : WsServer) (now : Z) (st : t) (tasks : list ChatTask)
    (pending : list (string * QQMessage.t)) (response : ChatResponse.t)
    (contextId : option string)
  : t * list TaskPayload * Completion :=
  let primaryPending := last pending in
  let associatedMessageIds := map fst pending in
  let aggregateReplies := collectRepliesFromTasks tasks in
  let '(st1, enqueued, completion) :=
    enqueueTasks ws now st primaryPending associatedMessageIds contextId aggregateReplies
      (ChatResponse.toolCalls response) tasks in
  match completion with
  | Suspended => (st1, enqueued, Suspended)
  | _ =>
      let others :=
        match primaryPending with
        | Some primary =>
            if Js.truthyStr primary.1
            then filter (fun e => negb (String.eqb e.1 primary.1)) pending
            else []
        | None => []
        end in
      (mk (taskQueue st1)
          (fold_left (fun m e => removePendingReply e.1 m) others (pendingReplies st1)),
       enqueued, completion)
  end.

(** [handleQueueFlushResult]: the listener of [onQueueFlushed]. *)
Definition handleQueueFlushResult (ws : WsServer) (now : Z) (st : t)
    (result : QueueProcessResult.t)
  : t * list TaskPayload * Completion :=
  match QueueProcessResult.response result with
  | None => (st, [], Completed)
  | Some response =>
      if negb (QueueProcessResult.processed result)
         || default false (ChatResponse.skipReply response)
      then (st, [], Completed)
      else
        let chatTasks := normalizeChatTasks response in
        let messageIds := extractMessageIdsFromResult result st in
        let pending := getPendingRepliesForMessages messageIds st in
        match pending, chatTasks with
        | [], _ => (st, [], Completed)
        | _ :: _, [] =>
            (mk (taskQueue st)
                (fold_left (fun m e => removePendingReply e.1 m) pending (pendingReplies st)),
             [], Completed)
        | _ :: _, _ :: _ =>
            enqueueChatTasks ws now st chatTasks pending response
              (QueueProcessResult.contextId result)
        end
  end.

(** The [send_message] payloads among the tasks that entered the queue. *)
Definition sendMessages (enqueued : list TaskPayload) : list string :=
  omap (fun payload => match payload with
                       | SendMessage p => Some (SendMessageTaskPayload.message p)
                       | StoreMemory _ => None
                       end) enqueued.

(** The task queue has not been asked to stop and can take [send_message]
    tasks. *)
Definition ready (st : t) : Prop :=
  TaskQueue.running (taskQueue st)
  /\ TaskQueue.hasHandler (taskQueue st) send_message = true.

(** The reply texts of the reply tasks, in order. *)
Definition replyContents (tasks : list ChatTask) : list string :=
  flat_map (fun task => match task with ReplyTask content => content | _ => [] end) tasks.

(** The server as its constructor leaves it: both handlers registered. *)
Definition new : t :=
  mk (TaskQueue.registerHandler store_memory
        (TaskQueue.registerHandler send_message TaskQueue.new)) [].

End AgentServer.

(** ** [JSON.parse]

    The runtime's parser, after the JSON grammar (ECMA-404).  A number is
    kept as a decimal mantissa and exponent; an escape [\uXXXX] is stored as
    the UTF-8 bytes of its code unit. *)

Module Json.

#[warnings="-register-all"]
Inductive Value :=
| Null
| Bool (b : bool)
| Number (mantissa exponent : Z)
| Str (s : string)
| Array (elements : list Value)
| Object (members : list (string * Value)).

Definition isWs (c : ascii) : bool :=
  let n := nat_of_ascii c in ((n =? 32) || (n =? 9) || (n =? 10) || (n =? 13))%nat.

Fixpoint skipWs (s : string) : string :=
  match s with
  | String c r => if isWs c then skipWs r else s
  | EmptyString => s
  end.

Definition isDigit (c : ascii) : bool :=
  let n := nat_of_ascii c in ((48 <=? n) && (n <=? 57))%nat.

Definition digitVal (c : ascii) : Z := Z.of_nat (nat_of_ascii c - 48).

(** The longest run of digits at the head of [s], accumulated onto [acc]. *)
Fixpoint digits (s : string) (acc : Z) (count : nat) : Z * nat * string :=
  match s with
  | String c r => if isDigit c then digits r (acc * 10 + digitVal c) (S count) else (acc, count, s)
  | EmptyString => (acc, count, s)
  end.

Definition hexVal (c : ascii) : option nat :=
  let n := nat_of_ascii c in
  if ((48 <=? n) && (n <=? 57))%nat then Some (n - 48)%nat
  else if ((65 <=? n) && (n <=? 70))%nat then Some (n - 55)%nat
  else if ((97 <=? n) && (n <=? 102))%nat then Some (n - 87)%nat
  else None.

Definition encodeUtf8 (n : nat) : string :=
  if (n <? 128)%nat then String (ascii_of_nat n) EmptyString
  else if (n <? 2048)%nat then
    String (ascii_of_nat (192 + n / 64)) (String (ascii_of_nat (128 + n mod 64)) EmptyString)
  else
    String (ascii_of_nat (224 + n / 4096))
      (String (ascii_of_nat (128 + (n / 64) mod 64))
         (String (ascii_of_nat (128 + n mod 64)) EmptyString)).

Definition simpleEscape (c : ascii) : option ascii :=
  let n := nat_of_ascii c in
  if (n =? 34)%nat then Some c
  else if (n =? 92)%nat then Some c
  else if (n =? 47)%nat then Some c
  else if (n =? 98)%nat then Some (ascii_of_nat 8)
  else if (n =? 102)%nat then Some (ascii_of_nat 12)
  else if (n =? 110)%nat then Some (ascii_of_nat 10)
  else if (n =? 114)%nat then Some (ascii_of_nat 13)
  else if (n =? 116)%nat then Some (ascii_of_nat 9)
  else None.

(** The characters of a string literal after its opening quote. *)
Fixpoint stringBody (s : string) : option (string * string) :=
  match s with
  | EmptyString => None
  | String c r =>
      let n := nat_of_ascii c in
      if (n =? 34)%nat then Some (EmptyString, r)
      else if (n <? 32)%nat then None
      else if (n =? 92)%nat then
        match r with
        | String e r1 =>
            if (nat_of_ascii e =? 117)%nat then
              match r1 with
              | String h1 (String h2 (String h3 (String h4 r2))) =>
                  match hexVal h1, hexVal h2, hexVal h3, hexVal h4, stringBody r2 with
                  | Some a, Some b, Some c', Some d, Some (body, rest) =>
                      Some (encodeUtf8 (((a * 16 + b) * 16 + c') * 16 + d) +:+ body, rest)
                  | _, _, _, _, _ => None
                  end
              | _ => None
              end
            else
              match simpleEscape e, stringBody r1 with
              | Some c', Some (body, rest) => Some (String c' body, rest)
              | _, _ => None
              end
        | EmptyString => None
        end
      else
        match stringBody r with
        | Some (body, rest) => Some (String c body, rest)
        | None => None
        end
  end.

Definition isChar (n : nat) (c : ascii) : bool := (nat_of_ascii c =? n)%nat.

Definition parseNumber (s : string) : option (Value * string) :=
  let '(negative, s1) :=
    match s with
    | String c r => if isChar 45 c then (true, r) else (false, s)
    | EmptyString => (false, s)
    end in
  match s1 with
  | String c r =>
      if isDigit c then
        let '(intPart, _, s2) := if isChar 48 c then (0, 1%nat, r) else digits s1 0 0 in
        let fraction :=
          match s2 with
          | String d r2 =>
              if isChar 46 d then
                let '(m, count, s3) := digits r2 intPart 0 in
                if (count =? 0)%nat then None else Some (m, count, s3)
              else Some (intPart, 0%nat, s2)
          | EmptyString => Some (intPart, 0%nat, s2)
          end in
        match fraction with
        | None => None
        | Some (m, count, s3) =>
            let mantissa := if negative then - m else m in
            let noExponent := Some (Number mantissa (- Z.of_nat count), s3) in
            match s3 with
            | String e r3 =>
                if isChar 101 e || isChar 69 e then
                  let '(minus, s4) :=
                    match r3 with
                    | String sg r4 =>
                        if isChar 45 sg then (true, r4)
                        else if isChar 43 sg then (false, r4) else (false, r3)
                    | EmptyString => (false, r3)
                    end in
                  let '(x, xcount, s5) := digits s4 0 0 in
                  if (xcount =? 0)%nat then None
                  else Some (Number mantissa ((if minus then - x else x) - Z.of_nat count), s5)
                else noExponent
            | EmptyString => noExponent
            end
        end
      else None
  | EmptyString => None
  end.

(** The text after the prefix [word], if [s] starts with it. *)
Fixpoint dropPrefix (word s : string) : option string :=
  match word with
  | EmptyString => Some s
  | String a word' =>
      match s with
      | String b s' => if Ascii.eqb a b then dropPrefix word' s' else None
      | EmptyString => None
      end
  end.

Definition expect (word : string) (v : Value) (s : string) : option (Value * string) :=
  match dropPrefix word s with
  | Some rest => Some (v, rest)
  | None => None
  end.

Fixpoint parseValue (fuel : nat) (s : string) : option (Value * string) :=
  match fuel with
  | O => None
  | S fuel' =>
      match skipWs s with
      | EmptyString => None
      | String c r =>
          if isChar 110 c then expect "null" Null (String c r)
          else if isChar 116 c then expect "true" (Bool true) (String c r)
          else if isChar 102 c then expect "false" (Bool false) (String c r)
          else if isChar 34 c then
            match stringBody r with
            | Some (body, rest) => Some (Str body, rest)
            | None => None
            end
          else if isChar 91 c then
            match skipWs r with
            | String c' r' =>
                if isChar 93 c' then Some (Array [], r')
                else match parseElements fuel' r with
                     | Some (elements, rest) => Some (Array elements, rest)
                     | None => None
                     end
            | EmptyString => None
            end
          else if isChar 123 c then
            match skipWs r with
            | String c' r' =>
                if isChar 125 c' then Some (Object [], r')
                else match parseMembers fuel' r with
                     | Some (members, rest) => Some (Object members, rest)
                     | None => None
                     end
            | EmptyString => None
            end
          else parseNumber (String c r)
      end
  end
with parseElements (fuel : nat) (s : string) : option (list Value * string) :=
  match fuel with
  | O => None
  | S fuel' =>
      match parseValue fuel' s with
      | Some (v, r) =>
          match skipWs r with
          | String c r' =>
              if isChar 44 c then
                match parseElements fuel' r' with
                | Some (vs, rest) => Some (v :: vs, rest)
                | None => None
                end
              else if isChar 93 c then Some ([v], r')
              else None
          | EmptyString => None
          end
      | None => None
      end
  end
with parseMembers (fuel : nat) (s : string) : option (list (string * Value) * string) :=
  match fuel with
  | O => None
  | S fuel' =>
      match skipWs s with
      | String q r =>
          if isChar 34 q then
            match stringBody r with
            | Some (name, r1) =>
                match skipWs r1 with
                | String colon r2 =>
                    if isChar 58 colon then
                      match parseValue fuel' r2 with
                      | Some (v, r3) =>
                          match skipWs r3 with
                          | String c r4 =>
                              if isChar 44 c then
                                match parseMembers fuel' r4 with
                                | Some (ms, rest) => Some ((name, v) :: ms, rest)
                                | None => None
                                end
                              else if isChar 125 c then Some ([(name, v)], r4)
                              else None
                          | EmptyString => None
                          end
                      | None => None
                      end
                    else None
                | EmptyString => None
                end
            | None => None
            end
          else None
      | EmptyString => None
      end
  end.

(** [JSON.parse(s)]; [None] when it throws [SyntaxError].  Every call of
    the three parsers is preceded by the consumption of a character, so
    twice the length of the text bounds their number. *)
Definition parse (s : string) : option Value :=
  match parseValue (2 * String.length s + 2) s with
  | Some (v, rest) => match skipWs rest with EmptyString => Some v | _ => None end
  | None => None
  end.

(** A parser run with fuel [n]: what it consumes is non-empty, and twice
    the consumed length is fuel enough for the same result. *)
Definition adequate {A} (f : nat -> string -> option (A * string)) (n : nat) : Prop :=
  forall s v r, f n s = Some (v, r) ->
    (String.length r < String.length s)%nat
    /\ forall m, (2 * (String.length s - String.length r) <= m)%nat -> f m s = Some (v, r).

(** Property access [value.name] on a parsed value: [None] when it throws
    (on [null]), [Some None] for [undefined]. *)
Definition getField (v : Value) (name : string) : option (option Value) :=
  match v with
  | Null => None
  | Object members =>
      Some (fold_left (fun found m => if String.eqb m.1 name then Some m.2 else found)
              members None)
  | _ => Some None
  end.

(** The number [mantissa * 10 ^ exponent] is zero as a double: its decimal
    is zero, or it is at most [2 ^ -1075], half the least positive double,
    and rounds to zero. *)
Definition isZero (mantissa exponent : Z) : bool :=
  (mantissa =? 0)
  || (exponent <? 0) && (Z.abs mantissa * 2 ^ 1075 <=? 10 ^ (- exponent)).

(** Truthiness of a parsed value, [undefined] included. *)
Definition truthy (v : option Value) : bool :=
  match v with
  | None => false
  | Some Null => false
  | Some (Bool b) => b
  | Some (Number m e) => negb (isZero m e)
  | Some (Str s) => Js.truthyStr s
  | Some (Array _) => true
  | Some (Object _) => true
  end.

End Json.

(** ** LLM client: [GeminiClient] (src/ai/gemini-client.ts) *)

Module GeminiClient.

Definition MAX_RETRIES : nat := 3.

(** What one [generateContent] call of the remote model settles to. *)
Inductive BackendResult :=
| Generated (text : option string) (totalTokenCount : option Z)
| Failed (error : ApiKeyManager.JsError).

(** The remote model: the outcome of the call with the given number
    (counted from 0) and prompt. *)
Definition Backend := nat -> string -> BackendResult.

Record Parsed := mkParsed {
  messages : option (list Json.Value);
  thinking : option string;
  reason : option string
}.

Definition emptyParsed : Parsed := mkParsed None None None.

Inductive ToolCall :=
| reply_message (messages : list Json.Value) (thinking : option string)
| no_reply (reason : string) (thinking : option string).

Inductive Task :=
| reply (content : list Json.Value)
| thinkingNote (content : string).

(** The [ChatResponse] that [generateResponse] builds. *)
Record Response := mkResponse {
  content : Json.Value;
  tokensUsed : Z;
  response_thinking : string;
  skipReply : bool;
  replies : option (list Json.Value);
  tasks : list Task;
  toolCalls : list ToolCall
}.

Record t := mk {
  keyManager : ApiKeyManager.t;
  currentApiKey : string
}.

(** [replace(/^```json\n?/i, '')] *)
Definition stripFenceStart (s : string) : string :=
  if String.prefix "```json" (Js.toLowerCase (Js.substring0 7 s)) then
    match String.substring 7 (String.length s - 7) s with
    | String c r => if Json.isChar 10 c then r else String c r
    | EmptyString => EmptyString
    end
  else s.

(** [replace(/```\s*$/g, '')] *)
Fixpoint stripFenceEnd (s : string) : string :=
  match s with
  | EmptyString => EmptyString
  | String c r =>
      if String.prefix "```" s
         && Js.allWhiteSpace (String.substring 3 (String.length s - 3) s)
      then EmptyString
      else String c (stripFenceEnd r)
  end.

Definition cleanText (text : string) : string :=
  stripFenceEnd (stripFenceStart (Js.trim text)).

Definition asString (v : option Json.Value) : option string :=
  match v with Some (Json.Str s) => Some s | _ => None end.

(** The [try] block of [parseTextResponse]: [None] when it throws or
    falls through to the code after it. *)
Definition parseStructured (text : string) : option Parsed :=
  match Json.parse (cleanText text) with
  | None => None
  | Some parsed =>
      match Json.getField parsed "messages", Json.getField parsed "thinking",
            Json.getField parsed "reason" with
      | Some pMessages, Some pThinking, Some pReason =>
          if Json.truthy pMessages || Json.truthy pThinking || Json.truthy pReason then
            Some (mkParsed
                    match pMessages with
                    | Some (Json.Array l) => Some l
                    | Some (Json.Str s) => Some [Json.Str s]
                    | _ => None
                    end
                    (asString pThinking) (asString pReason))
          else None
      | _, _, _ => None
      end
  end.

Definition parseTextResponse (text : string) : Parsed :=
  if negb (Js.truthyStr text) then emptyParsed
  else
    match parseStructured text with
    | Some parsed => parsed
    | None =>
        if Js.truthyStr (Js.trim text)
        then mkParsed (Some [Json.Str (Js.trim text)]) None None
        else emptyParsed
    end.

Definition nonEmptyList {A} (o : option (list A)) : option (list A) :=
  match o with Some (x :: l) => Some (x :: l) | _ => None end.

Definition truthyOptStr (o : option string) : option string :=
  match o with Some s => if Js.truthyStr s then Some s else None | None => None end.

Section Client.

(** [estimateTokens] counts code points of the response text. *)
Variable estimateTokens : string -> Z.

(** [buildPromptWithThinking] assembles the prompt from the persona, which
    lives outside the core. *)
Variable buildPromptWithThinking : string -> option string -> string.

(** The body of the operation of [generateResponse], from the response of
    the model on. *)
Definition buildResponse (text : option string) (totalTokenCount : option Z) : Response :=
  let textResponse := default EmptyString text in
  let result := parseTextResponse textResponse in
  let thinking0 := default EmptyString (truthyOptStr (thinking result)) in
  let toolCalls :=
    match nonEmptyList (messages result) with
    | Some ms => [reply_message ms (thinking result)]
    | None =>
        match truthyOptStr (reason result) with
        | Some r => [no_reply r (thinking result)]
        | None =>
            if Js.truthyStr (Js.trim textResponse)
            then [reply_message [Json.Str textResponse] (Some "返回原始文本响应")]
            else []
        end
    end in
  let skip :=
    match nonEmptyList (messages result), truthyOptStr (reason result) with
    | None, Some _ => true
    | _, _ => false
    end in
  let thinking1 := if Js.truthyStr thinking0 then thinking0 else "处理用户请求中..." in
  let tokens :=
    match totalTokenCount with
    | Some n => if n =? 0 then estimateTokens textResponse else n
    | None => estimateTokens textResponse
    end in
  let tasks :=
    match nonEmptyList (messages result) with
    | Some ms => [reply ms]
    | None =>
        match truthyOptStr (reason result) with
        | Some r => [thinkingNote ("决定不回复：" +:+ r)]
        | None => []
        end
    end in
  mkResponse
    match nonEmptyList (messages result) with
    | Some (m :: _) => m
    | _ => Json.Str EmptyString
    end
    tokens thinking1 skip (nonEmptyList (messages result)) tasks toolCalls.

Definition shouldSwitchKey (error : ApiKeyManager.JsError) : bool :=
  if bool_decide (ApiKeyManager.status error = Some 429)
     || bool_decide (ApiKeyManager.code error = Some 429) then true
  else match ApiKeyManager.message error with
       | None => false
       | Some m =>
           Js.truthyStr m &&
           (Js.includes m "429"
            || Js.includes (Js.toLowerCase m) "rate limit"
            || Js.includes (Js.toLowerCase m) "quota exceeded"
            || Js.includes (Js.toLowerCase m) "api key"
            || Js.includes (Js.toLowerCase m) "invalid key")
       end.

Definition switchApiKey (now : Z) (st : t) : t :=
  let '(key, km) := ApiKeyManager.getCurrentApiKey now (keyManager st) in
  mk km key.

(** [executeWithRetry] around the operation of [generateResponse]:
    [attempts] more attempts, the next call of the model having number
    [call].  The result, the prompts sent to the model in order, and the
    state of the client. *)
Fixpoint executeWithRetry (backend : Backend) (clock : nat -> Z) (fullPrompt : string)
    (attempts : nat) (call : nat) (lastError : option ApiKeyManager.JsError) (st : t)
  : (Response + option ApiKeyManager.JsError) * list string * t :=
  match attempts with
  | O =>
      (* the error log reads [keyManager.getStatus()], which sweeps the
         blocks and moves the cursor as [getCurrentApiKey] does *)
      (inr lastError, [],
       mk (ApiKeyManager.getCurrentApiKey (clock call) (keyManager st)).2 (currentApiKey st))
  | S attempts' =>
      match backend call fullPrompt with
      | Generated text totalTokenCount =>
          (inl (buildResponse text totalTokenCount), [fullPrompt], st)
      | Failed error =>
          let km := ApiKeyManager.recordError (clock call) (currentApiKey st) (Some error)
                      (keyManager st) in
          let st1 := mk km (currentApiKey st) in
          let st2 := if shouldSwitchKey error then switchApiKey (clock call) st1 else st1 in
          let '(result, prompts, st3) :=
            executeWithRetry backend clock fullPrompt attempts' (S call) (Some error) st2 in
          (result, fullPrompt :: prompts, st3)
      end
  end.

Definition generateResponse (backend : Backend) (clock : nat -> Z)
    (prompt : string) (context : option string) (st : t)
  : (Response + option ApiKeyManager.JsError) * list string * t :=
  executeWithRetry backend clock (buildPromptWithThinking prompt context)
    MAX_RETRIES 0 None st.

End Client.

(** [forceKeySwitch()]: the error when it throws, and the client. *)
Definition forceKeySwitch (now : Z) (st : t) : option string * t :=
  let oldKey := currentApiKey st in
  let '(newKey, km) := ApiKeyManager.switchToNext now (keyManager st) in
  if String.eqb oldKey newKey
  then (Some "没有其他可用的API Key可以切换", mk km oldKey)
  else (None, mk km newKey).

End GeminiClient.

(** ** Conversation history: [MessageHandler] (src/core/message-handler.ts) *)

Module MessageHandler.

Record t := mk {
  conversations : gmap string (list Message.t)
}.

Definition new : t := mk ∅.

(** [a || b] for a [string | undefined] on the left. *)
Definition orElse (a : option string) (b : string) : string :=
  match a with
  | Some s => if Js.truthyStr s then s else b
  | None => b
  end.

(** [message.groupId || message.conversationId || message.userId] *)
Definition conversationKeyOf (message : Message.t) : string :=
  orElse (Message.groupId message)
         (orElse (Message.conversationId message) (Message.userId message)).

(** The message as [addMessage] leaves it: a missing [conversationId] is
    set to the key of the conversation. *)
Definition withConversationId (message : Message.t) : Message.t :=
  if MessageQueueManager.truthyOpt (Message.conversationId message) then message
  else Message.mk (Message.id message) (Message.userId message) (Message.userName message)
                  (Message.groupId message) (Some (conversationKeyOf message))
                  (Message.content message) (Message.timestamp message)
                  (Message.type message).

Definition addMessage (message : Message.t) (h : t) : t :=
  let conversationKey := conversationKeyOf message in
  let message := withConversationId message in
  let known := if decide (is_Some (conversations h !! conversationKey)) then conversations h
               else <[conversationKey := []]> (conversations h) in
  let conversation := default [] (known !! conversationKey) ++ [message] in
  let conversation := if (100 <? length conversation)%nat then tail conversation
                      else conversation in
  mk (<[conversationKey := conversation]> known).

Definition getConversation (userId : string) (groupId : option string) (h : t)
  : list Message.t :=
  default [] (conversations h !! orElse groupId userId).

(** [createMessage] at the instant [now]. *)
Definition createMessage (now : Z) (userId content : string) (groupId userName : option string)
    (conversationId : option string) : Message.t :=
  let trimmedContent := Js.trim content in
  let resolvedConversationId := orElse conversationId (orElse groupId userId) in
  Message.mk (pretty now) userId userName groupId (Some resolvedConversationId)
             trimmedContent now
             (if Js.startsWith trimmedContent "/" then MessageType.command
              else MessageType.text).

End MessageHandler.

(** ** Batch processor: [BatchMessageProcessor]
    (src/core/batch-message-processor.ts) *)

Module BatchMessageProcessor.

(** The message that [addMessagesToHistory] files for a queued one. *)
Definition historyMessage (now : Z) (queuedMessage : QueuedMessage.t) : Message.t :=
  let message :=
    MessageHandler.createMessage now (QueuedMessage.userId queuedMessage)
      (QueuedMessage.content queuedMessage) (QueuedMessage.groupId queuedMessage)
      (QueuedMessage.userName queuedMessage) None in
  Message.mk (QueuedMessage.messageId queuedMessage) (Message.userId message)
             (Message.userName message) (Message.groupId message)
             (Message.conversationId message) (Message.content message)
             (QueuedMessage.timestamp queuedMessage * 1000) (Message.type message).

Definition addMessagesToHistory (now : Z) (messages : list QueuedMessage.t)
    (h : MessageHandler.t) : MessageHandler.t :=
  fold_left (fun h queuedMessage =>
               MessageHandler.addMessage (historyMessage now queuedMessage) h)
            messages h.

(** [getTimespan]: the guard keeps [Math.max] and [Math.min] away from the
    empty list. *)
Definition getTimespan (messages : list QueuedMessage.t) : Z :=
  match QueuedMessage.timestamp <$> messages with
  | [] | [_] => 0
  | t :: timestamps => fold_left Z.max timestamps t - fold_left Z.min timestamps t
  end.

(** [response.replies ?? (response.content ? [response.content] : [])] *)
Definition repliesOf (response : ChatResponse.t) : list string :=
  match ChatResponse.replies response with
  | Some replies => replies
  | None => if Js.truthyStr (ChatResponse.content response)
            then [ChatResponse.content response] else []
  end.

(** The message that records the first reply of the model. *)
Definition aiMessage (botId : string) (now : Z) (latestMessage : QueuedMessage.t)
    (reply : string) : Message.t :=
  MessageHandler.createMessage now
    (if Js.truthyStr botId then botId else "assistant") reply
    (QueuedMessage.groupId latestMessage) (Some "AI助手")
    (Some (MessageHandler.orElse (QueuedMessage.groupId latestMessage)
                                 (QueuedMessage.userId latestMessage))).

(** [processMessages] up to the call of the model: the response when it
    returns early, and the history.  [groupChatActive] is what
    [botStateManager.isGroupChatActive()] answers. *)
Definition processMessages_begin (groupChatActive : bool) (now : Z)
    (messages : list QueuedMessage.t) (h : MessageHandler.t)
  : option ChatResponse.t * MessageHandler.t :=
  match messages with
  | [] => (Some (ChatResponse.mk EmptyString now None (Some true) None None None None None), h)
  | _ =>
      let h := addMessagesToHistory now messages h in
      let groupId :=
        find (fun m => MessageQueueManager.truthyOpt (QueuedMessage.groupId m)) messages
          ≫= QueuedMessage.groupId in
      if MessageQueueManager.truthyOpt groupId && negb groupChatActive
      then (Some (ChatResponse.mk EmptyString now (Some 0) (Some true)
                                  None None None None None), h)
      else (None, h)
  end.

(** [processMessages] after the model answered with [response]: [None]
    stands for the [TypeError] of an empty batch, which [processMessages]
    never brings here. *)
Definition processMessages_end (botId : string) (now : Z)
    (messages : list QueuedMessage.t) (response : ChatResponse.t) (h : MessageHandler.t)
  : option (ChatResponse.t * MessageHandler.t) :=
  match last messages with
  | None => None
  | Some latestMessage =>
      let h := match repliesOf response with
               | reply :: _ =>
                   MessageHandler.addMessage (aiMessage botId now latestMessage reply) h
               | [] => h
               end in
      Some (ChatResponse.mk (ChatResponse.content response) (ChatResponse.timestamp response)
              (ChatResponse.tokensUsed response) (ChatResponse.skipReply response)
              (ChatResponse.thinking response) (ChatResponse.replies response)
              (Some (QueuedMessage.messageId <$> messages))
              (ChatResponse.tasks response) (ChatResponse.toolCalls response),
            h)
  end.

End BatchMessageProcessor.

(** ** Concrete configurations and states for the examples *)

Module Examples.

(** The stamina configuration with the defaults of the source. *)
Definition staminaConfig : StaminaManager.StaminaConfig :=
  StaminaManager.mkConfig 100 10 (33 # 100) 1000 30 10 false 1 1 (1 # 2) (1 # 10) (4 # 10).

Definition freshStamina : StaminaManager.t := StaminaManager.new staminaConfig 0.

(** A pool of two credentials and an HTTP 429 failure. *)
Definition twoKeys : ApiKeyManager.t := ApiKeyManager.initializeKeys ["key-A"; "key-B"].

Definition http429 : option ApiKeyManager.JsError :=
  Some (ApiKeyManager.mkError (Some 429) None None).

Definition t0 : Z := 1700000000000.

Definition minutes (m : Z) : Z := m * 60000.

(** Five rate-limit failures of the first credential, four minutes apart. *)
Definition spreadErrors : ApiKeyManager.t :=
  fold_left (fun st m => ApiKeyManager.recordError (t0 + minutes m) "key-A" http429 st)
            [0; 4; 8; 12; 16] twoKeys.

(** The same five failures in the window model of the specification. *)
Definition spreadErrorsSpec : CredentialSpec.t :=
  fold_left (fun c m => CredentialSpec.reportRateLimit (t0 + minutes m) c)
            [0; 4; 8; 12; 16] CredentialSpec.healthy.

(** The first credential blocked at [t0], the second one healthy. *)
Definition oneBlocked : ApiKeyManager.t :=
  ApiKeyManager.blockApiKey t0 "key-A" twoKeys.

(** Both credentials blocked, the second one earlier than the first. *)
Definition allBlocked : ApiKeyManager.t :=
  ApiKeyManager.blockApiKey (t0 + minutes 2) "key-A"
    (ApiKeyManager.blockApiKey t0 "key-B" twoKeys).

(** The queue of one group chat. *)
Definition queueConfig : QueueConfig.t := QueueConfig.mk "FingerBot" 8 10 30.

Definition groupMessage (id content : string) : Message.t :=
  Message.mk id "10001" (Some "alice") (Some "42") None content t0 MessageType.text.

Definition okProcessor : MessageQueueManager.Processor :=
  fun _ => MessageQueueManager.Fulfilled
             (ChatResponse.mk "ok" t0 None None None None None None None).

(** Stamina forced to 5 of 100 by the administrator. *)
Definition lowStamina : StaminaManager.t := StaminaManager.setStamina 5 freshStamina.

(** Stamina at 5 of 100 and rest mode on: no reply allowed, level critical. *)
Definition restingStamina : StaminaManager.t := StaminaManager.setRestMode true lowStamina.

(** A flush of the group's queue is under way (message [m1] is with the
    processor) when rest mode is switched on and message [m2] arrives. *)
Definition busyCritical : MessageQueueManager.t :=
  let s0 := MessageQueueManager.new queueConfig lowStamina in
  let s1 := (MessageQueueManager.addMessage (H := intPow) okProcessor t0 s0
               (groupMessage "m1" "hello")).1 in
  let s2 := (MessageQueueManager.flushQueue_begin (H := intPow) s1 "group_42" silence_trigger).1 in
  let s3 := MessageQueueManager.mk (MessageQueueManager.queueConfig s2)
              (MessageQueueManager.queues s2) (MessageQueueManager.processingContexts s2)
              (MessageQueueManager.totalProcessed s2) (MessageQueueManager.lastFlushTime s2)
              (MessageQueueManager.lastFlushReason s2) restingStamina in
  (MessageQueueManager.addMessage (H := intPow) okProcessor (t0 + 1000) s3
     (groupMessage "m2" "anyone there?")).1.

(** An idle manager with rest mode on and stamina critical. *)
Definition idleCritical : MessageQueueManager.t :=
  (MessageQueueManager.addMessage (H := intPow) okProcessor t0
     (MessageQueueManager.new queueConfig restingStamina) (groupMessage "m1" "hello")).1.

(** An idle manager at full stamina. *)
Definition idleFresh : MessageQueueManager.t :=
  MessageQueueManager.new queueConfig freshStamina.

(** One message of the group waits in its queue, at full stamina; the
    same in rest mode; and the first while its flush is with the
    processor. *)
Definition oneQueued : MessageQueueManager.t :=
  (MessageQueueManager.addMessage (H := intPow) okProcessor t0 idleFresh
     (groupMessage "m1" "hello")).1.

Definition restingFull : StaminaManager.t := StaminaManager.setRestMode true freshStamina.

Definition oneQueuedResting : MessageQueueManager.t :=
  (MessageQueueManager.addMessage (H := intPow) okProcessor t0
     (MessageQueueManager.new queueConfig restingFull) (groupMessage "m1" "hello")).1.

Definition busyFresh : MessageQueueManager.t :=
  (MessageQueueManager.flushQueue_begin (H := intPow) oneQueued "group_42" silence_trigger).1.

(** A processor whose call is rejected, and a queue that holds one
    message at most. *)
(** Texts outside ASCII: [n] ideographs, and a JSON reply behind a
    byte-order mark. *)
Definition han (n : nat) : string := fold_right String.append EmptyString (repeat "你" n).

Definition quoted (s : string) : string := String "034" (s +:+ String "034" EmptyString).

Definition jsonBehindMark : string :=
  String "239" (String "187" (String "191"
    ("{" +:+ quoted "messages" +:+ ":[" +:+ quoted "hi" +:+ "]}"))).

(** A queued message of the group chat, and an answer of the model to it. *)
Definition queuedHello : QueuedMessage.t :=
  MessageQueueManager.convertToQueuedMessage queueConfig t0 (groupMessage "m1" "hello")
    "group_42".

Definition helloReply : ChatResponse.t :=
  ChatResponse.mk "hi there" t0 (Some 12) None None (Some ["hi there"]) None None None.

Definition failingProcessor : MessageQueueManager.Processor :=
  fun _ => MessageQueueManager.Rejected "model unavailable".

Definition tinyConfig : QueueConfig.t := QueueConfig.mk "FingerBot" 8 1 30.

(** A task queue with both handlers, and the payload of a reply to the
    group. *)
Definition readyQueue : TaskQueue.t :=
  TaskQueue.registerHandler store_memory
    (TaskQueue.registerHandler send_message TaskQueue.new).

Definition sendPayload (message : string) : TaskPayload :=
  SendMessage (SendMessageTaskPayload.mk
                 (SendMessageTaskPayload.mkTarget None (Some 42) None) message 7 (Some "m1")).

(** A handler that always returns. *)
Definition returns : TaskQueue.Handler unit := fun _ u => (None, u).

(** A handler that always throws. *)
Definition throws : TaskQueue.Handler unit := fun _ u => (Some "boom", u).

(** The task "first" is with its handler, the task "second" waits. *)
Definition busyQueue : TaskQueue.t :=
  match TaskQueue.enqueue t0 (sendPayload "first") TaskOptions.none readyQueue with
  | Some (_, q1) =>
      match TaskQueue.enqueue t0 (sendPayload "second") TaskOptions.none q1 with
      | Some (_, q2) => q2
      | None => q1
      end
  | None => readyQueue
  end.

(** The server with one pending inbound event of the group, and the
    result of a processed batch whose decision replies with [messages]. *)
Definition inbound : QQMessage.t := QQMessage.mk 7 group (Some 42) 10001.

Definition readyServer : AgentServer.t :=
  AgentServer.addToPendingReplies t0 "m1" inbound AgentServer.new.

Definition stoppedServer : AgentServer.t :=
  AgentServer.mk (TaskQueue.requestStop (AgentServer.taskQueue readyServer))
    (AgentServer.pendingReplies readyServer).

Definition replyResult (messages : list string) : QueueProcessResult.t :=
  QueueProcessResult.mk true 1
    (Some (ChatResponse.mk (default EmptyString (head messages)) t0 (Some 12) (Some false)
             (Some "thinking") (Some messages) (Some ["m1"])
             (Some [ReplyTask messages]) None))
    None silence_trigger [] (Some "group_42").

Definition connected : AgentServer.WsServer := fun _ _ => true.

(** A client on the two-key pool, a prompt builder and a token estimate,
    and a model that answers "not-json" to the first call and
    "still-not-json" to any later one. *)
Definition client : GeminiClient.t := GeminiClient.mk twoKeys "key-A".

(** A client whose key is the one under the cursor of the pool in which
    the first credential is blocked. *)
Definition blockedClient : GeminiClient.t := GeminiClient.mk oneBlocked "key-B".

Definition promptOf : string -> option string -> string :=
  fun userMessage context => "system: " +:+ userMessage +:+ default EmptyString context.

Definition tokensOf : string -> Z := fun text => Z.of_nat (String.length text).

Definition notJsonBackend : GeminiClient.Backend :=
  fun call _ =>
    match call with
    | O => GeminiClient.Generated (Some "not-json") None
    | S _ => GeminiClient.Generated (Some "still-not-json") None
    end.

Definition clock : nat -> Z := fun call => t0 + Z.of_nat call * 1000.

End Examples.

(** * Properties *)

(** ** JavaScript string primitives *)

Module JsFacts.

Lemma N_of_ascii_bound (c : ascii) : (N_of_ascii c < 256)%N.
Proof. destruct c as [[] [] [] [] [] [] [] []]; vm_compute; reflexivity. Qed.

Lemma length_append (a b : string) : Js.length (a +:+ b) = (Js.length a + Js.length b)%nat.
Proof.
  induction a as [| c a IH]; [reflexivity |].
  change (String c a +:+ b) with (String c (a +:+ b)).
  cbn [Js.length]. rewrite IH. lia.
Qed.

Lemma codeUnitsAt_lead (n : N) :
  (224 <= n < 240)%N -> Js.codeUnitsAt (ascii_of_N n) = 1%nat.
Proof.
  intros Hn. unfold Js.codeUnitsAt, Js.isContinuation.
  rewrite N_ascii_embedding by lia.
  destruct (N.leb_spec 128 n); [| lia].
  destruct (N.ltb_spec n 192); [lia |]. cbn.
  destruct (N.leb_spec 240 n); [lia | reflexivity].
Qed.

Lemma codeUnitsAt_continuation (n : N) :
  (128 <= n < 192)%N -> Js.codeUnitsAt (ascii_of_N n) = 0%nat.
Proof.
  intros Hn. unfold Js.codeUnitsAt, Js.isContinuation.
  rewrite N_ascii_embedding by lia.
  destruct (N.leb_spec 128 n); [| lia].
  destruct (N.ltb_spec n 192); [reflexivity | lia].
Qed.

Lemma length_highSurrogate (c1 c2 c3 : ascii) :
  Js.length (Js.highSurrogate c1 c2 c3) = 1%nat.
Proof.
  unfold Js.highSurrogate. cbv zeta.
  pose proof (N_of_ascii_bound c1). pose proof (N_of_ascii_bound c2).
  pose proof (N_of_ascii_bound c3).
  set (q := (((N_of_ascii c1 - 240) * 4096 + (N_of_ascii c2 - 128) * 64
              + (N_of_ascii c3 - 128)) / 16)%N).
  assert (Hq : (q < 6208)%N).
  { subst q. apply N.Div0.div_lt_upper_bound. lia. }
  set (unit := (55232 + q)%N).
  assert (Hunit : (55232 <= unit < 61440)%N) by (subst unit; lia).
  clearbody unit. clear Hq. clearbody q.
  cbn [Js.length].
  assert (H4096 : (13 <= unit / 4096 < 15)%N).
  { split; [apply N.div_le_lower_bound; lia | apply N.Div0.div_lt_upper_bound; lia]. }
  pose proof (N.mod_lt unit 64 ltac:(lia)) as Hlow.
  pose proof (N.mod_lt (unit / 64) 64 ltac:(lia)) as Hmid.
  set (a := (unit / 4096)%N) in *. set (b := (unit mod 64)%N) in *.
  set (c := ((unit / 64) mod 64)%N) in *. clearbody a b c.
  rewrite codeUnitsAt_lead by lia.
  rewrite !codeUnitsAt_continuation by lia. reflexivity.
Qed.

Lemma length_substringTo (n : nat) (s : string) :
  (Js.length (Js.substringTo n s) <= n)%nat.
Proof.
  revert n. induction s as [| c s IH]; intros n; [cbn; lia |].
  cbn [Js.substringTo].
  destruct (Js.codeUnitsAt c) as [| [| k]] eqn:Hc.
  - cbn [Js.length]. rewrite Hc. apply IH.
  - destruct n as [| n]; [cbn; lia |].
    cbn [Js.length]. rewrite Hc. specialize (IH n). lia.
  - destruct n as [| [| n]]; [cbn; lia | |].
    + destruct s as [| c2 [| c3 s]]; [cbn; lia | cbn; lia |].
      rewrite length_highSurrogate. lia.
    + cbn [Js.length]. rewrite Hc. specialize (IH n).
      assert (k = 0%nat); [| lia].
      unfold Js.codeUnitsAt in Hc. repeat case_match; congruence.
Qed.

Lemma substringTo_all (n : nat) (s : string) :
  (Js.length s <= n)%nat -> Js.substringTo n s = s.
Proof.
  revert n. induction s as [| c s IH]; intros n Hn; [reflexivity |].
  cbn [Js.substringTo Js.length] in *.
  destruct (Js.codeUnitsAt c) as [| [| k]] eqn:Hc.
  - rewrite IH by lia. reflexivity.
  - destruct n as [| n]; [lia |]. rewrite IH by lia. reflexivity.
  - destruct n as [| [| n]]; [lia | lia |]. rewrite IH by lia. reflexivity.
Qed.

(** The ideographic space and the byte-order mark are trimmed, a
    non-breaking space between words is not. *)
Example trim_unicode :
  Js.trim "　你 好　" = "你 好"
  /\ Js.trim (String "239" (String "187" (String "191" "{}"))) = "{}"
  /\ Js.trim "　" = EmptyString.
Proof. repeat split; vm_compute; reflexivity. Qed.

(** A character of the basic plane counts once, whatever its bytes; one
    outside it counts twice and is cut to its high surrogate. *)
Example length_unicode :
  Js.length "你好" = 2%nat /\ Js.length "a😀" = 3%nat
  /\ Js.substringTo 1 "你好" = "你"
  /\ Js.substringTo 2 "a😀" = String "a" (String "237" (String "160" (String "189" EmptyString))).
Proof. repeat split; vm_compute; reflexivity. Qed.

(** A reply or a log preview of ideographs is measured in characters, not
    in bytes: 400 of them pass [formatReply] and 30 pass [truncateContent]
    untouched, 1001 are cut to 997 and three dots. *)
Example cut_unicode :
  AgentServer.formatReply (Examples.han 400) = Examples.han 400
  /\ AgentServer.formatReply (Examples.han 1001) = Examples.han 997 +:+ "..."
  /\ MessageQueueManager.truncateContent (Examples.han 30) = Examples.han 30
  /\ MessageQueueManager.truncateContent (Examples.han 81) = Examples.han 80 +:+ "...".
Proof. repeat split; vm_compute; reflexivity. Qed.

(** A reply of ideographic space only is dropped by [normalizeChatTasks];
    a response of such space only is blank to [parseTextResponse], and JSON
    behind a byte-order mark is parsed. *)
Example blank_unicode :
  AgentServer.trimNonEmpty ["　"; "b"] = ["b"]
  /\ GeminiClient.parseTextResponse "　　" = GeminiClient.emptyParsed
  /\ GeminiClient.parseTextResponse Examples.jsonBehindMark
     = GeminiClient.mkParsed (Some [Json.Str "hi"]) None None.
Proof. repeat split; vm_compute; reflexivity. Qed.

(** A number that underflows to zero is falsy. *)
Example underflow_is_falsy :
  Json.truthy (Json.parse "1e-999") = false /\ Json.truthy (Json.parse "2e-324") = false
  /\ Json.truthy (Json.parse "5e-324") = true.
Proof. repeat split; vm_compute; reflexivity. Qed.

End JsFacts.

(** ** Stamina controller *)

Module StaminaFacts.

Import StaminaManager.
Local Open Scope Q_scope.

Section WithPow.
Context `{MathPow}.

Lemma Qmax0_nonneg (x : Q) : 0 <= Qmax 0 x.
Proof. apply Q.le_max_l. Qed.

Lemma clamp_bounds (x m : Q) : 0 <= m -> 0 <= Qmax 0 (Qmin x m) /\ Qmax 0 (Qmin x m) <= m.
Proof.
  intros Hm. split.
  - apply Q.le_max_l.
  - apply Q.max_lub; [exact Hm | apply Q.le_min_r].
Qed.

Lemma clamp_bounds' (x m : Q) : 0 <= m -> 0 <= Qmax 0 (Qmin m x) /\ Qmax 0 (Qmin m x) <= m.
Proof.
  intros Hm. split.
  - apply Q.le_max_l.
  - apply Q.max_lub; [exact Hm | apply Q.le_min_l].
Qed.

Lemma in_bounds_max (s : t) : in_bounds s -> 0 <= maxStamina (config s).
Proof. intros (H0 & H1 & _). eapply Qle_trans; eassumption. Qed.

Lemma update_config (i dt : Q) (s : t) : config (update i dt s) = config s.
Proof. unfold update. destruct (restMode (config s)); reflexivity. Qed.

Lemma update_in_bounds (i dt : Q) (s : t) : in_bounds s -> in_bounds (update i dt s).
Proof.
  intros Hs. pose proof (in_bounds_max s Hs) as Hm.
  destruct Hs as (H0 & H1 & H2).
  unfold in_bounds. rewrite update_config.
  unfold update. destruct (restMode (config s)); cbn.
  - repeat split; [assumption | assumption | apply Qmax0_nonneg].
  - destruct (clamp_bounds
                (currentStamina s - k (config s) * Math_pow i (p (config s)) * dt
                 + (regenRate (config s)
                    * (1 - (currentStamina s - k (config s) * Math_pow i (p (config s)) * dt)
                           / maxStamina (config s))
                    - gamma (config s)
                      * Qmax 0 (momentum s * (1 - beta (config s) * dt)
                                + alpha (config s) * i * dt)) * dt)
                (maxStamina (config s)) Hm) as [Ha Hb].
    repeat split; [exact Ha | exact Hb | apply Qmax0_nonneg].
Qed.

Lemma restamp_in_bounds (s : t) (now last : Z) (r : Q) :
  in_bounds s ->
  in_bounds (mk (config s) (currentStamina s) (momentum s) now last r).
Proof. intros Hs. exact Hs. Qed.

(** Every operation on the stamina state keeps an in-bounds state in
    bounds. *)
Lemma run_in_bounds (o : Op) (s : t) : in_bounds s -> in_bounds (run o s).
Proof.
  intros Hs. destruct o as [now | n now | v | b | i dt]; cbn.
  - unfold tick. apply update_in_bounds. exact Hs.
  - unfold consumeStamina. destruct (restMode (config s)); cbn; [exact Hs |].
    set (s1 := mk (config s) (currentStamina s) (momentum s) now
                  (lastReplyTime s) (lastNetRecovery s)).
    assert (Hs1 : in_bounds s1) by exact Hs.
    set (s2 := if Qle_bool _ _ then s1 else _).
    assert (Hs2 : in_bounds s2).
    { subst s2. destruct (Qle_bool _ _); [exact Hs1 | apply update_in_bounds, Hs1]. }
    pose proof (update_in_bounds (inject_Z n) 1 s2 Hs2) as Hs3.
    exact Hs3.
  - pose proof (in_bounds_max s Hs) as Hm.
    destruct Hs as (H0 & H1 & H2).
    destruct (clamp_bounds' v (maxStamina (config s)) Hm) as [Ha Hb].
    unfold in_bounds, setStamina; cbn. repeat split; assumption.
  - exact Hs.
  - apply update_in_bounds, Hs.
Qed.

Lemma runAll_in_bounds (ops : list Op) (s : t) : in_bounds s -> in_bounds (runAll ops s).
Proof.
  revert s. induction ops as [| o ops IH]; intros s Hs; cbn; [exact Hs |].
  apply IH, run_in_bounds, Hs.
Qed.

Lemma new_in_bounds (c : StaminaConfig) (now : Z) :
  0 <= maxStamina c -> in_bounds (new c now).
Proof.
  intros Hm. unfold in_bounds, new; cbn. repeat split; [exact Hm | apply Qle_refl | apply Qle_refl].
Qed.

(** C7.  The stamina state satisfies [0 <= current <= S_max] and
    [0 <= momentum]: for a positive [S_max] the state the constructor
    builds is in bounds, every operation (the background tick with
    intensity 0, [consumeStamina], [setStamina], [setRestMode], an update
    step in or out of rest mode) takes an in-bounds state to an in-bounds
    state, and so the bounds hold before and after each operation of any
    history. *)
Theorem stamina_bounds_invariant (c : StaminaConfig) (now : Z) :
  0 < maxStamina c ->
  in_bounds (new c now)
  /\ (forall (s : t) (o : Op),
        0 < maxStamina (config s) -> in_bounds s -> in_bounds (run o s))
  /\ (forall (ops : list Op) (o : Op),
        in_bounds (runAll ops (new c now))
        /\ in_bounds (run o (runAll ops (new c now)))).
Proof.
  intros Hm. assert (Hm' : 0 <= maxStamina c) by (apply Qlt_le_weak, Hm).
  split; [apply new_in_bounds, Hm' |]. split.
  - intros s o _. apply run_in_bounds.
  - intros ops o.
    assert (Hb : in_bounds (runAll ops (new c now)))
      by (apply runAll_in_bounds, new_in_bounds, Hm').
    split; [exact Hb | apply run_in_bounds, Hb].
Qed.

Lemma Qmax_compat_r (a x y : Q) : x == y -> Qmax a x == Qmax a y.
Proof. intros E. rewrite E. reflexivity. Qed.

Lemma Qmin_compat_l (a x y : Q) : x == y -> Qmin x a == Qmin y a.
Proof. intros E. rewrite E. reflexivity. Qed.

(** C2, amended.  Outside rest mode an update step with intensity [i]
    over [dt] seconds computes, in order: the momentum
    [max(0, momentum(1 - beta dt) + alpha i dt)]; the consumption
    [k i^p dt]; the recovery [(r (1 - current'/S_max) - gamma momentum) dt]
    in which [current'] is the stamina after this step's consumption has
    been subtracted and the momentum is the new one; and the stamina
    [clamp(current - consume + recover, 0, S_max)].  It agrees with the
    formula that reads the stamina from before the consumption whenever
    the consumption is zero, as in the background tick. *)
Theorem update_formula (s : t) (i dt : Q) :
  restMode (config s) = false ->
  momentum (update i dt s) = momentumOf s i dt
  /\ currentStamina (update i dt s)
     = Qmax 0 (Qmin (currentStamina s - consumeOf s i dt
                     + recoverOf s i dt (currentStamina s - consumeOf s i dt))
                    (maxStamina (config s)))
  /\ lastNetRecovery (update i dt s)
     = recoverOf s i dt (currentStamina s - consumeOf s i dt)
  /\ (consumeOf s i dt == 0 ->
      currentStamina (update i dt s) == currentStamina (update_spec i dt s)).
Proof.
  intros Hrest. unfold update. rewrite Hrest. cbn.
  split; [reflexivity |]. split; [reflexivity |]. split; [reflexivity |].
  intros Hc. unfold update_spec, recoverOf, momentumOf, consumeOf in *. cbn.
  apply Qmax_compat_r, Qmin_compat_l.
  rewrite Hc.
  assert (E : currentStamina s - 0 == currentStamina s) by ring.
  rewrite !E. reflexivity.
Qed.

End WithPow.

(** The code and the formula of the specification part where a step
    consumes: from full stamina, one message over one second. *)
Lemma update_differs_from_spec :
  ~ (currentStamina (update (H := intPow) 1 1 Examples.freshStamina)
     == currentStamina (update_spec (H := intPow) 1 1 Examples.freshStamina)).
Proof. vm_compute. discriminate. Qed.

Lemma update_formula_witness :
  restMode (config Examples.freshStamina) = false
  /\ currentStamina (update (H := intPow) 1 1 Examples.freshStamina) == 988033 # 10000.
Proof.
  split; [reflexivity |].
  destruct (update_formula (H := intPow) Examples.freshStamina 1 1 eq_refl) as (_ & -> & _).
  vm_compute. reflexivity.
Defined.

Lemma stamina_bounds_invariant_witness :
  in_bounds (run (H := intPow) (OpConsume 3 2500) Examples.freshStamina).
Proof.
  assert (Hm : 0 < maxStamina Examples.staminaConfig) by reflexivity.
  destruct (stamina_bounds_invariant (H := intPow) Examples.staminaConfig 0 Hm) as (_ & _ & Hall).
  exact (proj2 (Hall [] (OpConsume 3 2500))).
Defined.

End StaminaFacts.

(** ** Credential pool *)

Module ApiKeyFacts.

Import ApiKeyManager.

Lemma cleanExpired_lookup (now : Z) (st : t) (k : string) :
  keyStatus (cleanExpiredBlocks now st) !! k = cleanStatus now <$> keyStatus st !! k.
Proof. unfold cleanExpiredBlocks; cbn. apply lookup_fmap. Qed.

(** After the sweep a status is blocked exactly when it was blocked no
    more than an hour ago, and then the sweep has left it alone. *)
Lemma cleanStatus_blocked (now : Z) (s : ApiKeyStatus) (t0 : Z) :
  isBlocked s = true -> blockStartTime s = Some t0 -> 0 < t0 ->
  (now - t0 <= BLOCK_DURATION_MS -> cleanStatus now s = s)
  /\ (BLOCK_DURATION_MS < now - t0 -> isBlocked (cleanStatus now s) = false).
Proof.
  intros Hb Ht Hpos. unfold cleanStatus. rewrite Hb, Ht. cbn.
  destruct (Z.eqb_spec t0 0) as [-> | _]; [lia |]. cbn.
  destruct (Z.ltb_spec BLOCK_DURATION_MS (now - t0)); split; intros; try lia; reflexivity.
Qed.

Lemma cleanStatus_unblocked (now : Z) (s : ApiKeyStatus) :
  isBlocked s = false -> cleanStatus now s = s.
Proof. intros Hb. unfold cleanStatus. rewrite Hb. reflexivity. Qed.

(** Under the sweep, being usable is not being still blocked. *)
Lemma swept_blocked_iff (now : Z) (st : t) (k : string) (s : ApiKeyStatus) :
  wellFormed st -> keyStatus st !! k = Some s ->
  (isBlocked (cleanStatus now s) = true <-> stillBlocked now st k).
Proof.
  intros Hwf Hk. split.
  - intros Hc. destruct (isBlocked s) eqn:Hb.
    + destruct (wf_blocked st Hwf k s Hk Hb) as (t0 & Ht & Hpos).
      destruct (cleanStatus_blocked now s t0 Hb Ht Hpos) as [_ Hexp].
      destruct (Z.le_gt_cases (now - t0) BLOCK_DURATION_MS) as [Hle | Hgt].
      * exists t0. split; [exists s; auto | exact Hle].
      * rewrite (Hexp Hgt) in Hc. discriminate.
    + rewrite (cleanStatus_unblocked now s Hb), Hb in Hc. discriminate.
  - intros (t0 & (s' & Hk' & Hb & Ht) & Hle).
    rewrite Hk in Hk'. injection Hk' as <-.
    destruct (wf_blocked st Hwf k s Hk Hb) as (t1 & Ht1 & Hpos).
    rewrite Ht in Ht1. injection Ht1 as <-.
    destruct (cleanStatus_blocked now s t0 Hb Ht Hpos) as [Hkeep _].
    rewrite (Hkeep Hle). exact Hb.
Qed.

(** The offsets [0 .. n-1] from the cursor reach every index. *)
Lemma offset_reaches (n cur j : nat) :
  (j < n)%nat -> exists i, (i < n)%nat /\ ((cur + i) mod n = j)%nat.
Proof.
  intros Hj. assert (Hn : n <> 0%nat) by lia.
  pose proof (Nat.mod_upper_bound cur n Hn) as Hc.
  exists ((j + n - cur mod n) mod n)%nat. split.
  - apply Nat.mod_upper_bound, Hn.
  - rewrite Nat.Div0.add_mod_idemp_r.
    rewrite <- Nat.Div0.add_mod_idemp_l.
    replace (cur mod n + (j + n - cur mod n))%nat with (j + 1 * n)%nat by lia.
    rewrite Nat.Div0.mod_add. apply Nat.mod_small, Hj.
Qed.

Lemma usableAt_swept (now : Z) (st : t) (i : nat) (k : string) :
  wellFormed st ->
  apiKeys st !! ((currentKeyIndex st + i) mod length (apiKeys st))%nat = Some k ->
  (usableAt (cleanExpiredBlocks now st) i = true <-> ~ stillBlocked now st k).
Proof.
  intros Hwf Hk. unfold usableAt.
  change (apiKeys (cleanExpiredBlocks now st)) with (apiKeys st).
  change (currentKeyIndex (cleanExpiredBlocks now st)) with (currentKeyIndex st).
  rewrite Hk. rewrite (cleanExpired_lookup now st k).
  assert (Hin : k ∈ apiKeys st) by (eapply list_elem_of_lookup_2; exact Hk).
  destruct (wf_keys st Hwf k Hin) as [_ [s Hs]]. rewrite Hs. cbn.
  pose proof (swept_blocked_iff now st k s Hwf Hs) as Hiff.
  destruct (isBlocked (cleanStatus now s)); cbn; split; intros Hx.
  - discriminate.
  - exfalso. apply Hx, Hiff. reflexivity.
  - intros Hsb. apply Hiff in Hsb. discriminate.
  - reflexivity.
Qed.

(** The loop over the offsets finds a usable key whenever the pool has
    one. *)
Lemma find_usable (now : Z) (st : t) (k' : string) :
  wellFormed st -> k' ∈ apiKeys st -> ~ stillBlocked now st k' ->
  exists i r,
    find (usableAt (cleanExpiredBlocks now st)) (seq 0 (length (apiKeys st))) = Some i
    /\ apiKeys st !! ((currentKeyIndex st + i) mod length (apiKeys st))%nat = Some r
    /\ ~ stillBlocked now st r.
Proof.
  intros Hwf Hin Hfree.
  apply list_elem_of_lookup_1 in Hin. destruct Hin as [j Hj].
  pose proof (lookup_lt_Some _ _ _ Hj) as Hlt.
  destruct (offset_reaches (length (apiKeys st)) (currentKeyIndex st) j Hlt) as (i & Hi & Hmod).
  destruct (find (usableAt (cleanExpiredBlocks now st)) (seq 0 (length (apiKeys st)))) as [i0 |] eqn:Hfind.
  - apply List.find_some in Hfind. destruct Hfind as [Hin0 Hus].
    apply List.in_seq in Hin0.
    assert (Hidx : ((currentKeyIndex st + i0) mod length (apiKeys st) < length (apiKeys st))%nat)
      by (apply Nat.mod_upper_bound; lia).
    destruct (lookup_lt_is_Some_2 _ _ Hidx) as [r Hr].
    exists i0, r. split; [reflexivity |]. split; [exact Hr |].
    apply (usableAt_swept now st i0 r Hwf Hr). exact Hus.
  - exfalso.
    pose proof (List.find_none _ _ Hfind i) as Hnone.
    assert (Hin' : List.In i (seq 0 (length (apiKeys st)))) by (apply List.in_seq; lia).
    specialize (Hnone Hin').
    rewrite <- Hmod in Hj.
    apply (usableAt_swept now st i k' Hwf Hj) in Hfree.
    rewrite Hfree in Hnone. discriminate.
Qed.

Lemma find_none_all_blocked (now : Z) (st : t) :
  wellFormed st -> (forall k', k' ∈ apiKeys st -> stillBlocked now st k') ->
  find (usableAt (cleanExpiredBlocks now st)) (seq 0 (length (apiKeys st))) = None.
Proof.
  intros Hwf Hall.
  destruct (find _ _) as [i0 |] eqn:Hfind; [| reflexivity]. exfalso.
  apply List.find_some in Hfind. destruct Hfind as [Hin0 Hus].
  apply List.in_seq in Hin0.
  assert (Hidx : ((currentKeyIndex st + i0) mod length (apiKeys st) < length (apiKeys st))%nat)
    by (apply Nat.mod_upper_bound; lia).
  destruct (lookup_lt_is_Some_2 _ _ Hidx) as [r Hr].
  apply (usableAt_swept now st i0 r Hwf Hr) in Hus. apply Hus, Hall.
  eapply list_elem_of_lookup_2; exact Hr.
Qed.

Lemma omap_ext_elem {A B} (f g : A -> option B) (l : list A) :
  (forall x, x ∈ l -> f x = g x) -> omap f l = omap g l.
Proof.
  induction l as [| x l IH]; intros Hfg; [reflexivity |].
  cbn. rewrite (Hfg x) by left. rewrite IH; [reflexivity |].
  intros y Hy. apply Hfg. right. exact Hy.
Qed.

(** The sweep leaves the entries alone when every key is still blocked. *)
Lemma entries_swept (now : Z) (st : t) :
  wellFormed st -> (forall k', k' ∈ apiKeys st -> stillBlocked now st k') ->
  entries (cleanExpiredBlocks now st) = entries st.
Proof.
  intros Hwf Hall. unfold entries.
  change (apiKeys (cleanExpiredBlocks now st)) with (apiKeys st).
  apply omap_ext_elem. intros k Hk.
  rewrite (cleanExpired_lookup now st k).
  destruct (wf_keys st Hwf k Hk) as [_ [s Hs]]. rewrite Hs. cbn.
  assert (Hc : cleanStatus now s = s).
  { destruct (Hall k Hk) as (t0 & (s' & Hs' & Hb & Ht) & Hle).
    rewrite Hs in Hs'. injection Hs' as <-.
    destruct (wf_blocked st Hwf k s Hs Hb) as (t1 & Ht1 & Hpos).
    rewrite Ht in Ht1. injection Ht1 as <-.
    apply (cleanStatus_blocked now s t0 Hb Ht Hpos). exact Hle. }
  rewrite Hc. reflexivity.
Qed.

Lemma earliestStep_invariant (seen : list (string * ApiKeyStatus)) acc e t0 :
  earliestOf seen acc ->
  isBlocked e.2 = true -> blockStartTime e.2 = Some t0 -> 0 < t0 ->
  earliestOf (seen ++ [e]) (earliestStep acc e).
Proof.
  intros Hacc Hb Ht Hpos. unfold earliestStep. rewrite Ht, Hb. cbn.
  destruct (Z.eqb_spec t0 0) as [-> | _]; [lia |]. cbn.
  destruct acc as [[ka |] [ta |]]; cbn in *; try contradiction.
  - destruct Hacc as [(sa & Hin & Hta) Hmin].
    destruct (Z.ltb_spec t0 ta) as [Hlt | Hge]; cbn.
    + split.
      * exists e.2. split; [| exact Ht].
        apply elem_of_app. right. destruct e; cbn. apply list_elem_of_singleton. reflexivity.
      * intros e' t' Hin' Ht'. apply elem_of_app in Hin'. destruct Hin' as [Hin' | Hin'].
        -- specialize (Hmin e' t' Hin' Ht'). lia.
        -- apply list_elem_of_singleton in Hin'. subst e'. rewrite Ht in Ht'.
           injection Ht' as <-. lia.
    + split.
      * exists sa. split; [| exact Hta]. apply elem_of_app. left. exact Hin.
      * intros e' t' Hin' Ht'. apply elem_of_app in Hin'. destruct Hin' as [Hin' | Hin'].
        -- exact (Hmin e' t' Hin' Ht').
        -- apply list_elem_of_singleton in Hin'. subst e'. rewrite Ht in Ht'.
           injection Ht' as <-. exact Hge.
  - subst seen. split.
    + exists e.2. split; [| exact Ht]. destruct e; cbn. apply list_elem_of_singleton. reflexivity.
    + intros e' t' Hin' Ht'. apply list_elem_of_singleton in Hin'. subst e'.
      rewrite Ht in Ht'. injection Ht' as <-. lia.
Qed.

Lemma earliest_fold (l seen : list (string * ApiKeyStatus)) acc :
  earliestOf seen acc ->
  (forall e, e ∈ l -> isBlocked e.2 = true /\ exists t0, blockStartTime e.2 = Some t0 /\ 0 < t0) ->
  earliestOf (seen ++ l) (fold_left earliestStep l acc).
Proof.
  revert seen acc. induction l as [| e l IH]; intros seen acc Hacc Hall; cbn.
  - rewrite app_nil_r. exact Hacc.
  - destruct (Hall e) as (Hb & t0 & Ht & Hpos); [left |].
    replace (seen ++ e :: l) with ((seen ++ [e]) ++ l) by (rewrite <- app_assoc; reflexivity).
    apply IH.
    + eapply earliestStep_invariant; eassumption.
    + intros e' He'. apply Hall. right. exact He'.
Qed.

Lemma elem_of_entries (st : t) (k : string) (s : ApiKeyStatus) :
  (k, s) ∈ entries st <-> k ∈ apiKeys st /\ keyStatus st !! k = Some s.
Proof.
  unfold entries. rewrite list_elem_of_omap. split.
  - intros (k0 & Hin & Hf). destruct (keyStatus st !! k0) as [s0 |] eqn:Hs0; cbn in Hf; [| discriminate].
    injection Hf as <- <-. auto.
  - intros [Hin Hs]. exists k. split; [exact Hin |]. rewrite Hs. reflexivity.
Qed.

(** In a pool whose keys are all blocked, [getEarliestBlockedKey] returns
    a key of the pool with the least block instant. *)
Lemma earliest_blocked_key (st : t) (k : string) :
  wellFormed st -> k ∈ apiKeys st ->
  (forall k', k' ∈ apiKeys st -> exists t0, blockedAt st k' t0) ->
  exists r tr,
    getEarliestBlockedKey st = Some r /\ r ∈ apiKeys st /\ blockedAt st r tr
    /\ forall k' t', k' ∈ apiKeys st -> blockedAt st k' t' -> tr <= t'.
Proof.
  intros Hwf Hk Hall. unfold getEarliestBlockedKey.
  assert (Hfold : earliestOf ([] ++ entries st) (fold_left earliestStep (entries st) (None, None))).
  { apply earliest_fold; [reflexivity |].
    intros [k0 s0] He. apply elem_of_entries in He. destruct He as [Hin Hs0].
    destruct (Hall k0 Hin) as (t0 & s1 & Hs1 & Hb & Ht).
    rewrite Hs0 in Hs1. injection Hs1 as <-. cbn. split; [exact Hb |].
    destruct (wf_blocked st Hwf k0 s0 Hs0 Hb) as (t1 & Ht1 & Hpos). eauto. }
  cbn [app] in Hfold.
  destruct (fold_left earliestStep (entries st) (None, None)) as [[ka |] [ta |]]; cbn in *;
    try contradiction.
  - destruct Hfold as [(sa & Hin & Hta) Hmin].
    apply elem_of_entries in Hin. destruct Hin as [Hin Hsa].
    assert (Hba : isBlocked sa = true).
    { destruct (Hall ka Hin) as (t0 & s1 & Hs1 & Hb & _).
      rewrite Hsa in Hs1. injection Hs1 as <-. exact Hb. }
    exists ka, ta. split; [reflexivity |]. split; [exact Hin |]. split.
    + exists sa. auto.
    + intros k' t' Hin' (s' & Hs' & Hb' & Ht').
      apply (Hmin (k', s') t'); [| exact Ht'].
      apply elem_of_entries. auto.
  - exfalso. destruct (wf_keys st Hwf k Hk) as [_ [s Hs]].
    assert (He : (k, s) ∈ entries st) by (apply elem_of_entries; auto).
    rewrite Hfold in He. inversion He.
Qed.

(** C6.  [getCurrentApiKey] never returns a credential that is blocked and
    whose block is at most one hour old, unless every credential of the
    pool is in that state; then it returns the credential with the
    earliest block instant. *)
Theorem getCurrentApiKey_skips_blocked (st : t) (now : Z) (k : string) (t0 : Z) :
  wellFormed st -> k ∈ apiKeys st ->
  blockedAt st k t0 -> now - t0 <= BLOCK_DURATION_MS ->
  ((exists k', k' ∈ apiKeys st /\ ~ stillBlocked now st k') ->
     (getCurrentApiKey now st).1 <> k
     /\ (getCurrentApiKey now st).1 ∈ apiKeys st
     /\ ~ stillBlocked now st (getCurrentApiKey now st).1)
  /\ ((forall k', k' ∈ apiKeys st -> stillBlocked now st k') ->
      exists tr,
        blockedAt st (getCurrentApiKey now st).1 tr
        /\ (getCurrentApiKey now st).1 ∈ apiKeys st
        /\ forall k' t', k' ∈ apiKeys st -> blockedAt st k' t' -> tr <= t').
Proof.
  intros Hwf Hk Hblocked Hle.
  assert (Hstill : stillBlocked now st k) by (exists t0; auto).
  split.
  - intros (k' & Hin' & Hfree).
    destruct (find_usable now st k' Hwf Hin' Hfree) as (i & r & Hfind & Hr & Hrfree).
    unfold getCurrentApiKey.
    change (apiKeys (cleanExpiredBlocks now st)) with (apiKeys st).
    change (currentKeyIndex (cleanExpiredBlocks now st)) with (currentKeyIndex st).
    rewrite Hfind. cbn. rewrite Hr. cbn.
    split; [| split].
    + intros ->. apply Hrfree, Hstill.
    + eapply list_elem_of_lookup_2; exact Hr.
    + exact Hrfree.
  - intros Hall.
    unfold getCurrentApiKey.
    change (apiKeys (cleanExpiredBlocks now st)) with (apiKeys st).
    rewrite (find_none_all_blocked now st Hwf Hall).
    unfold getEarliestBlockedKey. rewrite (entries_swept now st Hwf Hall).
    destruct (earliest_blocked_key st k Hwf Hk) as (r & tr & Hearliest & Hin & Hb & Hmin).
    { intros k' Hk'. destruct (Hall k' Hk') as (t' & Hb' & _). eauto. }
    unfold getEarliestBlockedKey in Hearliest. rewrite Hearliest. cbn.
    destruct (wf_keys st Hwf r Hin) as [Hne _].
    destruct r as [| c r']; [contradiction |]. cbn.
    exists tr. auto.
Qed.

Lemma twoKeys_blocked_wellFormed (st : t) :
  apiKeys st = ["key-A"; "key-B"] ->
  (forall k s, keyStatus st !! k = Some s -> isBlocked s = true ->
               exists t0, blockStartTime s = Some t0 /\ 0 < t0) ->
  is_Some (keyStatus st !! "key-A") -> is_Some (keyStatus st !! "key-B") ->
  wellFormed st.
Proof.
  intros Hkeys Hb HA HB. split; [| exact Hb].
  intros k Hk. rewrite Hkeys in Hk.
  apply elem_of_cons in Hk. destruct Hk as [-> | Hk]; [split; [discriminate | exact HA] |].
  apply list_elem_of_singleton in Hk. subst k. split; [discriminate | exact HB].
Qed.

(** The statuses of the two-key examples, key by key. *)
Lemma lookup_two (m : gmap string ApiKeyStatus) (a b : ApiKeyStatus) (k : string) (s : ApiKeyStatus) :
  m = <["key-A" := a]> (<["key-B" := b]> ∅) ->
  m !! k = Some s -> (k = "key-A" /\ s = a) \/ (k = "key-B" /\ s = b).
Proof.
  intros -> Hs.
  destruct (decide (k = "key-A")) as [-> | Hna].
  - rewrite lookup_insert_eq in Hs. injection Hs as <-. left; auto.
  - rewrite lookup_insert_ne in Hs by congruence.
    destruct (decide (k = "key-B")) as [-> | Hnb].
    + rewrite lookup_insert_eq in Hs. injection Hs as <-. right; auto.
    + rewrite lookup_insert_ne in Hs by congruence. rewrite lookup_empty in Hs. discriminate.
Qed.

Lemma oneBlocked_status :
  keyStatus Examples.oneBlocked
  = <["key-A" := mkStatus "key-A" true 0 0 (Some Examples.t0)]>
      (<["key-B" := mkStatus "key-B" false 0 0 None]> ∅).
Proof. vm_compute. reflexivity. Qed.

Lemma allBlocked_status :
  keyStatus Examples.allBlocked
  = <["key-A" := mkStatus "key-A" true 0 0 (Some (Examples.t0 + Examples.minutes 2))]>
      (<["key-B" := mkStatus "key-B" true 0 0 (Some Examples.t0)]> ∅).
Proof. vm_compute. reflexivity. Qed.

Lemma oneBlocked_wellFormed : wellFormed Examples.oneBlocked.
Proof.
  apply twoKeys_blocked_wellFormed; [reflexivity | | vm_compute; eauto | vm_compute; eauto].
  intros k s Hs Hb.
  destruct (lookup_two _ _ _ k s oneBlocked_status Hs) as [[-> ->] | [-> ->]].
  - exists Examples.t0. split; [reflexivity | reflexivity].
  - discriminate.
Qed.

Lemma allBlocked_wellFormed : wellFormed Examples.allBlocked.
Proof.
  apply twoKeys_blocked_wellFormed; [reflexivity | | vm_compute; eauto | vm_compute; eauto].
  intros k s Hs Hb.
  destruct (lookup_two _ _ _ k s allBlocked_status Hs) as [[-> ->] | [-> ->]].
  - eexists. split; [reflexivity | reflexivity].
  - eexists. split; [reflexivity | reflexivity].
Qed.

Lemma keyA_in_pool (st : t) : apiKeys st = ["key-A"; "key-B"] -> "key-A" ∈ apiKeys st.
Proof. intros ->. left. Qed.

Lemma keyB_in_pool (st : t) : apiKeys st = ["key-A"; "key-B"] -> "key-B" ∈ apiKeys st.
Proof. intros ->. right. left. Qed.

Lemma oneBlocked_keyB_free (now : Z) : ~ stillBlocked now Examples.oneBlocked "key-B".
Proof.
  intros (t1 & (s & Hs & Hb & _) & _).
  destruct (lookup_two _ _ _ _ s oneBlocked_status Hs) as [[Heq _] | [_ ->]]; discriminate.
Qed.

Lemma allBlocked_still (k' : string) :
  k' ∈ apiKeys Examples.allBlocked ->
  stillBlocked (Examples.t0 + Examples.minutes 10) Examples.allBlocked k'.
Proof.
  intros Hk. change (apiKeys Examples.allBlocked) with ["key-A"; "key-B"] in Hk.
  apply elem_of_cons in Hk. destruct Hk as [-> | Hk].
  - exists (Examples.t0 + Examples.minutes 2). split.
    + eexists. split; [vm_compute; reflexivity | split; reflexivity].
    + vm_compute. discriminate.
  - apply list_elem_of_singleton in Hk. subst k'.
    exists Examples.t0. split.
    + eexists. split; [vm_compute; reflexivity | split; reflexivity].
    + vm_compute. discriminate.
Qed.

(** The theorem at the two example pools: with one credential blocked
    the other is returned; with both blocked the earlier one is. *)
Lemma getCurrentApiKey_skips_blocked_witness :
  (getCurrentApiKey (Examples.t0 + 5) Examples.oneBlocked).1 <> "key-A"
  /\ exists tr, blockedAt Examples.allBlocked
                 (getCurrentApiKey (Examples.t0 + Examples.minutes 10) Examples.allBlocked).1 tr.
Proof.
  split.
  - assert (Hb : blockedAt Examples.oneBlocked "key-A" Examples.t0).
    { eexists. split; [vm_compute; reflexivity | split; reflexivity]. }
    assert (Hle : Examples.t0 + 5 - Examples.t0 <= BLOCK_DURATION_MS)
      by (vm_compute; discriminate).
    destruct (getCurrentApiKey_skips_blocked Examples.oneBlocked (Examples.t0 + 5)
                "key-A" Examples.t0 oneBlocked_wellFormed
                (keyA_in_pool Examples.oneBlocked eq_refl) Hb Hle) as [Hskip _].
    apply Hskip. exists "key-B". split; [apply keyB_in_pool; reflexivity |].
    apply oneBlocked_keyB_free.
  - assert (Hb : blockedAt Examples.allBlocked "key-A" (Examples.t0 + Examples.minutes 2)).
    { eexists. split; [vm_compute; reflexivity | split; reflexivity]. }
    assert (Hle : Examples.t0 + Examples.minutes 10 - (Examples.t0 + Examples.minutes 2)
                  <= BLOCK_DURATION_MS) by (vm_compute; discriminate).
    destruct (getCurrentApiKey_skips_blocked Examples.allBlocked
                (Examples.t0 + Examples.minutes 10) "key-A"
                (Examples.t0 + Examples.minutes 2) allBlocked_wellFormed
                (keyA_in_pool Examples.allBlocked eq_refl) Hb Hle) as [_ Hearliest].
    destruct (Hearliest allBlocked_still) as (tr & Htr & _).
    exists tr. exact Htr.
Defined.

(** How [recordError] counts a rate-limit failure: the count restarts
    when more than five minutes have passed since the previous failure of
    the key, whenever the first failure of the run was. *)
Lemma recordError_count (now : Z) (apiKey : string) (error : option JsError)
    (st : t) (s : ApiKeyStatus) :
  keyStatus st !! apiKey = Some s -> is429Error error = true ->
  exists s',
    keyStatus (recordError now apiKey error st) !! apiKey = Some s'
    /\ errorCount s'
       = (if ERROR_WINDOW_MS <? now - lastErrorTime s then 0 else errorCount s) + 1
    /\ lastErrorTime s' = now
    /\ (MAX_ERRORS_IN_WINDOW <= errorCount s' ->
        isBlocked s' = true /\ blockStartTime s' = Some now)
    /\ (errorCount s' < MAX_ERRORS_IN_WINDOW ->
        isBlocked s' = isBlocked s /\ blockStartTime s' = blockStartTime s).
Proof.
  intros Hs H429. unfold recordError. rewrite Hs, H429.
  set (count0 := if ERROR_WINDOW_MS <? now - lastErrorTime s then 0 else errorCount s).
  cbn [errorCount].
  destruct (Z.leb_spec MAX_ERRORS_IN_WINDOW (count0 + 1)) as [Hge | Hlt].
  - unfold blockApiKey. cbn [keyStatus apiKeys currentKeyIndex].
    rewrite lookup_insert_eq. cbn [key errorCount lastErrorTime].
    rewrite insert_insert_eq.
    match goal with
    | |- context [if ?c then switchToNextKey ?a else ?b] =>
        assert (Hk : keyStatus (if c then switchToNextKey a else b) = keyStatus b)
    end.
    { destruct (_ <? _)%nat; [| reflexivity].
      unfold switchToNextKey. destruct (find _ _); reflexivity. }
    rewrite Hk. cbn [keyStatus]. rewrite lookup_insert_eq.
    eexists. split; [reflexivity |]. cbn.
    repeat split; try reflexivity; lia.
  - cbn [keyStatus]. rewrite lookup_insert_eq.
    eexists. split; [reflexivity |]. cbn.
    repeat split; try reflexivity; lia.
Qed.

(** C5.  Five rate-limit failures of one credential, each four minutes
    after the one before: sixteen minutes lie between the first and the
    last, and every five-minute window holds two of them at most.  The
    window of the specification, which reopens five minutes after its first
    error, ends with one error counted and no block; [recordError] counts
    five and blocks the credential at the last failure. *)
Theorem recordError_blocks_on_spread_errors :
  keyStatus Examples.spreadErrors !! "key-A"
  = Some (mkStatus "key-A" true 5 (Examples.t0 + Examples.minutes 16)
            (Some (Examples.t0 + Examples.minutes 16)))
  /\ Examples.spreadErrorsSpec
     = CredentialSpec.mk 1 (Some (Examples.t0 + Examples.minutes 16)) None.
Proof. split; vm_compute; reflexivity. Qed.

End ApiKeyFacts.

(** ** Per-context queue *)

Module QueueFacts.

Import MessageQueueManager.

Section WithPow.
Context `{MathPow}.

(** C10.  When a flush reaches the stamina check with [canReply()] false
    and the level critical, the queued messages of the context are dropped
    and the flush returns [{processed: false, reason: stamina_insufficient}]
    with [messageCount] 0 and an empty [messages] list: both are read from
    the queue after it was emptied, so the result is the same whatever and
    however many messages were dropped; nothing is handed to the
    processor. *)
Theorem flush_critical_drops_unobserved (processor : Processor) (now : Z) (st : t)
    (contextId : string) (reason : FlushReason) (queueState : QueueState.t)
    (m : QueuedMessage.t) (ms : list QueuedMessage.t) :
  queues st !! contextId = Some queueState ->
  QueueState.messages queueState = m :: ms ->
  canReplyNow st = false ->
  levelNow st = StaminaManager.critical ->
  (flushQueue processor now st contextId reason).1.2
    = QueueProcessResult.mk false 0 None None stamina_insufficient [] (Some contextId)
  /\ (flushQueue processor now st contextId reason).2 = []
  /\ messagesAt (flushQueue processor now st contextId reason).1.1 contextId = Some [].
Proof.
  intros Hq Hm Hcan Hlevel.
  unfold canReplyNow in Hcan. unfold levelNow in Hlevel.
  unfold flushQueue, flushQueue_begin. rewrite Hq. cbn. rewrite Hm. cbn.
  rewrite Hcan. cbn. unfold StaminaManager.getStatus. cbn. rewrite Hlevel. cbn.
  split; [reflexivity |]. split; [reflexivity |].
  unfold messagesAt. cbn. rewrite lookup_insert_eq. reflexivity.
Qed.

(** C3, amended.  A flush requested for a context whose processing flag
    is set returns a result with [processed = false] as a normal value and
    hands nothing to the processor, and the other contexts are untouched.
    The stamina check precedes the processing check: the queued messages
    of the context stay as they are when [canReply()] holds or the level is
    not critical, and they are dropped when [canReply()] is false and the
    level is critical. *)
Theorem flush_while_processing (processor : Processor) (now : Z) (st : t)
    (contextId : string) (reason : FlushReason) (queueState : QueueState.t) :
  queues st !! contextId = Some queueState ->
  QueueState.isProcessing queueState = true ->
  QueueProcessResult.processed (flushQueue processor now st contextId reason).1.2 = false
  /\ (flushQueue processor now st contextId reason).2 = []
  /\ (forall other, other <> contextId ->
        queues (flushQueue processor now st contextId reason).1.1 !! other
        = queues st !! other)
  /\ (canReplyNow st = true \/ levelNow st <> StaminaManager.critical ->
        queues (flushQueue processor now st contextId reason).1.1 !! contextId
        = Some (clearSilenceTimer queueState))
  /\ (QueueState.messages queueState <> [] -> canReplyNow st = false ->
      levelNow st = StaminaManager.critical ->
        queues (flushQueue processor now st contextId reason).1.1 !! contextId
        = Some (withMessages (clearSilenceTimer queueState) [])
        /\ QueueProcessResult.reason (flushQueue processor now st contextId reason).1.2
           = stamina_insufficient).
Proof.
  intros Hq Hp.
  unfold canReplyNow, levelNow.
  unfold flushQueue, flushQueue_begin. rewrite Hq. cbn.
  destruct (QueueState.messages queueState) as [| m ms] eqn:Hm; cbn.
  - split; [reflexivity |]. split; [reflexivity |]. split.
    + intros other Hne. rewrite lookup_insert_ne by congruence. reflexivity.
    + split; [intros _; apply lookup_insert_eq | intros Hne; contradiction].
  - destruct (StaminaManager.canReply (staminaManager st)) eqn:Hcan; cbn.
    + rewrite Hp. cbn.
      split; [reflexivity |]. split; [reflexivity |]. split.
      * intros other Hne. rewrite lookup_insert_ne by congruence. reflexivity.
      * split; [intros _; apply lookup_insert_eq | intros _ Hf; discriminate].
    + unfold StaminaManager.getStatus. cbn.
      destruct (StaminaManager.calculateLevel _ _) eqn:Hlevel; cbn;
        (split; [reflexivity |]; split; [reflexivity |]; split;
         [intros other Hne; rewrite lookup_insert_ne by congruence; reflexivity |]);
        split.
      all: try (intros [Hc | Hl]; [discriminate |]).
      all: try (intros _ _ Hl; discriminate).
      all: try (rewrite lookup_insert_eq; unfold clearSilenceTimer; rewrite ?Hm; reflexivity).
      * exfalso. apply Hl. reflexivity.
      * intros _ _ _. split; [| reflexivity].
        rewrite lookup_insert_eq. unfold withMessages, clearSilenceTimer. reflexivity.
Qed.







End WithPow.

(** The flush that arrives while the group's queue is being processed,
    in rest mode at critical stamina, drops the message that was waiting. *)
Lemma flush_while_processing_drops :
  QueueState.isProcessing <$> queues Examples.busyCritical !! "group_42" = Some true
  /\ messagesAt Examples.busyCritical "group_42"
     = Some [convertToQueuedMessage Examples.queueConfig (Examples.t0 + 1000)
               (Examples.groupMessage "m2" "anyone there?") "group_42"]
  /\ messagesAt (flush (H := intPow) Examples.okProcessor (Examples.t0 + 2000)
                   Examples.busyCritical "group_42").1.1 "group_42"
     <> messagesAt Examples.busyCritical "group_42".
Proof.
  split; [vm_compute; reflexivity |]. split; [vm_compute; reflexivity |].
  vm_compute. discriminate.
Qed.

Lemma flush_while_processing_witness :
  QueueProcessResult.processed
    (flushQueue (H := intPow) Examples.okProcessor (Examples.t0 + 2000)
       Examples.busyCritical "group_42" manual_trigger).1.2 = false.
Proof.
  refine (proj1 (flush_while_processing (H := intPow) Examples.okProcessor
                   (Examples.t0 + 2000) Examples.busyCritical "group_42" manual_trigger
                   (QueueState.mk
                      [convertToQueuedMessage Examples.queueConfig (Examples.t0 + 1000)
                         (Examples.groupMessage "m2" "anyone there?") "group_42"]
                      (Some (Examples.t0 + 9000)) true None None) _ _)).
  - vm_compute. reflexivity.
  - reflexivity.
Defined.

Lemma flush_critical_drops_unobserved_witness :
  messagesAt (flushQueue (H := intPow) Examples.okProcessor (Examples.t0 + 9000)
                Examples.idleCritical "group_42" silence_trigger).1.1 "group_42" = Some [].
Proof.
  refine (proj2 (proj2 (flush_critical_drops_unobserved (H := intPow) Examples.okProcessor
                   (Examples.t0 + 9000) Examples.idleCritical "group_42" silence_trigger
                   (QueueState.mk
                      [convertToQueuedMessage Examples.queueConfig Examples.t0
                         (Examples.groupMessage "m1" "hello") "group_42"]
                      (Some (Examples.t0 + 8000)) false None None)
                   (convertToQueuedMessage Examples.queueConfig Examples.t0
                      (Examples.groupMessage "m1" "hello") "group_42") [] _ _ _ _))).
  - vm_compute. reflexivity.
  - reflexivity.
  - vm_compute. reflexivity.
  - vm_compute. reflexivity.
Defined.


End QueueFacts.

(** ** Task runner *)

Module TaskQueueFacts.

Import TaskQueue.

Lemma loopHead_stopped (q : list InternalTask) (st : t) :
  stopRequested st = true ->
  loopHead q st = mk (handlers st) q false true None (promises st) (nextId st).
Proof. intros Hs. destruct q; cbn; rewrite Hs; reflexivity. Qed.

Lemma loopHead_empty (st : t) :
  loopHead [] st
  = mk (handlers st) [] false (stopRequested st) None (promises st) (nextId st).
Proof. cbn. destruct (stopRequested st); reflexivity. Qed.

Lemma loopHead_start (task : InternalTask) (rest : list InternalTask) (st : t) :
  stopRequested st = false -> hasHandler st (taskTypeOf (payload task)) = true ->
  loopHead (task :: rest) st
  = mk (handlers st) rest true false
       (Some (mkTask (id task) (payload task) (S (attempts task)) (maxAttempts task)
                (createdAt task)))
       (promises st) (nextId st).
Proof. intros Hs Hh. cbn. rewrite Hs, Hh. reflexivity. Qed.

(** C4, amended.  [shutdown()] sets the stop flag and returns once no loop
    of [processQueue] is running: the handler of the task in flight, if
    there is one, is let to settle, and its task is resolved, rejected or
    put back at the head of the queue for a retry that never comes.  The
    tasks that were waiting in the queue are not discarded and their
    promises are not touched: they stay queued and unsettled, and
    [processQueue] no longer runs them. *)
Theorem shutdown_keeps_queue {E} (handler : Handler E) (st : t) (env : E) :
  stopRequested (shutdown handler st env).1 = true
  /\ isProcessing (shutdown handler st env).1 = false
  /\ (exists retried,
        queue (shutdown handler st env).1 = retried ++ queue st
        /\ (retried = [] \/ exists task, inFlight st = Some task /\ retried = [task]))
  /\ (forall i, (forall task, inFlight st = Some task -> id task <> i) ->
        promises (shutdown handler st env).1 !! i = promises st !! i)
  /\ processQueue (shutdown handler st env).1 = (shutdown handler st env).1.
Proof.
  unfold shutdown, requestStop. cbn -[Nat.ltb loopHead].
  destruct (isProcessing st) eqn:Hp; cbn -[Nat.ltb loopHead].
  - destruct (inFlight st) as [task |] eqn:Hf; cbn -[Nat.ltb loopHead].
    + unfold turn. cbn -[Nat.ltb loopHead].
      destruct (handler task env) as [outcome env1].
      unfold afterHandler. cbn -[Nat.ltb loopHead].
      destruct outcome as [error |]; [destruct (attempts task <? maxAttempts task)%nat |];
        rewrite loopHead_stopped by reflexivity; cbn;
        (split; [reflexivity |]; split; [reflexivity |]; split;
         [| split; [| unfold processQueue; cbn; reflexivity]]).
      * exists [task]. split; [reflexivity |]. right. exists task. auto.
      * intros i Hi. reflexivity.
      * exists []. split; [reflexivity |]. left. reflexivity.
      * intros i Hi. apply lookup_insert_ne. apply Hi. reflexivity.
      * exists []. split; [reflexivity |]. left. reflexivity.
      * intros i Hi. apply lookup_insert_ne. apply Hi. reflexivity.
    + rewrite loopHead_stopped by reflexivity. cbn.
      split; [reflexivity |]. split; [reflexivity |]. split.
      * exists []. split; [reflexivity |]. left. reflexivity.
      * split; [intros; reflexivity | unfold processQueue; cbn; reflexivity].
  - split; [reflexivity |]. split; [reflexivity |]. split.
    + exists []. split; [reflexivity |]. left. reflexivity.
    + split; [intros; reflexivity |].
      unfold processQueue. cbn. reflexivity.
Qed.

(** With one task in flight and one waiting, [shutdown()] lets the first
    settle and leaves the second in the queue, its promise pending. *)
Lemma shutdown_discards_nothing :
  map id (queue (shutdown Examples.returns Examples.busyQueue tt).1) = [1%nat]
  /\ promises (shutdown Examples.returns Examples.busyQueue tt).1 !! 1%nat = Some Pending
  /\ ~ (queue (shutdown Examples.returns Examples.busyQueue tt).1 = []
        /\ exists error,
             promises (shutdown Examples.returns Examples.busyQueue tt).1 !! 1%nat
             = Some (RejectedWith error))
  /\ (shutdown Examples.returns Examples.busyQueue tt).1
     <> (shutdown_spec Examples.returns Examples.busyQueue tt).1.
Proof.
  split; [vm_compute; reflexivity |]. split; [vm_compute; reflexivity |]. split.
  - intros [Hq _]. vm_compute in Hq. discriminate.
  - intros Heq. apply (f_equal queue) in Heq. vm_compute in Heq. discriminate.
Qed.

Lemma loopHead_skip (task : InternalTask) (rest : list InternalTask) (st : t) :
  stopRequested st = false -> hasHandler st (taskTypeOf (payload task)) = false ->
  loopHead (task :: rest) st
  = loopHead rest (settlePromise (id task) (RejectedWith "No handler for task type") st).
Proof. intros Hs Hh. cbn. rewrite Hs, Hh. reflexivity. Qed.

Lemma turns_cons (task : InternalTask) (rest : list InternalTask) :
  list_sum (map triesLeft (task :: rest))
  = (triesLeft task + list_sum (map triesLeft rest))%nat.
Proof. reflexivity. Qed.

Lemma settled_insert (st : t) (i j : nat) (p : PromiseState) :
  p <> Pending -> settled st i ->
  settled (mk (handlers st) (queue st) (isProcessing st) (stopRequested st) (inFlight st)
              (<[j := p]> (promises st)) (nextId st)) i.
Proof.
  intros Hp Hs. unfold settled in *. cbn [promises].
  destruct (decide (j = i)) as [-> | Hne].
  - rewrite lookup_insert_eq. destruct p as [| | error]; [contradiction | left | right; eauto];
      reflexivity.
  - rewrite lookup_insert_ne by exact Hne. exact Hs.
Qed.

Lemma settled_promises (st st' : t) (i : nat) :
  promises st' = promises st -> settled st i -> settled st' i.
Proof. unfold settled. intros ->. auto. Qed.

(** The loop from its head to its next yield, when no stop has been
    requested: it yields with a task in flight or leaves with the queue
    empty; the tasks it passes over for want of a handler are rejected. *)
Lemma loopHead_spec (q : list InternalTask) :
  forall st, stopRequested st = false ->
    running (loopHead q st)
    /\ handlers (loopHead q st) = handlers st
    /\ (turnsFor (loopHead q st) <= list_sum (map triesLeft q))%nat
    /\ (forall i, settled st i -> settled (loopHead q st) i)
    /\ (forall i, i ∈ map id q -> waiting (loopHead q st) i \/ settled (loopHead q st) i).
Proof.
  induction q as [| task rest IH]; intros st Hs.
  - rewrite loopHead_empty. unfold running, turnsFor, settled. cbn.
    split; [auto |]. split; [reflexivity |]. split; [lia |]. split; [auto |].
    intros i Hi. inversion Hi.
  - cbn [loopHead]. rewrite Hs.
    destruct (hasHandler st (taskTypeOf (payload task))) eqn:Hh.
    + split; [unfold running; cbn; auto |]. split; [reflexivity |]. split; [| split].
      * rewrite turns_cons. unfold turnsFor. cbn [queue inFlight].
        unfold triesLeft at 2 3. cbn [maxAttempts attempts]. lia.
      * intros i Hi. exact Hi.
      * intros i Hi. left. unfold waiting. cbn [queue inFlight].
        cbn [map] in Hi. apply elem_of_cons in Hi. destruct Hi as [-> | Hi].
        -- right. eexists. split; reflexivity.
        -- left. exact Hi.
    + destruct (IH (settlePromise (id task) (RejectedWith "No handler for task type") st) Hs)
        as (Hrun & Hhs & Hturns & Hsettled & Hwait).
      split; [exact Hrun |]. split; [exact Hhs |]. split; [rewrite turns_cons; lia |]. split.
      * intros i Hi. apply Hsettled. apply settled_insert; [discriminate | exact Hi].
      * intros i Hi. apply elem_of_cons in Hi. destruct Hi as [-> | Hi].
        -- right. apply Hsettled. right. eexists. unfold settlePromise. cbn.
           apply lookup_insert_eq.
        -- apply Hwait, Hi.
Qed.

(** One turn of the event loop: the queue stays well-formed, the work
    left shrinks, and a task stays in the queue or in flight until its
    promise settles. *)
Lemma turn_spec {E} (handler : Handler E) (st : t) (env : E) (task : InternalTask) :
  running st -> inFlight st = Some task ->
  running (turn handler st env).1
  /\ handlers (turn handler st env).1 = handlers st
  /\ (turnsFor (turn handler st env).1 < turnsFor st)%nat
  /\ (forall i, waiting st i \/ settled st i ->
        waiting (turn handler st env).1 i \/ settled (turn handler st env).1 i).
Proof.
  intros [Hs Hshape] Hf. unfold turn. rewrite Hf.
  destruct (handler task env) as [outcome env1]. cbn [fst].
  unfold afterHandler. rewrite Hf.
  assert (Hturns : turnsFor st = (list_sum (map triesLeft (queue st)) + triesLeft task)%nat)
    by (unfold turnsFor; rewrite Hf; reflexivity).
  destruct outcome as [error |];
    [destruct (Nat.ltb_spec (attempts task) (maxAttempts task)) as [Hlt | Hge] |].
  - (* the task is put back for a retry *)
    match goal with
    | |- context [loopHead ?q ?s] =>
        destruct (loopHead_spec q s Hs) as (Hrun & Hhs & Hle & Hsettled & Hwait)
    end.
    cbn [queue handlers] in *.
    split; [exact Hrun |]. split; [exact Hhs |]. split.
    + clear Hrun Hhs Hle Hsettled Hwait. rewrite Hturns.
      destruct (hasHandler st (taskTypeOf (payload task))) eqn:Hh.
      * rewrite loopHead_start; [| exact Hs | exact Hh].
        unfold turnsFor, triesLeft. cbn [queue inFlight maxAttempts attempts]. lia.
      * match goal with
        | |- context [loopHead (task :: ?rest) ?s] =>
            rewrite (loopHead_skip task rest s Hs Hh)
        end.
        match goal with
        | |- context [loopHead ?q ?s] =>
            destruct (loopHead_spec q s Hs) as (_ & _ & Hle & _)
        end.
        unfold triesLeft at 2. lia.
    + intros i [[Hi | (t' & Ht' & Hid)] | Hi].
      * apply Hwait. cbn [map]. apply elem_of_cons. right. exact Hi.
      * rewrite Hf in Ht'. injection Ht' as <-. apply Hwait. cbn [map].
        apply elem_of_cons. left. symmetry. exact Hid.
      * right. apply Hsettled. eapply settled_promises; [| exact Hi]. reflexivity.
  - (* the task is rejected *)
    match goal with
    | |- context [loopHead ?q ?s] =>
        destruct (loopHead_spec q s Hs) as (Hrun & Hhs & Hle & Hsettled & Hwait)
    end.
    cbn [queue handlers] in *.
    split; [exact Hrun |]. split; [exact Hhs |]. split.
    + rewrite Hturns. unfold triesLeft at 2. lia.
    + intros i [[Hi | (t' & Ht' & Hid)] | Hi].
      * apply Hwait, Hi.
      * rewrite Hf in Ht'. injection Ht' as <-. right. apply Hsettled.
        right. exists error. cbn [promises]. rewrite <- Hid. apply lookup_insert_eq.
      * right. apply Hsettled.
        apply (settled_insert
                 (mk (handlers st) (queue st) (isProcessing st) (stopRequested st) None
                     (promises st) (nextId st)) i (id task) (RejectedWith error));
          [discriminate | exact Hi].
  - (* the task is resolved *)
    match goal with
    | |- context [loopHead ?q ?s] =>
        destruct (loopHead_spec q s Hs) as (Hrun & Hhs & Hle & Hsettled & Hwait)
    end.
    cbn [queue handlers] in *.
    split; [exact Hrun |]. split; [exact Hhs |]. split.
    + rewrite Hturns. unfold triesLeft at 2. lia.
    + intros i [[Hi | (t' & Ht' & Hid)] | Hi].
      * apply Hwait, Hi.
      * rewrite Hf in Ht'. injection Ht' as <-. right. apply Hsettled.
        left. cbn [promises]. rewrite <- Hid. apply lookup_insert_eq.
      * right. apply Hsettled.
        apply (settled_insert
                 (mk (handlers st) (queue st) (isProcessing st) (stopRequested st) None
                     (promises st) (nextId st)) i (id task) Resolved);
          [discriminate | exact Hi].
Qed.

(** Given the turns its tasks may take, the event loop comes to rest:
    the queue is idle and every task that was waiting has its promise
    settled. *)
Lemma runLoop_quiesces {E} (handler : Handler E) (fuel : nat) :
  forall (st : t) (env : E),
    running st -> (turnsFor st <= fuel)%nat ->
    idle (runLoop handler fuel st env).1
    /\ handlers (runLoop handler fuel st env).1 = handlers st
    /\ (forall i, waiting st i \/ settled st i -> settled (runLoop handler fuel st env).1 i).
Proof.
  induction fuel as [| fuel IH]; intros st env Hrun Hfuel.
  - destruct Hrun as [Hs Hshape]. cbn [runLoop fst].
    destruct (inFlight st) as [task |] eqn:Hf.
    + unfold turnsFor, triesLeft in Hfuel. rewrite Hf in Hfuel. lia.
    + destruct Hshape as [Hp Hq].
      split; [repeat split; assumption |]. split; [reflexivity |].
      intros i [[Hi | (t' & Ht' & _)] | Hi]; [| congruence | exact Hi].
      rewrite Hq in Hi. inversion Hi.
  - cbn [runLoop]. destruct (inFlight st) as [task |] eqn:Hf.
    + destruct (turn_spec handler st env task Hrun Hf) as (Hrun' & Hhs & Hlt & Hkeep).
      destruct (turn handler st env) as [st1 env1]. cbn [fst] in *.
      destruct (IH st1 env1 Hrun') as (Hidle & Hhs' & Hsettle); [lia |].
      split; [exact Hidle |]. split; [congruence |].
      intros i Hi. apply Hsettle, Hkeep, Hi.
    + destruct Hrun as [Hs Hshape]. rewrite Hf in Hshape. destruct Hshape as [Hp Hq].
      cbn [fst].
      split; [repeat split; assumption |]. split; [reflexivity |].
      intros i [[Hi | (t' & Ht' & _)] | Hi]; [| congruence | exact Hi].
      rewrite Hq in Hi. inversion Hi.
Qed.

Lemma idle_running (st : t) : idle st -> running st.
Proof. intros (Hp & Hf & Hq & Hs). unfold running. rewrite Hf. auto. Qed.

End TaskQueueFacts.

(** ** Outbound correlator *)

Module AgentServerFacts.

Import AgentServer.

Lemma hasHandler_handlers (st st' : TaskQueue.t) (type : TaskType) :
  TaskQueue.handlers st' = TaskQueue.handlers st ->
  TaskQueue.hasHandler st' type = TaskQueue.hasHandler st type.
Proof. unfold TaskQueue.hasHandler. intros ->. reflexivity. Qed.

(** While no stop has been requested the awaited [enqueue] puts its task
    into the queue, the promise settles, and the queue comes to rest. *)
Lemma awaitEnqueue_running (ws : WsServer) (now : Z) (payload : TaskPayload) (st : t) :
  TaskQueue.running (taskQueue st) ->
  TaskQueue.hasHandler (taskQueue st) (taskTypeOf payload) = true ->
  (awaitEnqueue ws now payload st).1.2 = [payload]
  /\ (awaitEnqueue ws now payload st).2 <> Suspended
  /\ TaskQueue.idle (taskQueue (awaitEnqueue ws now payload st).1.1)
  /\ TaskQueue.handlers (taskQueue (awaitEnqueue ws now payload st).1.1)
     = TaskQueue.handlers (taskQueue st).
Proof.
  intros [Hs Hshape] Hh.
  unfold awaitEnqueue, TaskQueue.enqueue. rewrite Hh.
  cbn [TaskOptions.priority TaskOptions.maxAttempts TaskOptions.none default from_option].
  set (task := TaskQueue.mkTask (TaskQueue.nextId (taskQueue st)) payload 0
                 (id 3%nat) now).
  set (pushed := TaskQueue.mk _ _ _ _ _ _ _).
  assert (Hstart : TaskQueue.running (TaskQueue.processQueue pushed)
                   /\ TaskQueue.handlers (TaskQueue.processQueue pushed)
                      = TaskQueue.handlers (taskQueue st)
                   /\ TaskQueue.waiting (TaskQueue.processQueue pushed)
                        (TaskQueue.nextId (taskQueue st))).
  { unfold TaskQueue.processQueue. subst pushed.
    cbn [TaskQueue.isProcessing TaskQueue.stopRequested TaskQueue.queue]. rewrite Hs.
    destruct (TaskQueue.inFlight (taskQueue st)) as [t0 |] eqn:Hf.
    - rewrite Hshape. cbn [orb].
      split; [unfold TaskQueue.running; cbn; auto |].
      split; [reflexivity |].
      left. cbn [TaskQueue.queue]. rewrite map_app. apply elem_of_app. right.
      cbn. left.
    - destruct Hshape as [Hp Hq]. rewrite Hp, Hq. cbn [orb app].
      rewrite TaskQueueFacts.loopHead_start; [| reflexivity | exact Hh].
      split; [unfold TaskQueue.running; cbn; auto |]. split; [reflexivity |].
      right. eexists. split; reflexivity. }
  destruct Hstart as (Hrun & Hhs & Hwait).
  unfold TaskQueue.run.
  destruct (TaskQueueFacts.runLoop_quiesces (taskHandler ws)
              (TaskQueue.turnsFor (TaskQueue.processQueue pushed))
              (TaskQueue.processQueue pushed) (pendingReplies st) Hrun (Nat.le_refl _))
    as (Hidle & Hhs' & Hsettle).
  specialize (Hsettle _ (or_introl Hwait)).
  destruct (TaskQueue.runLoop _ _ _ _) as [tq2 pending2]. cbn [fst snd] in *.
  split; [reflexivity |]. split; [| split; [exact Hidle | exact (eq_trans Hhs' Hhs)]].
  destruct Hsettle as [-> | [error ->]]; discriminate.
Qed.

Lemma awaitEnqueue_ready (ws : WsServer) (now : Z) (payload : TaskPayload) (st : t) :
  ready st ->
  sendMessages (awaitEnqueue ws now payload st).1.2
  = sendMessages (if TaskQueue.hasHandler (taskQueue st) (taskTypeOf payload)
                  then [payload] else [])
  /\ (awaitEnqueue ws now payload st).2 <> Suspended
  /\ ready (awaitEnqueue ws now payload st).1.1.
Proof.
  intros [Hidle Hsend].
  destruct (TaskQueue.hasHandler (taskQueue st) (taskTypeOf payload)) eqn:Hh.
  - destruct (awaitEnqueue_running ws now payload st Hidle Hh) as (Henq & Hc & Hidle' & Hhs).
    rewrite Henq. split; [reflexivity |]. split; [exact Hc |].
    split; [apply TaskQueueFacts.idle_running, Hidle' |].
    rewrite (hasHandler_handlers _ _ send_message Hhs). exact Hsend.
  - unfold awaitEnqueue, TaskQueue.enqueue. rewrite Hh. cbn.
    split; [reflexivity |]. split; [discriminate | split; assumption].
Qed.

Lemma sendReply_ready (ws : WsServer) (now : Z) (st : t) (m : QQMessage.t)
    (replyText pendingMessageId : string) (toolCalls : option (list ToolCallInfo.t)) :
  ready st ->
  sendMessages (sendReply ws now st m replyText pendingMessageId toolCalls).1.2 = [replyText]
  /\ (sendReply ws now st m replyText pendingMessageId toolCalls).2 <> Suspended
  /\ ready (sendReply ws now st m replyText pendingMessageId toolCalls).1.1.
Proof.
  intros Hready. unfold sendReply.
  match goal with
  | |- context [awaitEnqueue ws now ?payload st] =>
      destruct (awaitEnqueue_ready ws now payload st Hready) as (Henq & Hc & Hr);
      destruct (awaitEnqueue ws now payload st) as [[st1 enqueued] completion]
  end.
  cbn [fst snd taskTypeOf] in Henq, Hc, Hr. rewrite (proj2 Hready) in Henq.
  destruct completion; cbn; (split; [exact Henq |]; split; [try discriminate; exact Hc |]);
    exact Hr.
Qed.

Lemma sendReplies_ready (ws : WsServer) (now : Z) (primary : string * QQMessage.t)
    (toolCalls : option (list ToolCallInfo.t)) (contents : list string) :
  forall st, ready st ->
    sendMessages (sendReplies ws now st primary toolCalls contents).1.2
    = map formatReply contents
    /\ (sendReplies ws now st primary toolCalls contents).2 = Completed
    /\ ready (sendReplies ws now st primary toolCalls contents).1.1.
Proof.
  induction contents as [| replyContent rest IH]; intros st Hready; cbn [sendReplies].
  - split; [reflexivity |]. split; [reflexivity | exact Hready].
  - destruct (sendReply_ready ws now st primary.2 (formatReply replyContent) primary.1
                toolCalls Hready) as (Henq & Hc & Hr).
    destruct (sendReply ws now st primary.2 (formatReply replyContent) primary.1 toolCalls)
      as [[st1 enqueued1] completion].
    cbn [fst snd] in Henq, Hc, Hr.
    destruct (IH st1 Hr) as (Henq2 & Hc2 & Hr2).
    destruct (sendReplies ws now st1 primary toolCalls rest) as [[st2 enqueued2] completion2].
    cbn [fst snd] in Henq2, Hc2, Hr2.
    assert (Hgoal : sendMessages (enqueued1 ++ enqueued2) = map formatReply (replyContent :: rest)
                    /\ completion2 = Completed /\ ready st2).
    { split; [| split; assumption].
      unfold sendMessages in *. rewrite omap_app, Henq, Henq2. reflexivity. }
    destruct completion; [exact Hgoal | exact Hgoal | contradiction].
Qed.

Lemma enqueueThinkingTask_ready (ws : WsServer) (now : Z) (st : t) (content : string)
    (ids : list string) (contextId : option string) (aggregate : list string) :
  ready st ->
  sendMessages (enqueueThinkingTask ws now st content ids contextId aggregate).1.2 = []
  /\ (enqueueThinkingTask ws now st content ids contextId aggregate).2 = Completed
  /\ ready (enqueueThinkingTask ws now st content ids contextId aggregate).1.1.
Proof.
  intros Hready. unfold enqueueThinkingTask.
  match goal with
  | |- context [awaitEnqueue ws now ?payload st] =>
      destruct (awaitEnqueue_ready ws now payload st Hready) as (Henq & Hc & Hr);
      destruct (awaitEnqueue ws now payload st) as [[st1 enqueued] completion]
  end.
  cbn [fst snd taskTypeOf] in Henq, Hc, Hr.
  assert (Hnone : sendMessages enqueued = []).
  { rewrite Henq. destruct (TaskQueue.hasHandler _ _); reflexivity. }
  destruct completion; cbn; (split; [exact Hnone |]; split; [try reflexivity | exact Hr]).
  contradiction.
Qed.

Lemma enqueueTasks_ready (ws : WsServer) (now : Z) (primary : string * QQMessage.t)
    (ids : list string) (contextId : option string) (aggregate : list string)
    (toolCalls : option (list ToolCallInfo.t)) (tasks : list ChatTask) :
  forall st, ready st ->
    sendMessages (enqueueTasks ws now st (Some primary) ids contextId aggregate toolCalls
                    tasks).1.2
    = map formatReply (replyContents tasks)
    /\ (enqueueTasks ws now st (Some primary) ids contextId aggregate toolCalls tasks).2
       = Completed
    /\ ready (enqueueTasks ws now st (Some primary) ids contextId aggregate toolCalls
                tasks).1.1.
Proof.
  induction tasks as [| task rest IH]; intros st Hready; cbn [enqueueTasks].
  - split; [reflexivity |]. split; [reflexivity | exact Hready].
  - assert (Hstep :
      exists st1 enqueued1,
        (match task with
         | ThinkingTask content =>
             enqueueThinkingTask ws now st content ids contextId aggregate
         | ReplyTask content => sendReplies ws now st primary toolCalls content
         end) = (st1, enqueued1, Completed)
        /\ sendMessages enqueued1
           = map formatReply (match task with ReplyTask content => content | _ => [] end)
        /\ ready st1).
    { destruct task as [content | content].
      - destruct (enqueueThinkingTask_ready ws now st content ids contextId aggregate Hready)
          as (Henq & Hc & Hr).
        destruct (enqueueThinkingTask ws now st content ids contextId aggregate)
          as [[st1 enqueued1] completion]. cbn [fst snd] in *. subst completion. eauto.
      - destruct (sendReplies_ready ws now primary toolCalls content st Hready)
          as (Henq & Hc & Hr).
        destruct (sendReplies ws now st primary toolCalls content)
          as [[st1 enqueued1] completion]. cbn [fst snd] in *. subst completion. eauto. }
    destruct Hstep as (st1 & enqueued1 & -> & Henq1 & Hr1).
    destruct (IH st1 Hr1) as (Henq2 & Hc2 & Hr2).
    destruct (enqueueTasks ws now st1 (Some primary) ids contextId aggregate toolCalls rest)
      as [[st2 enqueued2] completion2].
    cbn [fst snd] in Henq2, Hc2, Hr2. cbn [fst snd].
    split; [| split; assumption].
    unfold sendMessages in *. rewrite omap_app, Henq1, Henq2.
    unfold replyContents. cbn [flat_map]. rewrite map_app. reflexivity.
Qed.

Lemma trimNonEmpty_nonblank (msgs : list string) :
  Forall (fun m => Js.trim m <> EmptyString) msgs ->
  trimNonEmpty msgs = map Js.trim msgs.
Proof.
  unfold trimNonEmpty. induction 1 as [| m msgs Hm _ IH]; [reflexivity |].
  cbn [map]. rewrite filter_cons. rewrite IH.
  destruct (Js.trim m) eqn:Ht; [contradiction |]. cbn.
  destruct (decide _) as [_ | Hn]; [reflexivity |]. exfalso. apply Hn. exact I.
Qed.

(** C9, amended.  For a processed batch whose decision is a reply
    carrying N message strings that are non-empty after trimming, with at
    least one pending correlation matching the batch, and a task queue that
    has not been asked to stop, exactly N [send_message] tasks enter the
    task queue, in the order of the strings; the text of each is its string
    trimmed of white space and cut to 1000 UTF-16 code units. *)
Theorem replies_enqueued_in_order (ws : WsServer) (now : Z) (st : t)
    (result : QueueProcessResult.t) (response : ChatResponse.t) (msgs : list string) :
  QueueProcessResult.processed result = true ->
  QueueProcessResult.response result = Some response ->
  ChatResponse.skipReply response <> Some true ->
  ChatResponse.tasks response = Some [ReplyTask msgs] ->
  Forall (fun m => Js.trim m <> EmptyString) msgs ->
  getPendingRepliesForMessages (extractMessageIdsFromResult result st) st <> [] ->
  ready st ->
  sendMessages (handleQueueFlushResult ws now st result).1.2
  = map (fun m => formatReply (Js.trim m)) msgs
  /\ length (sendMessages (handleQueueFlushResult ws now st result).1.2) = length msgs
  /\ (handleQueueFlushResult ws now st result).2 = Completed.
Proof.
  intros Hproc Hresp Hskip Htasks Hnonblank Hpending Hready.
  assert (Hmain :
    sendMessages (handleQueueFlushResult ws now st result).1.2
    = map (fun m => formatReply (Js.trim m)) msgs
    /\ (handleQueueFlushResult ws now st result).2 = Completed).
  { unfold handleQueueFlushResult. rewrite Hresp, Hproc.
    assert (Hs : default false (ChatResponse.skipReply response) = false).
    { destruct (ChatResponse.skipReply response) as [[|] |]; try reflexivity.
      exfalso. apply Hskip. reflexivity. }
    rewrite Hs. cbn [negb orb].
    destruct (getPendingRepliesForMessages (extractMessageIdsFromResult result st) st)
      as [| p0 pending] eqn:Hp; [contradiction |].
    unfold normalizeChatTasks. rewrite Htasks.
    assert (Hnorm : omap normalizeTask [ReplyTask msgs]
                    = match msgs with
                      | [] => []
                      | _ :: _ => [ReplyTask (map Js.trim msgs)]
                      end).
    { cbn -[trimNonEmpty]. rewrite (trimNonEmpty_nonblank msgs Hnonblank).
      destruct msgs; reflexivity. }
    rewrite Hnorm. clear Hnorm.
    destruct msgs as [| m0 msgs'].
    - cbn. split; reflexivity.
    - unfold enqueueChatTasks.
      assert (Hlast : exists primary, last (p0 :: pending) = Some primary).
      { destruct (last (p0 :: pending)) eqn:Hl; [eauto |].
        apply last_None in Hl. discriminate. }
      destruct Hlast as [primary ->].
      match goal with
      | |- context [enqueueTasks ws now st (Some primary) ?ids ?ctx ?agg ?tc ?tasks] =>
          destruct (enqueueTasks_ready ws now primary ids ctx agg tc tasks st Hready)
            as (Henq & Hc & _);
          destruct (enqueueTasks ws now st (Some primary) ids ctx agg tc tasks)
            as [[st1 enqueued] completion]
      end.
      cbn [fst snd] in Henq, Hc. subst completion. cbn [fst snd].
      split; [| reflexivity].
      rewrite Henq. unfold replyContents. cbn [flat_map]. rewrite app_nil_r.
      rewrite map_map. reflexivity. }
  destruct Hmain as [Hsend Hc]. split; [exact Hsend |]. split; [| exact Hc].
  rewrite Hsend. apply length_map.
Qed.

(** Two batches whose decision carries two non-empty strings and for
    which one [send_message] task enters the queue: after [shutdown()] of
    the task queue the first awaited promise never settles and the second
    reply is never enqueued; and a string of white space is dropped. *)
Lemma replies_not_all_enqueued :
  ready Examples.readyServer
  /\ sendMessages (handleQueueFlushResult Examples.connected Examples.t0
                     Examples.stoppedServer (Examples.replyResult ["a"; "b"])).1.2 = ["a"]
  /\ (handleQueueFlushResult Examples.connected Examples.t0
        Examples.stoppedServer (Examples.replyResult ["a"; "b"])).2 = Suspended
  /\ sendMessages (handleQueueFlushResult Examples.connected Examples.t0
                     Examples.readyServer (Examples.replyResult [" "; "b"])).1.2 = ["b"]
  /\ ~ (length (sendMessages (handleQueueFlushResult Examples.connected Examples.t0
                                Examples.stoppedServer
                                (Examples.replyResult ["a"; "b"])).1.2) = 2%nat).
Proof.
  split; [repeat split |]. split; [vm_compute; reflexivity |].
  split; [vm_compute; reflexivity |]. split; [vm_compute; reflexivity |].
  vm_compute. discriminate.
Qed.

Lemma replies_enqueued_in_order_witness :
  sendMessages (handleQueueFlushResult Examples.connected Examples.t0
                  Examples.readyServer (Examples.replyResult [" a "; "b"])).1.2 = ["a"; "b"].
Proof.
  refine (proj1 (replies_enqueued_in_order Examples.connected Examples.t0
                   Examples.readyServer (Examples.replyResult [" a "; "b"])
                   (ChatResponse.mk " a " Examples.t0 (Some 12) (Some false)
                      (Some "thinking") (Some [" a "; "b"]) (Some ["m1"])
                      (Some [ReplyTask [" a "; "b"]]) None)
                   [" a "; "b"] _ _ _ _ _ _ _)).
  - reflexivity.
  - reflexivity.
  - discriminate.
  - reflexivity.
  - repeat constructor; vm_compute; discriminate.
  - vm_compute. discriminate.
  - repeat split.
Defined.

End AgentServerFacts.

(** ** [JSON.parse]: the fuel is enough *)

Module JsonFacts.
Import Json.

Lemma skipWs_length (s : string) : (String.length (skipWs s) <= String.length s)%nat.
Proof. induction s as [| c s IH]; cbn; [lia |]. destruct (isWs c); cbn; lia. Qed.

Lemma digits_length (s : string) : forall acc count m count' r,
  digits s acc count = (m, count', r) ->
  (String.length r <= String.length s)%nat
  /\ ((count < count')%nat -> (String.length r < String.length s)%nat)
  /\ (count <= count')%nat
  /\ match s with
     | String c _ => isDigit c = true -> (count < count')%nat
     | EmptyString => True
     end.
Proof.
  induction s as [| c s IH]; intros acc count m count' r Hd; cbn in Hd.
  - injection Hd as <- <- <-. cbn. lia.
  - destruct (isDigit c) eqn:Hc.
    + apply IH in Hd. cbn. repeat split; try lia.
    + injection Hd as <- <- <-. cbn. repeat split; try lia; discriminate.
Qed.

Lemma dropPrefix_length (word s rest : string) :
  dropPrefix word s = Some rest ->
  (String.length rest + String.length word = String.length s)%nat.
Proof.
  revert s. induction word as [| a word IH]; intros s Hd; cbn in Hd.
  - injection Hd as <-. cbn. lia.
  - destruct s as [| b s]; [discriminate |]. destruct (Ascii.eqb a b); [| discriminate].
    apply IH in Hd. cbn. lia.
Qed.

Lemma stringBody_length_aux (n : nat) : forall s body rest,
  (String.length s <= n)%nat ->
  stringBody s = Some (body, rest) -> (String.length rest < String.length s)%nat.
Proof.
  induction n as [| n IH]; intros s body rest Hn Hb.
  - destruct s; [discriminate | cbn in Hn; lia].
  - destruct s as [| c r]; [discriminate |]. cbn [stringBody] in Hb.
    repeat case_match; simplify_eq; cbn [String.length] in *; try lia.
    all: match goal with
         | H : stringBody ?x = Some (_, ?rest) |- _ =>
             apply IH in H; cbn [String.length] in *; try lia
         end.
Qed.

Lemma stringBody_length (s body rest : string) :
  stringBody s = Some (body, rest) -> (String.length rest < String.length s)%nat.
Proof. apply (stringBody_length_aux (String.length s)). lia. Qed.

Lemma parseNumber_length (s : string) (v : Value) (rest : string) :
  parseNumber s = Some (v, rest) -> (String.length rest < String.length s)%nat.
Proof.
  unfold parseNumber. intros Hp.
  repeat case_match; simplify_eq; cbn [String.length] in *;
    repeat match goal with
           | H : digits _ _ _ = _ |- _ =>
               apply digits_length in H; destruct H as (? & ? & ? & ?)
           end;
    repeat match goal with
           | H : isDigit ?a = true -> _, H1 : isDigit ?a = true |- _ => specialize (H H1)
           end;
    cbn [String.length] in *; try lia.
Qed.

Lemma expect_length (word : string) (v v' : Value) (s rest : string) :
  expect word v s = Some (v', rest) ->
  (String.length rest + String.length word = String.length s)%nat.
Proof.
  unfold expect. destruct (dropPrefix word s) as [r |] eqn:Hd; [| discriminate].
  intros [= <- <-]. apply dropPrefix_length, Hd.
Qed.

Ltac length_facts :=
  repeat match goal with
         | H : skipWs ?s = _ |- _ =>
             let L := fresh "L" in
             pose proof (skipWs_length s) as L; rewrite H in L; revert H
         | H : expect _ _ _ = Some _ |- _ =>
             let L := fresh "L" in pose proof (expect_length _ _ _ _ _ H) as L; revert H
         | H : stringBody _ = Some _ |- _ =>
             let L := fresh "L" in pose proof (stringBody_length _ _ _ H) as L; revert H
         | H : parseNumber _ = Some _ |- _ =>
             let L := fresh "L" in pose proof (parseNumber_length _ _ _ H) as L; revert H
         end;
  intros; cbn [String.length] in *.

Ltac replay :=
  repeat match goal with
         | H : ?x = _ |- context [?x] => rewrite H
         end.

Ltac induction_facts IHv IHe IHm n :=
  repeat match goal with
         | H : parseValue n _ = Some _ |- _ =>
             let L := fresh "L" in let F := fresh "F" in
             pose proof (IHv _ _ _ H) as [L F]; revert H
         | H : parseElements n _ = Some _ |- _ =>
             let L := fresh "L" in let F := fresh "F" in
             pose proof (IHe _ _ _ H) as [L F]; revert H
         | H : parseMembers n _ = Some _ |- _ =>
             let L := fresh "L" in let F := fresh "F" in
             pose proof (IHm _ _ _ H) as [L F]; revert H
         end;
  intros.

Ltac refuel :=
  repeat match goal with
         | F : forall m : nat, _ -> ?f m ?s = _ |- context [?f ?m' ?s] =>
             rewrite (F m') by lia
         | H : ?x = _ |- context [?x] => rewrite H
         end.

Lemma parse_adequate (n : nat) :
  adequate parseValue n /\ adequate parseElements n /\ adequate parseMembers n.
Proof.
  induction n as [| n (IHv & IHe & IHm)].
  - split; [| split]; intros s v r Hp; discriminate.
  - split; [| split]; intros s v r Hp.
    + cbn [parseValue] in Hp.
      repeat case_match; simplify_eq; induction_facts IHv IHe IHm n; length_facts.
      all: (split; [lia |]).
      all: intros m Hm; destruct m as [| m]; [lia |]; cbn [parseValue]; refuel.
      all: reflexivity.
    + cbn [parseElements] in Hp.
      repeat case_match; simplify_eq; induction_facts IHv IHe IHm n; length_facts.
      all: (split; [lia |]).
      all: intros m Hm; destruct m as [| m]; [lia |]; cbn [parseElements]; refuel.
      all: reflexivity.
    + cbn [parseMembers] in Hp.
      repeat case_match; simplify_eq; induction_facts IHv IHe IHm n; length_facts.
      all: (split; [lia |]).
      all: intros m Hm; destruct m as [| m]; [lia |]; cbn [parseMembers]; refuel.
      all: reflexivity.
Qed.

(** Whatever some amount of fuel parses, the fuel [parse] supplies parses
    too: [parse] never fails for lack of fuel. *)
Lemma parse_fuel_enough (n : nat) (s rest : string) (v : Value) :
  parseValue n s = Some (v, rest) ->
  parseValue (2 * String.length s + 2) s = Some (v, rest).
Proof.
  intros Hp. destruct (parse_adequate n) as (Hv & _ & _).
  destruct (Hv _ _ _ Hp) as [_ F]. apply F. lia.
Qed.

Lemma parse_None_syntax (s : string) :
  parse s = None ->
  forall n v rest, parseValue n s = Some (v, rest) -> skipWs rest <> EmptyString.
Proof.
  unfold parse. intros Hn n v rest Hp Hws.
  rewrite (parse_fuel_enough _ _ _ _ Hp), Hws in Hn. discriminate.
Qed.

End JsonFacts.

(** ** LLM client *)

Module GeminiClientFacts.

Import GeminiClient.

Lemma trim_nonempty_truthy (text : string) :
  Js.trim text <> EmptyString -> Js.truthyStr text = true /\ Js.truthyStr (Js.trim text) = true.
Proof.
  intros Hne. split.
  - destruct text; [contradiction | reflexivity].
  - destruct (Js.trim text); [contradiction | reflexivity].
Qed.

(** A text that [JSON.parse] rejects after cleaning is returned trimmed,
    as the one message. *)
Lemma parseTextResponse_fallback (text : string) :
  Json.parse (cleanText text) = None -> Js.trim text <> EmptyString ->
  parseTextResponse text = mkParsed (Some [Json.Str (Js.trim text)]) None None.
Proof.
  intros Hparse Hne. destruct (trim_nonempty_truthy text Hne) as [Ht Htt].
  unfold parseTextResponse, parseStructured. rewrite Ht, Hparse, Htt. reflexivity.
Qed.

(** C1, amended.  For a response text of the model that fails JSON
    parsing and is not blank, [generateResponse] calls the model once, with
    the prompt it built: it issues no reformat request.  It returns a reply
    decision whose messages are the trimmed text as a single entry and
    whose thinking is the placeholder that stands in for a missing
    [thinking] field. *)
Theorem generateResponse_parse_failure (estimateTokens : string -> Z)
    (buildPromptWithThinking : string -> option string -> string)
    (backend : Backend) (clock : nat -> Z) (prompt : string) (context : option string)
    (st : t) (text : string) (totalTokenCount : option Z) :
  backend 0%nat (buildPromptWithThinking prompt context)
  = Generated (Some text) totalTokenCount ->
  Json.parse (cleanText text) = None ->
  Js.trim text <> EmptyString ->
  exists response,
    generateResponse estimateTokens buildPromptWithThinking backend clock prompt context st
    = (inl response, [buildPromptWithThinking prompt context], st)
    /\ replies response = Some [Json.Str (Js.trim text)]
    /\ content response = Json.Str (Js.trim text)
    /\ response_thinking response = "处理用户请求中..."
    /\ skipReply response = false
    /\ tasks response = [reply [Json.Str (Js.trim text)]]
    /\ toolCalls response = [reply_message [Json.Str (Js.trim text)] None].
Proof.
  intros Hbackend Hparse Hne.
  unfold generateResponse, MAX_RETRIES. cbn [executeWithRetry]. rewrite Hbackend.
  eexists. split; [reflexivity |].
  unfold buildResponse.
  change (default EmptyString (Some text)) with text.
  rewrite (parseTextResponse_fallback text Hparse Hne). cbn.
  repeat split; reflexivity.
Qed.

(** The model answers "not-json", and would answer "still-not-json" to a
    reformat request: the client sends one prompt, not two, and the
    thinking of the decision is not "format fallback". *)
Lemma generateResponse_no_reformat :
  exists response,
    generateResponse Examples.tokensOf Examples.promptOf Examples.notJsonBackend
      Examples.clock "hi" None Examples.client
    = (inl response, [Examples.promptOf "hi" None], Examples.client)
    /\ replies response = Some [Json.Str "not-json"]
    /\ response_thinking response <> "format fallback"
    /\ length [Examples.promptOf "hi" None] <> 2%nat.
Proof.
  eexists. split; [vm_compute; reflexivity |].
  split; [reflexivity |]. split; [discriminate | cbn; lia].
Qed.

Lemma generateResponse_parse_failure_witness :
  exists response,
    generateResponse Examples.tokensOf Examples.promptOf Examples.notJsonBackend
      Examples.clock "hi" None Examples.client
    = (inl response, [Examples.promptOf "hi" None], Examples.client)
    /\ replies response = Some [Json.Str "not-json"]
    /\ response_thinking response = "处理用户请求中...".
Proof.
  destruct (generateResponse_parse_failure Examples.tokensOf Examples.promptOf
              Examples.notJsonBackend Examples.clock "hi" None Examples.client
              "not-json" None)
    as (response & Hrun & Hreplies & _ & Hthinking & _).
  - reflexivity.
  - vm_compute. reflexivity.
  - vm_compute. discriminate.
  - exists response. split; [exact Hrun |]. split; [exact Hreplies | exact Hthinking].
Defined.

End GeminiClientFacts.

(** ** Credential pool: expiry, reports and manual operations *)

Module PoolFacts.

Import ApiKeyManager.

Lemma getCurrentApiKey_keyStatus (now : Z) (st : t) :
  keyStatus (getCurrentApiKey now st).2 = keyStatus (cleanExpiredBlocks now st).
Proof. unfold getCurrentApiKey. destruct (find _ _); reflexivity. Qed.

Lemma find_seq_first (f : nat -> bool) (n : nat) :
  f 0%nat = true -> find f (seq 0 (S n)) = Some 0%nat.
Proof. intros Hf. cbn. rewrite Hf. reflexivity. Qed.

(** X1.  A key blocked at an instant [t0] after the epoch is released by
    [getCurrentApiKey] once more than an hour has passed since [t0]: its
    record is then unblocked, with error count 0 and no block instant; and
    when it is the key under the cursor, it is the key that is returned. *)
Theorem block_expires_after_an_hour (st : t) (now : Z) (k : string) (t0 : Z) :
  blockedAt st k t0 -> 0 < t0 -> BLOCK_DURATION_MS < now - t0 ->
  (exists s',
     keyStatus (getCurrentApiKey now st).2 !! k = Some s'
     /\ isBlocked s' = false /\ errorCount s' = 0 /\ blockStartTime s' = None)
  /\ (apiKeys st !! currentKeyIndex st = Some k -> (getCurrentApiKey now st).1 = k).
Proof.
  intros (s & Hs & Hb & Ht) Hpos Hexp.
  assert (Hclean : cleanStatus now s = mkStatus (key s) false 0 (lastErrorTime s) None).
  { unfold cleanStatus. rewrite Hb, Ht. cbn.
    destruct (Z.eqb_spec t0 0) as [-> | _]; [lia |]. cbn.
    destruct (Z.ltb_spec BLOCK_DURATION_MS (now - t0)); [reflexivity | lia]. }
  split.
  - rewrite getCurrentApiKey_keyStatus, ApiKeyFacts.cleanExpired_lookup, Hs. cbn.
    rewrite Hclean. eexists. split; [reflexivity |]. auto.
  - intros Hcur. unfold getCurrentApiKey.
    change (apiKeys (cleanExpiredBlocks now st)) with (apiKeys st).
    change (currentKeyIndex (cleanExpiredBlocks now st)) with (currentKeyIndex st).
    pose proof (lookup_lt_Some _ _ _ Hcur) as Hlt.
    destruct (length (apiKeys st)) as [| n] eqn:Hn; [lia |].
    rewrite find_seq_first.
    + cbn [fst]. rewrite Nat.add_0_r, Nat.mod_small by lia. rewrite Hcur. reflexivity.
    + unfold usableAt.
      change (apiKeys (cleanExpiredBlocks now st)) with (apiKeys st).
      change (currentKeyIndex (cleanExpiredBlocks now st)) with (currentKeyIndex st).
      rewrite Hn, Nat.add_0_r, Nat.mod_small by lia. rewrite Hcur.
      rewrite ApiKeyFacts.cleanExpired_lookup, Hs. cbn. rewrite Hclean. reflexivity.
Qed.

(** X2.  [recordError] changes nothing for a key without a record or for
    an error that is not a rate-limit error.  For a rate-limit error on a
    known key the error count becomes 1 when the last error is more than five
    minutes old and the old count plus one otherwise, and [lastErrorTime]
    becomes the present instant; the key is blocked at that instant when the
    count has reached five, else its block state is as before.  The record of
    no other key changes. *)
Theorem recordError_counts_rate_limits (now : Z) (apiKey : string)
    (error : option JsError) (st : t) :
  (keyStatus st !! apiKey = None \/ is429Error error = false ->
   recordError now apiKey error st = st)
  /\ (forall s, keyStatus st !! apiKey = Some s -> is429Error error = true ->
       exists s',
         keyStatus (recordError now apiKey error st) !! apiKey = Some s'
         /\ errorCount s'
            = (if ERROR_WINDOW_MS <? now - lastErrorTime s then 0 else errorCount s) + 1
         /\ lastErrorTime s' = now
         /\ (MAX_ERRORS_IN_WINDOW <= errorCount s' ->
             isBlocked s' = true /\ blockStartTime s' = Some now)
         /\ (errorCount s' < MAX_ERRORS_IN_WINDOW ->
             isBlocked s' = isBlocked s /\ blockStartTime s' = blockStartTime s))
  /\ (forall k, k <> apiKey ->
       keyStatus (recordError now apiKey error st) !! k = keyStatus st !! k).
Proof.
  split; [| split].
  - unfold recordError. intros [-> | ->]; [reflexivity |].
    destruct (keyStatus st !! apiKey); reflexivity.
  - intros s Hs H429. apply ApiKeyFacts.recordError_count; assumption.
  - intros k Hne. unfold recordError.
    destruct (keyStatus st !! apiKey) as [s |] eqn:Hs; [| reflexivity].
    destruct (is429Error error); [| reflexivity].
    destruct (_ <=? _).
    + unfold blockApiKey. cbn [keyStatus apiKeys currentKeyIndex].
      rewrite lookup_insert_eq.
      match goal with
      | |- context [if ?c then switchToNextKey ?a else ?b] =>
          assert (Hk : keyStatus (if c then switchToNextKey a else b) = keyStatus b)
      end.
      { destruct (_ <? _)%nat; [| reflexivity].
        unfold switchToNextKey. destruct (find _ _); reflexivity. }
      rewrite Hk. cbn [keyStatus].
      rewrite !lookup_insert_ne by congruence. reflexivity.
    + cbn [keyStatus]. rewrite lookup_insert_ne by congruence. reflexivity.
Qed.

Lemma find_exists {A} (f : A -> bool) (l : list A) (x : A) :
  List.In x l -> f x = true -> exists y, find f l = Some y /\ f y = true.
Proof.
  intros Hin Hf. destruct (find f l) as [y |] eqn:Hfind.
  - exists y. split; [reflexivity |]. apply (List.find_some _ _ Hfind).
  - rewrite (List.find_none _ _ Hfind x Hin) in Hf. discriminate.
Qed.

(** An index other than the cursor is reached by an offset between 1 and
    [n - 1]. *)
Lemma offset_reaches_other (n cur j : nat) :
  (cur < n)%nat -> (j < n)%nat -> j <> cur ->
  exists i, List.In i (seq 1 (n - 1)) /\ ((cur + i) mod n = j)%nat.
Proof.
  intros Hc Hj Hne.
  destruct (ApiKeyFacts.offset_reaches n cur j Hj) as (i & Hi & Hmod).
  exists i. split; [| exact Hmod].
  apply List.in_seq. destruct i as [| i]; [| lia].
  rewrite Nat.add_0_r, Nat.mod_small in Hmod by lia. congruence.
Qed.

(** X3.  Blocking the key under the cursor, while some other key of the
    list is not blocked, moves the cursor to a key that is not blocked and is
    not the blocked one; the blocked key keeps its counters and carries the
    instant of the block. *)
Theorem blocking_the_current_key_moves_the_cursor (now : Z) (st : t)
    (k k' : string) (j : nat) (s s' : ApiKeyStatus) :
  apiKeys st !! currentKeyIndex st = Some k ->
  keyStatus st !! k = Some s ->
  apiKeys st !! j = Some k' -> k' <> k ->
  keyStatus st !! k' = Some s' -> isBlocked s' = false ->
  exists r sr,
    apiKeys st !! currentKeyIndex (blockApiKey now k st) = Some r
    /\ r <> k
    /\ keyStatus (blockApiKey now k st) !! r = Some sr
    /\ isBlocked sr = false
    /\ keyStatus (blockApiKey now k st) !! k
       = Some (mkStatus (key s) true (errorCount s) (lastErrorTime s) (Some now)).
Proof.
  intros Hcur Hs Hj Hne Hs' Hfree.
  unfold blockApiKey. rewrite Hs.
  set (st1 := {| apiKeys := apiKeys st;
                 keyStatus := <[k := mkStatus (key s) true (errorCount s)
                                       (lastErrorTime s) (Some now)]> (keyStatus st);
                 currentKeyIndex := currentKeyIndex st |}).
  assert (Havail : (0 <? getAvailableKeysCount st1)%nat = true).
  { apply Nat.ltb_lt. unfold getAvailableKeysCount.
    assert (Hin : (k', s') ∈ filter (fun e => isBlocked e.2 = false) (entries st1)).
    { apply list_elem_of_filter. split; [exact Hfree |].
      apply ApiKeyFacts.elem_of_entries. split.
      - eapply list_elem_of_lookup_2. exact Hj.
      - subst st1. cbn. rewrite lookup_insert_ne by congruence. exact Hs'. }
    destruct (filter _ _); [inversion Hin | cbn; lia]. }
  rewrite Havail.
  pose proof (lookup_lt_Some _ _ _ Hcur) as Hclt.
  pose proof (lookup_lt_Some _ _ _ Hj) as Hjlt.
  assert (Hjne : j <> currentKeyIndex st) by (intros ->; congruence).
  destruct (offset_reaches_other _ _ _ Hclt Hjlt Hjne) as (i & Hi & Hmod).
  assert (Hus : usableAt st1 i = true).
  { unfold usableAt. subst st1. cbn. rewrite Hmod, Hj.
    rewrite lookup_insert_ne by congruence. rewrite Hs', Hfree. reflexivity. }
  destruct (find_exists (usableAt st1) _ i Hi Hus) as (i0 & Hfind & Hus0).
  unfold switchToNextKey.
  change (apiKeys st1) with (apiKeys st). rewrite Hfind.
  cbn [apiKeys keyStatus currentKeyIndex].
  unfold usableAt in Hus0. cbn [apiKeys keyStatus currentKeyIndex st1] in Hus0.
  destruct (apiKeys st !! ((currentKeyIndex st + i0) mod length (apiKeys st))%nat)
    as [r |] eqn:Hr; [| discriminate].
  destruct (decide (r = k)) as [-> | Hrk].
  { rewrite lookup_insert_eq in Hus0. discriminate. }
  rewrite lookup_insert_ne in Hus0 by congruence.
  destruct (keyStatus st !! r) as [sr |] eqn:Hsr; [| discriminate].
  exists r, sr. subst st1. cbn [keyStatus currentKeyIndex].
  split; [exact Hr |]. split; [exact Hrk |].
  split; [rewrite lookup_insert_ne by congruence; exact Hsr |].
  split; [destruct (isBlocked sr); [discriminate | reflexivity] |].
  apply lookup_insert_eq.
Qed.

Lemma cleanStatus_idempotent (now : Z) (s : ApiKeyStatus) :
  cleanStatus now (cleanStatus now s) = cleanStatus now s.
Proof.
  unfold cleanStatus.
  destruct (isBlocked s) eqn:Hb; cbn; [| rewrite Hb; reflexivity].
  destruct (blockStartTime s) as [t0 |] eqn:Ht; cbn.
  - destruct (negb (t0 =? 0)) eqn:Hz; cbn.
    + destruct (BLOCK_DURATION_MS <? now - t0) eqn:Hexp; cbn; [reflexivity |].
      rewrite Hb, Ht. cbn. rewrite Hz, Hexp. reflexivity.
    + rewrite Hb, Ht. cbn. rewrite Hz. reflexivity.
  - rewrite Hb, Ht. reflexivity.
Qed.

Lemma cleanExpiredBlocks_idempotent (now : Z) (st : t) :
  cleanExpiredBlocks now (cleanExpiredBlocks now st) = cleanExpiredBlocks now st.
Proof.
  unfold cleanExpiredBlocks. cbn. f_equal.
  rewrite <- map_fmap_compose. apply map_fmap_ext.
  intros i x _. apply cleanStatus_idempotent.
Qed.

Lemma getCurrentApiKey_swept (now : Z) (st : t) :
  getCurrentApiKey now (cleanExpiredBlocks now st) = getCurrentApiKey now st.
Proof. unfold getCurrentApiKey. rewrite cleanExpiredBlocks_idempotent. reflexivity. Qed.

(** X4.  In a well-formed pool none of whose block instants lies in the
    future, [getStatus] answers and leaves the pool as [getCurrentApiKey]
    does.  The report counts all keys, its available and blocked counts add
    up to that total, and it holds one detail for each key in the order of
    the list, under the key's ten-character preview.  A detail says blocked
    exactly for the keys blocked no longer than an hour; these carry the
    remaining minutes, a number from 0 to 60, and the others carry none. *)
Theorem getStatus_reports_live_blocks (now : Z) (st : t) :
  wellFormed st ->
  (forall k t0, blockedAt st k t0 -> t0 <= now) ->
  exists report,
    getStatus now st = Some (report, (getCurrentApiKey now st).2)
    /\ totalKeys report = length (apiKeys st)
    /\ Z.of_nat (availableKeys report) + blockedKeys report = Z.of_nat (totalKeys report)
    /\ Forall2 (fun k d =>
                  keyPreview d = previewOf k
                  /\ (detail_isBlocked d = true <-> stillBlocked now st k)
                  /\ (detail_isBlocked d = true ->
                      exists m, blockTimeRemaining d = Some m /\ 0 <= m <= 60)
                  /\ (detail_isBlocked d = false -> blockTimeRemaining d = None))
               (apiKeys st) (keyDetails report).
Proof.
  intros Hwf Hpast. unfold getStatus.
  change (apiKeys (cleanExpiredBlocks now st)) with (apiKeys st).
  destruct (mapM (fun k => keyDetailOf now k <$> keyStatus (cleanExpiredBlocks now st) !! k)
              (apiKeys st)) as [details |] eqn:Hmap.
  - rewrite getCurrentApiKey_swept.
    destruct (getCurrentApiKey now st) as [current st'] eqn:Hcur.
    eexists. split; [reflexivity |]. cbn.
    split; [reflexivity |]. split; [lia |].
    apply mapM_Some_1 in Hmap.
    eapply Forall2_impl; [exact Hmap |].
    intros k d Hd. cbv beta in Hd.
    rewrite ApiKeyFacts.cleanExpired_lookup in Hd.
    destruct (keyStatus st !! k) as [s |] eqn:Hs; [| discriminate].
    cbn in Hd. injection Hd as <-.
    pose proof (ApiKeyFacts.swept_blocked_iff now st k s Hwf Hs) as Hiff.
    unfold keyDetailOf; cbn.
    split; [reflexivity |]. split; [exact Hiff |].
    destruct (isBlocked (cleanStatus now s)) eqn:Hb; cbn.
    + split; [| discriminate]. intros _.
      destruct (proj1 Hiff eq_refl) as (t0 & (s1 & Hs1 & Hb1 & Ht1) & Hle).
      rewrite Hs in Hs1. injection Hs1 as <-.
      destruct (wf_blocked st Hwf k s Hs Hb1) as (t1 & Ht1' & Hpos).
      rewrite Ht1 in Ht1'. injection Ht1' as <-.
      destruct (ApiKeyFacts.cleanStatus_blocked now s t0 Hb1 Ht1 Hpos) as [Hkeep _].
      rewrite (Hkeep Hle), Ht1. cbn.
      destruct (Z.eqb_spec t0 0) as [-> | _]; [lia |]. cbn.
      eexists. split; [reflexivity |].
      assert (Hnow : t0 <= now) by (apply (Hpast k); exists s; auto).
      unfold BLOCK_DURATION_MS in *.
      assert (0 <= (60 * 60 * 1000 - (now - t0)) / 60000 <= 60).
      { split.
        - apply Z.div_pos; lia.
        - apply Z.div_le_upper_bound; lia. }
      lia.
    + split; [discriminate | reflexivity].
  - exfalso.
    assert (Hsome : is_Some (mapM (fun k => keyDetailOf now k
                                            <$> keyStatus (cleanExpiredBlocks now st) !! k)
                               (apiKeys st))).
    { apply mapM_is_Some. apply Forall_forall. intros k Hk. unfold compose.
      rewrite ApiKeyFacts.cleanExpired_lookup.
      destruct (wf_keys st Hwf k Hk) as [_ [s Hs]]. rewrite Hs. cbn. eauto. }
    rewrite Hmap in Hsome. destruct Hsome as [? ?]. discriminate.
Qed.

Lemma classic_stillBlocked (now : Z) (st : t) (k : string) :
  stillBlocked now st k \/ ~ stillBlocked now st k.
Proof.
  destruct (keyStatus st !! k) as [s |] eqn:Hs.
  - destruct (isBlocked s) eqn:Hb.
    + destruct (blockStartTime s) as [t0 |] eqn:Ht.
      * destruct (Z.le_gt_cases (now - t0) BLOCK_DURATION_MS) as [Hle | Hgt].
        -- left. exists t0. split; [exists s; auto | exact Hle].
        -- right. intros (t1 & (s1 & Hs1 & _ & Ht1) & Hle).
           assert (s1 = s) by congruence. subst s1.
           assert (t1 = t0) by congruence. lia.
      * right. intros (t1 & (s1 & Hs1 & _ & Ht1) & _). congruence.
    + right. intros (t1 & (s1 & Hs1 & Hb1 & _) & _). congruence.
  - right. intros (t1 & (s1 & Hs1 & _) & _). congruence.
Qed.

Lemma usableAt_key (st : t) (i : nat) :
  usableAt st i = true ->
  exists k s,
    apiKeys st !! ((currentKeyIndex st + i) mod length (apiKeys st))%nat = Some k
    /\ keyStatus st !! k = Some s /\ isBlocked s = false.
Proof.
  unfold usableAt. intros Hus.
  destruct (apiKeys st !! _) as [k |]; [| discriminate].
  destruct (keyStatus st !! k) as [s |] eqn:Hs; [| discriminate].
  exists k, s. split; [reflexivity |]. split; [exact Hs |].
  destruct (isBlocked s); [discriminate | reflexivity].
Qed.

(** What [switchToNext] returns: the key under the cursor when no offset
    from 1 to [n - 1] leads to a usable key, else the first usable key at
    such an offset, to which the cursor moves. *)
Lemma switchToNext_spec (now : Z) (st : t) :
  wellFormed st ->
  ((switchToNext now st).1 = default EmptyString (apiKeys st !! currentKeyIndex st)
   /\ forall j k', j <> currentKeyIndex st -> (currentKeyIndex st < length (apiKeys st))%nat ->
                   apiKeys st !! j = Some k' -> stillBlocked now st k')
  \/ (exists i,
        (1 <= i < length (apiKeys st))%nat
        /\ apiKeys st !! ((currentKeyIndex st + i) mod length (apiKeys st))%nat
           = Some (switchToNext now st).1
        /\ currentKeyIndex (switchToNext now st).2
           = ((currentKeyIndex st + i) mod length (apiKeys st))%nat
        /\ ~ stillBlocked now st (switchToNext now st).1).
Proof.
  intros Hwf. unfold switchToNext.
  change (apiKeys (cleanExpiredBlocks now st)) with (apiKeys st).
  change (currentKeyIndex (cleanExpiredBlocks now st)) with (currentKeyIndex st).
  destruct (find (usableAt (cleanExpiredBlocks now st)) (seq 1 (length (apiKeys st) - 1)))
    as [i |] eqn:Hfind.
  - right. apply List.find_some in Hfind. destruct Hfind as [Hin Hus].
    apply List.in_seq in Hin.
    destruct (usableAt_key _ _ Hus) as (k & s & Hk & _ & _).
    change (apiKeys (cleanExpiredBlocks now st)) with (apiKeys st) in Hk.
    change (currentKeyIndex (cleanExpiredBlocks now st)) with (currentKeyIndex st) in Hk.
    exists i. cbn. rewrite Hk. cbn.
    split; [lia |]. split; [reflexivity |]. split; [reflexivity |].
    apply (ApiKeyFacts.usableAt_swept now st i k Hwf Hk). exact Hus.
  - left. split; [reflexivity |].
    intros j k' Hne Hclt Hj.
    pose proof (lookup_lt_Some _ _ _ Hj) as Hjlt.
    destruct (offset_reaches_other _ _ _ Hclt Hjlt Hne) as (i & Hi & Hmod).
    pose proof (List.find_none _ _ Hfind i Hi) as Hnone.
    rewrite <- Hmod in Hj.
    destruct (classic_stillBlocked now st k') as [Hb | Hfree]; [exact Hb |].
    apply (ApiKeyFacts.usableAt_swept now st i k' Hwf Hj) in Hfree.
    rewrite Hfree in Hnone. discriminate.
Qed.

Lemma offset_moves (n cur i : nat) :
  (cur < n)%nat -> (1 <= i < n)%nat -> ((cur + i) mod n)%nat <> cur.
Proof.
  intros Hc Hi.
  destruct (Nat.lt_ge_cases (cur + i) n) as [Hlt | Hge].
  - rewrite Nat.mod_small by exact Hlt. lia.
  - rewrite <- (Nat.mod_unique (cur + i) n 1 (cur + i - n)); lia.
Qed.

(** X5.  For a client that holds the key under the cursor of a
    well-formed pool: when [forceKeySwitch] returns, the client holds another
    key, which is the key under the new cursor and is not blocked; when it
    throws, the client keeps its key.  It throws when every other key of the
    pool is blocked, and, the keys being distinct, it returns when some other
    key is not blocked. *)
Theorem forceKeySwitch_outcome (now : Z) (st : GeminiClient.t) :
  wellFormed (GeminiClient.keyManager st) ->
  apiKeys (GeminiClient.keyManager st) !! currentKeyIndex (GeminiClient.keyManager st)
  = Some (GeminiClient.currentApiKey st) ->
  let km := GeminiClient.keyManager st in
  let r := GeminiClient.forceKeySwitch now st in
  (r.1 = None ->
     GeminiClient.currentApiKey r.2 <> GeminiClient.currentApiKey st
     /\ apiKeys km !! currentKeyIndex (GeminiClient.keyManager r.2)
        = Some (GeminiClient.currentApiKey r.2)
     /\ ~ stillBlocked now km (GeminiClient.currentApiKey r.2))
  /\ (r.1 <> None -> GeminiClient.currentApiKey r.2 = GeminiClient.currentApiKey st)
  /\ ((forall k', k' ∈ apiKeys km -> k' <> GeminiClient.currentApiKey st ->
                  stillBlocked now km k') ->
      r.1 <> None)
  /\ (NoDup (apiKeys km) ->
      (exists k', k' ∈ apiKeys km /\ k' <> GeminiClient.currentApiKey st
                  /\ ~ stillBlocked now km k') ->
      r.1 = None).
Proof.
  intros Hwf Hsync km r. subst r. unfold GeminiClient.forceKeySwitch. fold km.
  pose proof (switchToNext_spec now km Hwf) as Hspec.
  pose proof (lookup_lt_Some _ _ _ Hsync) as Hclt. fold km in Hclt, Hsync.
  destruct (switchToNext now km) as [newKey km'] eqn:Hsw. cbn [fst snd] in Hspec.
  destruct (String.eqb_spec (GeminiClient.currentApiKey st) newKey) as [Heq | Hneq];
    cbn [fst snd GeminiClient.currentApiKey GeminiClient.keyManager].
  - split; [discriminate |]. split; [reflexivity |]. split; [discriminate |].
    intros Hnd (k' & Hin & Hne & Hfree). exfalso.
    apply list_elem_of_lookup_1 in Hin. destruct Hin as [j Hj].
    assert (Hjne : j <> currentKeyIndex km) by (intros ->; congruence).
    destruct Hspec as [[_ Hall] | (i & Hi & Hkey & _ & _)].
    + apply Hfree. exact (Hall j k' Hjne Hclt Hj).
    + rewrite <- Heq in Hkey.
      pose proof (NoDup_lookup _ _ _ _ Hnd Hkey Hsync) as Hidx.
      exact (offset_moves _ _ _ Hclt Hi Hidx).
  - split; [| split; [congruence | split]].
    + intros _. split; [congruence |].
      destruct Hspec as [[Hold _] | (i & Hi & Hkey & Hidx & Hfree)].
      * rewrite Hsync in Hold. cbn in Hold. congruence.
      * rewrite Hidx. auto.
    + intros Hall. exfalso.
      destruct Hspec as [[Hold _] | (i & Hi & Hkey & Hidx & Hfree)].
      * rewrite Hsync in Hold. cbn in Hold. congruence.
      * apply Hfree, Hall; [| congruence].
        eapply list_elem_of_lookup_2. exact Hkey.
    + intros _ _. reflexivity.
Qed.

Lemma oneBlocked_keyA : blockedAt Examples.oneBlocked "key-A" Examples.t0.
Proof. eexists. split; [vm_compute; reflexivity | split; reflexivity]. Qed.

Lemma block_expires_after_an_hour_witness :
  exists s',
    keyStatus (getCurrentApiKey (Examples.t0 + Examples.minutes 61) Examples.oneBlocked).2
      !! "key-A" = Some s'
    /\ isBlocked s' = false /\ errorCount s' = 0 /\ blockStartTime s' = None.
Proof.
  refine (proj1 (block_expires_after_an_hour Examples.oneBlocked
                   (Examples.t0 + Examples.minutes 61) "key-A" Examples.t0
                   oneBlocked_keyA _ _)).
  - reflexivity.
  - reflexivity.
Defined.

Lemma blocking_the_current_key_moves_the_cursor_witness :
  exists r sr,
    apiKeys Examples.twoKeys
      !! currentKeyIndex (blockApiKey Examples.t0 "key-A" Examples.twoKeys) = Some r
    /\ r <> "key-A"
    /\ keyStatus (blockApiKey Examples.t0 "key-A" Examples.twoKeys) !! r = Some sr
    /\ isBlocked sr = false
    /\ keyStatus (blockApiKey Examples.t0 "key-A" Examples.twoKeys) !! "key-A"
       = Some (mkStatus "key-A" true 0 0 (Some Examples.t0)).
Proof.
  refine (blocking_the_current_key_moves_the_cursor Examples.t0 Examples.twoKeys
            "key-A" "key-B" 1 (mkStatus "key-A" false 0 0 None)
            (mkStatus "key-B" false 0 0 None) _ _ _ _ _ _).
  - reflexivity.
  - vm_compute. reflexivity.
  - reflexivity.
  - discriminate.
  - vm_compute. reflexivity.
  - reflexivity.
Defined.

Lemma oneBlocked_past (k : string) (t1 : Z) :
  blockedAt Examples.oneBlocked k t1 -> t1 <= Examples.t0 + Examples.minutes 30.
Proof.
  intros (s & Hs & Hb & Ht).
  destruct (ApiKeyFacts.lookup_two _ _ _ k s ApiKeyFacts.oneBlocked_status Hs)
    as [[-> ->] | [-> ->]]; cbn in *.
  - injection Ht as <-. vm_compute. discriminate.
  - discriminate.
Qed.

Lemma getStatus_reports_live_blocks_witness :
  exists report,
    getStatus (Examples.t0 + Examples.minutes 30) Examples.oneBlocked
    = Some (report,
            (getCurrentApiKey (Examples.t0 + Examples.minutes 30) Examples.oneBlocked).2)
    /\ blockTimeRemaining <$> keyDetails report = [Some 30; None].
Proof.
  destruct (getStatus_reports_live_blocks (Examples.t0 + Examples.minutes 30)
              Examples.oneBlocked ApiKeyFacts.oneBlocked_wellFormed oneBlocked_past)
    as (report & Hreport & _).
  exists report. split; [exact Hreport |].
  assert (Hsome : Some (report,
                        (getCurrentApiKey (Examples.t0 + Examples.minutes 30)
                           Examples.oneBlocked).2)
                  = getStatus (Examples.t0 + Examples.minutes 30) Examples.oneBlocked)
    by (symmetry; exact Hreport).
  vm_compute in Hsome. injection Hsome as ->. reflexivity.
Defined.

Lemma forceKeySwitch_outcome_witness :
  (GeminiClient.forceKeySwitch (Examples.t0 + 5) Examples.blockedClient).1 <> None.
Proof.
  refine (proj1 (proj2 (proj2
            (forceKeySwitch_outcome (Examples.t0 + 5) Examples.blockedClient
               ApiKeyFacts.oneBlocked_wellFormed _))) _).
  - reflexivity.
  - intros k' Hin Hne. change (k' ∈ ["key-A"; "key-B"]) in Hin.
    apply elem_of_cons in Hin. destruct Hin as [-> | Hin].
    + exists Examples.t0. split; [exact oneBlocked_keyA | vm_compute; discriminate].
    + apply list_elem_of_singleton in Hin. subst k'. exfalso. apply Hne. reflexivity.
Defined.

Lemma prefix_cons (a b : ascii) (s1 s2 : string) :
  String.prefix (String a s1) (String b s2) = true -> a = b /\ String.prefix s1 s2 = true.
Proof.
  cbn [String.prefix]. destruct (ascii_dec a b) as [-> | _]; [auto | discriminate].
Qed.

Lemma removeFirst_dots (p : string) :
  Js.includes p "..." = false -> Js.removeFirst "..." (p +:+ "...") = p.
Proof.
  induction p as [| c p IH]; intros Hclean; [reflexivity |].
  change (String c p +:+ "...") with (String c (p +:+ "...")).
  assert (Hrest : Js.includes p "..." = false).
  { cbn [Js.includes] in Hclean.
    destruct (String.prefix "..." (String c p)); [discriminate | exact Hclean]. }
  specialize (IH Hrest).
  cbn [Js.removeFirst].
  destruct (String.prefix "..." (String c (p +:+ "..."))) eqn:Hp.
  - apply prefix_cons in Hp. destruct Hp as [<- Hp].
    destruct p as [| c2 p]; [reflexivity |].
    change (String c2 p +:+ "...") with (String c2 (p +:+ "...")) in Hp.
    apply prefix_cons in Hp. destruct Hp as [<- Hp].
    destruct p as [| c3 p]; [reflexivity |].
    change (String c3 p +:+ "...") with (String c3 (p +:+ "...")) in Hp.
    apply prefix_cons in Hp. destruct Hp as [<- Hp].
    cbn [Js.includes] in Hclean.
    change (String.prefix "..." (String "." (String "." (String "." p))))
      with (String.prefix EmptyString p) in Hclean.
    destruct p; discriminate Hclean.
  - rewrite IH. reflexivity.
Qed.

Lemma startsWith_substring0 (n : nat) (k : string) :
  Js.startsWith k (Js.substring0 n k) = true.
Proof.
  unfold Js.startsWith, Js.substring0. revert n.
  induction k as [| c k IH]; intros [| n]; cbn; try reflexivity.
  destruct (ascii_dec c c); [apply IH | congruence].
Qed.

Lemma find_entries (f : string * ApiKeyStatus -> bool) (st : t) (k : string) (s : ApiKeyStatus) :
  k ∈ apiKeys st -> keyStatus st !! k = Some s -> f (k, s) = true ->
  exists e, find f (entries st) = Some e /\ f e = true
            /\ e.1 ∈ apiKeys st /\ keyStatus st !! e.1 = Some e.2.
Proof.
  intros Hin Hs Hf. unfold entries.
  induction (apiKeys st) as [| k0 ks IH]; [inversion Hin |].
  cbn [omap list_omap].
  destruct (keyStatus st !! k0) as [s0 |] eqn:H0; cbn [fmap option_fmap option_map].
  - cbn [find]. destruct (f (k0, s0)) eqn:Hf0.
    + exists (k0, s0). repeat split; [exact Hf0 | apply elem_of_cons; left; reflexivity | exact H0].
    + apply elem_of_cons in Hin. destruct Hin as [-> | Hin]; [congruence |].
      destruct (IH Hin) as (e & He & Hfe & Hine & Hse).
      exists e. repeat split; [exact He | exact Hfe | apply elem_of_cons; right; exact Hine | exact Hse].
  - apply elem_of_cons in Hin. destruct Hin as [-> | Hin]; [congruence |].
    destruct (IH Hin) as (e & He & Hfe & Hine & Hse).
    exists e. repeat split; [exact He | exact Hfe | apply elem_of_cons; right; exact Hine | exact Hse].
Qed.

Lemma find_entries_first (f : string * ApiKeyStatus -> bool) (st : t) (k : string)
    (s : ApiKeyStatus) (before after : list string) :
  apiKeys st = before ++ k :: after -> keyStatus st !! k = Some s -> f (k, s) = true ->
  (forall k0 s0, k0 ∈ before -> keyStatus st !! k0 = Some s0 -> f (k0, s0) = false) ->
  find f (entries st) = Some (k, s).
Proof.
  intros Hkeys Hs Hf Hbefore. unfold entries. rewrite Hkeys. clear Hkeys.
  induction before as [| k0 ks IH]; cbn [app omap list_omap].
  - rewrite Hs. cbn. rewrite Hf. reflexivity.
  - destruct (keyStatus st !! k0) as [s0 |] eqn:H0; cbn [fmap option_fmap option_map].
    + cbn [find]. rewrite (Hbefore k0 s0); [| apply elem_of_cons; left; reflexivity | exact H0].
      apply IH. intros k1 s1 Hin. apply Hbefore. apply elem_of_cons. right. exact Hin.
    + apply IH. intros k1 s1 Hin. apply Hbefore. apply elem_of_cons. right. exact Hin.
Qed.

(** X6.  [resetApiKey] accepts the preview that [getStatus] shows for a
    key [k] of the pool, provided the first ten characters of [k] do not
    contain three dots in a row: it returns [true] and resets one key whose
    name starts with those characters (unblocked, both counters 0, no block
    instant), leaving every other record, the list and the cursor as they
    were.  The key reset is [k] itself when no key before [k] in the list
    starts with the same ten characters. *)
Theorem resetApiKey_takes_a_reported_preview (st : t) (k : string) (s : ApiKeyStatus) :
  k ∈ apiKeys st -> keyStatus st !! k = Some s ->
  Js.includes (Js.substring0 10 k) "..." = false ->
  let r := resetApiKey (previewOf k) st in
  r.1 = true
  /\ apiKeys r.2 = apiKeys st /\ currentKeyIndex r.2 = currentKeyIndex st
  /\ (exists k' s',
        k' ∈ apiKeys st /\ keyStatus st !! k' = Some s'
        /\ Js.startsWith k' (Js.substring0 10 k) = true
        /\ keyStatus r.2 !! k' = Some (mkStatus (key s') false 0 0 None)
        /\ forall k'', k'' <> k' -> keyStatus r.2 !! k'' = keyStatus st !! k'')
  /\ (forall before after,
        apiKeys st = before ++ k :: after ->
        (forall k0, k0 ∈ before -> Js.startsWith k0 (Js.substring0 10 k) = false) ->
        keyStatus r.2 !! k = Some (mkStatus (key s) false 0 0 None)
        /\ forall k'', k'' <> k -> keyStatus r.2 !! k'' = keyStatus st !! k'').
Proof.
  intros Hin Hs Hclean r. subst r. unfold resetApiKey, previewOf.
  rewrite (removeFirst_dots _ Hclean).
  set (f := fun e : string * ApiKeyStatus => Js.startsWith e.1 (Js.substring0 10 k)).
  destruct (find_entries f st k s Hin Hs (startsWith_substring0 10 k))
    as ([k' s'] & Hfind & Hf & Hin' & Hs').
  split; [rewrite Hfind; reflexivity |].
  split; [rewrite Hfind; reflexivity |].
  split; [rewrite Hfind; reflexivity |].
  split.
  - rewrite Hfind. exists k', s'. cbn [fst snd keyStatus] in *.
    repeat split; [exact Hin' | exact Hs' | exact Hf | apply lookup_insert_eq |].
    intros k'' Hne. apply lookup_insert_ne. congruence.
  - intros before after Hkeys Hbefore.
    rewrite (find_entries_first f st k s before after Hkeys Hs (startsWith_substring0 10 k)).
    + cbn [fst snd keyStatus]. split; [apply lookup_insert_eq |].
      intros k'' Hne. apply lookup_insert_ne. congruence.
    + intros k0 s0 Hk0 _. apply Hbefore, Hk0.
Qed.

Lemma resetApiKey_takes_a_reported_preview_witness :
  (resetApiKey (previewOf "key-A") Examples.oneBlocked).1 = true.
Proof.
  refine (proj1 (resetApiKey_takes_a_reported_preview Examples.oneBlocked "key-A"
                   (mkStatus "key-A" true 0 0 (Some Examples.t0)) _ _ _)).
  - vm_compute. apply elem_of_cons. left. reflexivity.
  - vm_compute. reflexivity.
  - reflexivity.
Defined.

End PoolFacts.

(** ** Stamina controller: rest mode, levels and idle recovery *)

Module StaminaMoreFacts.

Import StaminaManager.
Local Open Scope Q_scope.

Section WithPow.
Context `{MathPow}.

Lemma update_rest (i dt : Q) (s : t) :
  restMode (config s) = true ->
  currentStamina (update i dt s) = currentStamina s
  /\ config (update i dt s) = config s.
Proof. intros Hr. unfold update. rewrite Hr. split; reflexivity. Qed.

Lemma run_rest (o : Op) (s : t) :
  restMode (config s) = true -> routineOp o = true ->
  currentStamina (run o s) = currentStamina s /\ config (run o s) = config s.
Proof.
  intros Hr Ho. destruct o as [now | n now | v | b | i dt]; try discriminate; cbn.
  - unfold tick, update. cbn. rewrite Hr. split; reflexivity.
  - unfold consumeStamina. rewrite Hr. split; reflexivity.
  - apply update_rest. exact Hr.
Qed.

(** X7.  In rest mode no sequence of timer ticks, consumptions and update
    steps changes the stamina value; throughout, [canReply] answers no and
    [consumeStamina] refuses and leaves the state as it is. *)
Theorem rest_mode_freezes_stamina (ops : list Op) (s : t) :
  restMode (config s) = true ->
  forallb routineOp ops = true ->
  currentStamina (runAll ops s) = currentStamina s
  /\ canReply (runAll ops s) = false
  /\ forall messageCount now,
       consumeStamina messageCount now (runAll ops s) = (false, runAll ops s).
Proof.
  intros Hr Hops.
  assert (Hinv : currentStamina (runAll ops s) = currentStamina s
                 /\ config (runAll ops s) = config s).
  { revert s Hr. induction ops as [| o ops IH]; intros s Hr; [split; reflexivity |].
    change (runAll (o :: ops) s) with (runAll ops (run o s)).
    cbn in Hops. apply andb_true_iff in Hops. destruct Hops as [Ho Hops].
    destruct (run_rest o s Hr Ho) as [Hc Hcfg].
    destruct (IH Hops (run o s)) as [Hc' Hcfg']; [rewrite Hcfg; exact Hr |].
    split; [rewrite Hc'; exact Hc | rewrite Hcfg'; exact Hcfg]. }
  destruct Hinv as [Hc Hcfg].
  split; [exact Hc |]. split.
  - unfold canReply. rewrite Hcfg, Hr. reflexivity.
  - intros n now. unfold consumeStamina. rewrite Hcfg, Hr. reflexivity.
Qed.

Lemma percentage_mono (m a b : Q) : 0 < m -> a <= b -> a / m * 100 <= b / m * 100.
Proof.
  intros Hm Hab.
  apply Qmult_le_compat_r; [| discriminate].
  apply Qmult_le_compat_r; [exact Hab |].
  apply Qlt_le_weak, Qinv_lt_0_compat, Hm.
Qed.

(** X8.  With a positive maximum the level follows the stamina value
    monotonically: a higher value never gives a worse level (critical, low,
    medium, high in this order). *)
Theorem calculateLevel_monotone (c : StaminaConfig) (a b : Q) :
  0 < maxStamina c -> a <= b ->
  (levelRank (calculateLevel c a) <= levelRank (calculateLevel c b))%nat.
Proof.
  intros Hm Hab. pose proof (percentage_mono _ _ _ Hm Hab) as Hp.
  unfold calculateLevel.
  set (pa := a / maxStamina c * 100) in *. set (pb := b / maxStamina c * 100) in *.
  assert (Hle : forall x, Qle_bool x pa = true -> Qle_bool x pb = true).
  { intros x Hx. apply Qle_bool_iff. apply Qle_bool_iff in Hx.
    eapply Qle_trans; eassumption. }
  destruct (Qle_bool 70 pa) eqn:H70; [rewrite (Hle _ H70); cbn; lia |].
  destruct (Qle_bool 50 pa) eqn:H50.
  { rewrite (Hle _ H50). destruct (Qle_bool 70 pb); cbn; lia. }
  destruct (Qle_bool (criticalStaminaThreshold c) pa) eqn:Hcr.
  { rewrite (Hle _ Hcr). destruct (Qle_bool 70 pb), (Qle_bool 50 pb); cbn; lia. }
  cbn. lia.
Qed.

(** X9.  Outside rest mode, a timer tick on a state within its bounds,
    with zero momentum, a non-negative recovery rate and no consumption at
    intensity 0, never lowers the stamina value when the clock has not gone
    back; it stamps the state with the instant of the tick. *)
Theorem idle_tick_never_lowers_stamina (now : Z) (s : t) :
  restMode (config s) = false ->
  in_bounds s -> 0 < maxStamina (config s) ->
  0 <= regenRate (config s) ->
  momentum s == 0 ->
  k (config s) * Math_pow 0 (p (config s)) == 0 ->
  (lastUpdateTime s <= now)%Z ->
  currentStamina s <= currentStamina (tick now s)
  /\ lastUpdateTime (tick now s) = now.
Proof.
  intros Hr (H0 & H1 & H2) Hm Hreg Hmom Hpow Hnow.
  unfold tick, update. cbn. rewrite Hr. cbn. split; [| reflexivity].
  set (dt := elapsedSeconds now (lastUpdateTime s)).
  assert (Hdt : 0 <= dt).
  { subst dt. unfold elapsedSeconds.
    apply Qle_shift_div_l; [reflexivity |]. rewrite Qmult_0_l.
    change 0 with (inject_Z 0). rewrite <- Zle_Qle. lia. }
  set (S0 := currentStamina s) in *. set (M := maxStamina (config s)) in *.
  set (consume := k (config s) * Math_pow 0 (p (config s)) * dt).
  assert (Hc : consume == 0) by (subst consume; rewrite Hpow; ring).
  set (mom := Qmax 0 (momentum s * (1 - beta (config s) * dt) + alpha (config s) * 0 * dt)).
  assert (Hmom' : mom == 0).
  { subst mom. rewrite Hmom.
    assert (E : 0 * (1 - beta (config s) * dt) + alpha (config s) * 0 * dt == 0) by ring.
    rewrite E. reflexivity. }
  set (net := (regenRate (config s) * (1 - (S0 - consume) / M) - gamma (config s) * mom) * dt).
  assert (Hnet : 0 <= net).
  { subst net. rewrite Hmom', Hc.
    assert (E : regenRate (config s) * (1 - (S0 - 0) / M) - gamma (config s) * 0
                == regenRate (config s) * ((M - S0) / M)) by (field; lra).
    rewrite E.
    apply Qmult_le_0_compat; [| exact Hdt].
    apply Qmult_le_0_compat; [exact Hreg |].
    apply Qle_shift_div_l; [exact Hm |]. lra. }
  apply Q.max_le_iff. right.
  apply Q.min_glb; [| exact H1].
  rewrite Hc. lra.
Qed.

End WithPow.

Lemma rest_mode_freezes_stamina_witness :
  currentStamina (runAll (H := intPow) [OpTick 1000; OpConsume 3 2000; OpUpdate 2 1]
                    Examples.restingStamina)
  = currentStamina Examples.restingStamina.
Proof.
  refine (proj1 (rest_mode_freezes_stamina (H := intPow)
                   [OpTick 1000; OpConsume 3 2000; OpUpdate 2 1]
                   Examples.restingStamina _ _)).
  - reflexivity.
  - reflexivity.
Defined.

Lemma calculateLevel_monotone_witness :
  (levelRank (calculateLevel Examples.staminaConfig 5)
   <= levelRank (calculateLevel Examples.staminaConfig 80))%nat.
Proof.
  refine (calculateLevel_monotone Examples.staminaConfig 5 80 _ _).
  - reflexivity.
  - vm_compute. discriminate.
Defined.

Lemma idle_tick_never_lowers_stamina_witness :
  currentStamina Examples.lowStamina
  <= currentStamina (tick (H := intPow) 1000 Examples.lowStamina).
Proof.
  refine (proj1 (idle_tick_never_lowers_stamina (H := intPow) 1000 Examples.lowStamina
                   _ _ _ _ _ _ _)).
  - reflexivity.
  - repeat split; vm_compute; discriminate.
  - reflexivity.
  - vm_compute. discriminate.
  - reflexivity.
  - reflexivity.
  - vm_compute. discriminate.
Defined.

End StaminaMoreFacts.

(** ** Per-context queue: the outcomes of a flush and its triggers *)

Module QueueMoreFacts.

Import MessageQueueManager.

Section WithPow.
Context `{MathPow}.

Lemma flush_hands_over_the_whole_queue_aux (processor : Processor) (now : Z) (st : t)
    (contextId : string) (reason : FlushReason) (queueState : QueueState.t)
    (m : QueuedMessage.t) (ms : list QueuedMessage.t) (response : ChatResponse.t) :
  queues st !! contextId = Some queueState ->
  QueueState.messages queueState = m :: ms ->
  QueueState.isProcessing queueState = false ->
  canReplyNow st = true ->
  processor (m :: ms) = Fulfilled response ->
  let r := flushQueue processor now st contextId reason in
  r.1.2 = QueueProcessResult.mk true (S (length ms)) (Some response) None reason
            (createMessageLogs (m :: ms)) (Some contextId)
  /\ r.2 = [ProcessMessages (m :: ms); QueueFlushed r.1.2]
  /\ queues r.1.1 !! contextId = None
  /\ (contextId ∉ processingContexts r.1.1)
  /\ totalProcessed r.1.1 = (totalProcessed st + S (length ms))%nat
  /\ lastFlushTime r.1.1 = Some (now / 1000)
  /\ lastFlushReason r.1.1 = Some reason
  /\ staminaManager r.1.1
     = (StaminaManager.consumeStamina (Z.of_nat (S (length ms))) now (staminaManager st)).2
  /\ (forall other, other <> contextId -> queues r.1.1 !! other = queues st !! other).
Proof.
  intros Hq Hm Hp Hcan Hproc r. subst r. unfold canReplyNow in Hcan.
  unfold flushQueue, flushQueue_begin. rewrite Hq. cbn. rewrite Hm. cbn.
  rewrite Hcan, Hp. cbn. rewrite Hproc. cbn.
  rewrite !lookup_insert_eq. cbn. rewrite ?lookup_insert_eq. cbn.
  repeat split.
  - apply lookup_delete_eq.
  - apply not_elem_of_difference. right. apply elem_of_singleton. reflexivity.
  - intros other Hne. rewrite lookup_delete_ne by congruence.
    rewrite !lookup_insert_ne by congruence. reflexivity.
Qed.

Lemma failed_batch_aux (processor : Processor) (now : Z) (st : t)
    (contextId : string) (reason : FlushReason) (queueState : QueueState.t)
    (m : QueuedMessage.t) (ms : list QueuedMessage.t) (error : string) :
  queues st !! contextId = Some queueState ->
  QueueState.messages queueState = m :: ms ->
  QueueState.isProcessing queueState = false ->
  canReplyNow st = true ->
  processor (m :: ms) = Rejected error ->
  let r := flushQueue processor now st contextId reason in
  r.1.2 = QueueProcessResult.mk false (S (length ms)) None (Some error) reason
            (createMessageLogs (m :: ms)) (Some contextId)
  /\ r.2 = [ProcessMessages (m :: ms);
            QueueError error ("flush_queue_" +:+ reasonName reason)]
  /\ queues r.1.1 !! contextId = None
  /\ (contextId ∉ processingContexts r.1.1)
  /\ totalProcessed r.1.1 = totalProcessed st
  /\ staminaManager r.1.1 = staminaManager st
  /\ (forall other, other <> contextId -> queues r.1.1 !! other = queues st !! other).
Proof.
  intros Hq Hm Hp Hcan Hproc r. subst r. unfold canReplyNow in Hcan.
  unfold flushQueue, flushQueue_begin. rewrite Hq. cbn. rewrite Hm. cbn.
  rewrite Hcan, Hp. cbn. rewrite Hproc. cbn.
  rewrite !lookup_insert_eq. cbn.
  repeat split.
  - apply lookup_delete_eq.
  - apply not_elem_of_difference. right. apply elem_of_singleton. reflexivity.
  - intros other Hne. rewrite lookup_delete_ne by congruence.
    rewrite !lookup_insert_ne by congruence. reflexivity.
Qed.

(** X10.  When the stamina forbids a reply and the level is not critical,
    a flush of a non-empty queue reports [processed = false] with the reason
    [stamina_insufficient] and the logs of the queued messages; the processor
    is not called, the messages stay queued with the silence timer cleared,
    and neither the stamina nor the count of processed messages changes. *)
Theorem tired_flush_keeps_the_queue (processor : Processor) (now : Z) (st : t)
    (contextId : string) (reason : FlushReason) (queueState : QueueState.t)
    (m : QueuedMessage.t) (ms : list QueuedMessage.t) :
  queues st !! contextId = Some queueState ->
  QueueState.messages queueState = m :: ms ->
  canReplyNow st = false ->
  levelNow st <> StaminaManager.critical ->
  let r := flushQueue processor now st contextId reason in
  r.1.2 = QueueProcessResult.mk false (S (length ms)) None None stamina_insufficient
            (createMessageLogs (m :: ms)) (Some contextId)
  /\ r.2 = []
  /\ queues r.1.1 !! contextId = Some (clearSilenceTimer queueState)
  /\ staminaManager r.1.1 = staminaManager st
  /\ totalProcessed r.1.1 = totalProcessed st.
Proof.
  intros Hq Hm Hcan Hlevel r. subst r. unfold canReplyNow in Hcan. unfold levelNow in Hlevel.
  unfold flushQueue, flushQueue_begin. rewrite Hq. cbn. rewrite Hm. cbn.
  rewrite Hcan. cbn. unfold StaminaManager.getStatus. cbn.
  destruct (StaminaManager.calculateLevel _ _) eqn:Hl; [| | | contradiction]; cbn;
    rewrite Hm; cbn; rewrite lookup_insert_eq;
    (repeat split; unfold clearSilenceTimer; rewrite ?Hm; reflexivity).
Qed.

(** The queue of the context after [addMessage] has appended the message
    and re-armed the silence timer. *)
Lemma addMessage_quiet (processor : Processor) (now : Z) (st : t) (message : Message.t) :
  isHighPriorityMessage (queueConfig st) message = false ->
  exists st2 queueState2,
    addMessage processor now st message
    = ((checkAndTriggerFlush processor now st2 (getContextId message)).1,
       MessageQueued (convertToQueuedMessage (queueConfig st) now message
                        (getContextId message))
       :: (checkAndTriggerFlush processor now st2 (getContextId message)).2)
    /\ queues st2 !! getContextId message = Some queueState2
    /\ QueueState.messages queueState2
       = queuedBefore st (getContextId message)
         ++ [convertToQueuedMessage (queueConfig st) now message (getContextId message)]
    /\ QueueState.silenceTimer queueState2
       = (if QueueConfig.silenceSeconds (queueConfig st) <=? 0 then None
          else Some (now + QueueConfig.silenceSeconds (queueConfig st) * 1000))
    /\ QueueState.isProcessing queueState2
       = default false (QueueState.isProcessing <$> queues st !! getContextId message)
    /\ queueConfig st2 = queueConfig st
    /\ staminaManager st2 = staminaManager st
    /\ totalProcessed st2 = totalProcessed st
    /\ (forall other, other <> getContextId message ->
          queues st2 !! other = queues st !! other).
Proof.
  intros Hlow. unfold addMessage, queuedBefore, messagesAt, getOrCreateQueue.
  set (contextId := getContextId message).
  set (qm := convertToQueuedMessage (queueConfig st) now message contextId).
  assert (Hflag : QueuedMessage.isHighPriority qm = false) by exact Hlow.
  destruct (queues st !! contextId) as [queueState |] eqn:Hq; cbn [fst snd];
    rewrite Hflag;
    match goal with
    | |- context [checkAndTriggerFlush processor now ?s contextId] =>
        exists s; destruct (checkAndTriggerFlush processor now s contextId) as [st3 ev] eqn:Hc
    end;
    eexists; (split; [reflexivity |]); cbn [queues withQueues];
    (split; [apply lookup_insert_eq |]);
    unfold resetSilenceTimer, clearSilenceTimer, withMessages; cbn;
    destruct (QueueConfig.silenceSeconds (queueConfig st) <=? 0); cbn;
    (repeat split; try reflexivity);
    intros other Hne; rewrite !lookup_insert_ne by congruence; reflexivity.
Qed.

(** X11.  A message of normal priority that leaves the queue of its
    context below the size limit, with its oldest message younger than the age
    limit, is only queued: it is appended to the queue of its context, the
    silence timer is set to expire [silenceSeconds] later (or stays unset when
    [silenceSeconds] is not positive), no batch is handed to the processor, and
    the stamina and the queues of the other contexts are as before. *)
Theorem quiet_message_waits_for_the_timer (processor : Processor) (now : Z) (st : t)
    (message : Message.t) :
  let contextId := getContextId message in
  let queuedMessage := convertToQueuedMessage (queueConfig st) now message contextId in
  isHighPriorityMessage (queueConfig st) message = false ->
  Z.of_nat (length (queuedBefore st contextId)) + 1
  < QueueConfig.maxQueueSize (queueConfig st) ->
  (forall oldest, head (queuedBefore st contextId ++ [queuedMessage]) = Some oldest ->
     now - QueuedMessage.receivedAt oldest
     < QueueConfig.maxQueueAgeSeconds (queueConfig st) * 1000) ->
  let r := addMessage processor now st message in
  r.2 = [MessageQueued queuedMessage]
  /\ messagesAt r.1 contextId = Some (queuedBefore st contextId ++ [queuedMessage])
  /\ QueueState.silenceTimer <$> queues r.1 !! contextId
     = Some (if QueueConfig.silenceSeconds (queueConfig st) <=? 0 then None
             else Some (now + QueueConfig.silenceSeconds (queueConfig st) * 1000))
  /\ staminaManager r.1 = staminaManager st
  /\ (forall other, other <> contextId -> queues r.1 !! other = queues st !! other).
Proof.
  intros contextId queuedMessage Hlow Hsize Hage r. subst r.
  destruct (addMessage_quiet processor now st message Hlow)
    as (st2 & q2 & Hadd & Hq2 & Hm2 & Ht2 & _ & Hcfg & Hst & _ & Hother).
  fold contextId in Hadd, Hq2, Hm2, Hother. fold queuedMessage in Hadd, Hm2.
  rewrite Hadd.
  assert (Hno : checkAndTriggerFlush processor now st2 contextId = (st2, [])).
  { unfold checkAndTriggerFlush. rewrite Hq2, Hm2, Hcfg.
    destruct (queuedBefore st contextId ++ [queuedMessage]) as [| oldest rest] eqn:Hl.
    { reflexivity. }
    assert (Hlen : length (oldest :: rest) = (length (queuedBefore st contextId) + 1)%nat).
    { rewrite <- Hl, length_app. reflexivity. }
    rewrite Hlen.
    destruct (Z.leb_spec (QueueConfig.maxQueueSize (queueConfig st))
                (Z.of_nat (length (queuedBefore st contextId) + 1))) as [Hge | _]; [lia |].
    specialize (Hage oldest eq_refl).
    destruct (Z.leb_spec (QueueConfig.maxQueueAgeSeconds (queueConfig st) * 1000)
                (now - QueuedMessage.receivedAt oldest)) as [Hge | _]; [lia |].
    reflexivity. }
  rewrite Hno. cbn [fst snd].
  split; [reflexivity |]. unfold messagesAt. rewrite Hq2. cbn. rewrite Hm2, Ht2.
  repeat split; try reflexivity; [exact Hst | exact Hother].
Qed.

(** What a flush that is let through emits and leaves behind. *)
Lemma flushQueue_let_through (processor : Processor) (now : Z) (st : t)
    (contextId : string) (reason : FlushReason) (queueState : QueueState.t)
    (m : QueuedMessage.t) (ms : list QueuedMessage.t) :
  queues st !! contextId = Some queueState ->
  QueueState.messages queueState = m :: ms ->
  QueueState.isProcessing queueState = false ->
  canReplyNow st = true ->
  (flushQueue processor now st contextId reason).2
  = ProcessMessages (m :: ms)
    :: match processor (m :: ms) with
       | Fulfilled response =>
           [QueueFlushed (QueueProcessResult.mk true (S (length ms)) (Some response) None
                            reason (createMessageLogs (m :: ms)) (Some contextId))]
       | Rejected error => [QueueError error ("flush_queue_" +:+ reasonName reason)]
       end
  /\ queues (flushQueue processor now st contextId reason).1.1 !! contextId = None.
Proof.
  intros Hq Hm Hp Hcan.
  destruct (processor (m :: ms)) as [response | error] eqn:Hproc.
  - destruct (flush_hands_over_the_whole_queue_aux processor now st contextId reason
                queueState m ms response Hq Hm Hp Hcan Hproc) as (Hr & He & Hgone).
    rewrite He, Hr. split; [reflexivity | exact (proj1 Hgone)].
  - destruct (failed_batch_aux processor now st contextId reason
                queueState m ms error Hq Hm Hp Hcan Hproc) as (Hr & He & Hgone).
    rewrite He. split; [reflexivity | exact (proj1 Hgone)].
Qed.

(** X12.  When the stamina allows a reply and the context is not being
    processed, a flush hands all the queued messages, in their order, to the
    processor in one call.  If the processor answers, the result says
    processed, with the answer, the reason and the logs of the batch; the
    queue of the context is deleted and the context is no longer marked as
    processing; the count of processed messages grows by the size of the
    batch; the instant (in seconds) and the reason of the flush are recorded;
    the stamina is consumed for the size of the batch; the queues of the other
    contexts are as before. *)
Theorem flush_hands_over_the_whole_queue (processor : Processor) (now : Z) (st : t)
    (contextId : string) (reason : FlushReason) (queueState : QueueState.t)
    (m : QueuedMessage.t) (ms : list QueuedMessage.t) (response : ChatResponse.t) :
  queues st !! contextId = Some queueState ->
  QueueState.messages queueState = m :: ms ->
  QueueState.isProcessing queueState = false ->
  canReplyNow st = true ->
  processor (m :: ms) = Fulfilled response ->
  let r := flushQueue processor now st contextId reason in
  r.1.2 = QueueProcessResult.mk true (S (length ms)) (Some response) None reason
            (createMessageLogs (m :: ms)) (Some contextId)
  /\ r.2 = [ProcessMessages (m :: ms); QueueFlushed r.1.2]
  /\ queues r.1.1 !! contextId = None
  /\ (contextId ∉ processingContexts r.1.1)
  /\ totalProcessed r.1.1 = (totalProcessed st + S (length ms))%nat
  /\ lastFlushTime r.1.1 = Some (now / 1000)
  /\ lastFlushReason r.1.1 = Some reason
  /\ staminaManager r.1.1
     = (StaminaManager.consumeStamina (Z.of_nat (S (length ms))) now (staminaManager st)).2
  /\ (forall other, other <> contextId -> queues r.1.1 !! other = queues st !! other).
Proof. apply flush_hands_over_the_whole_queue_aux. Qed.

(** X13.  When the processor rejects a batch, the flush reports
    [processed = false] with the error and emits the queue error
    [flush_queue_<reason>]; the messages of the batch are not put back: the
    queue of the context is deleted, and neither the stamina nor the count of
    processed messages changes. *)
Theorem failed_batch_is_not_requeued (processor : Processor) (now : Z) (st : t)
    (contextId : string) (reason : FlushReason) (queueState : QueueState.t)
    (m : QueuedMessage.t) (ms : list QueuedMessage.t) (error : string) :
  queues st !! contextId = Some queueState ->
  QueueState.messages queueState = m :: ms ->
  QueueState.isProcessing queueState = false ->
  canReplyNow st = true ->
  processor (m :: ms) = Rejected error ->
  let r := flushQueue processor now st contextId reason in
  r.1.2 = QueueProcessResult.mk false (S (length ms)) None (Some error) reason
            (createMessageLogs (m :: ms)) (Some contextId)
  /\ r.2 = [ProcessMessages (m :: ms);
            QueueError error ("flush_queue_" +:+ reasonName reason)]
  /\ queues r.1.1 !! contextId = None
  /\ (contextId ∉ processingContexts r.1.1)
  /\ totalProcessed r.1.1 = totalProcessed st
  /\ staminaManager r.1.1 = staminaManager st
  /\ (forall other, other <> contextId -> queues r.1.1 !! other = queues st !! other).
Proof. apply failed_batch_aux. Qed.

(** X14.  A message of normal priority that brings the queue of its context
    to the size limit, or that arrives when the oldest queued message has
    reached the age limit, is flushed at once together with all the messages
    queued before it (the context not being processed and the stamina allowing
    a reply): the processor receives the whole queue, the reason is
    [max_size_trigger] in the first case and [max_age_trigger] in the second,
    and the queue of the context is deleted. *)
Theorem overdue_queue_is_flushed (processor : Processor) (now : Z) (st : t)
    (message : Message.t) (reason : FlushReason) :
  let contextId := getContextId message in
  let queuedMessage := convertToQueuedMessage (queueConfig st) now message contextId in
  let batch := queuedBefore st contextId ++ [queuedMessage] in
  isHighPriorityMessage (queueConfig st) message = false ->
  default false (QueueState.isProcessing <$> queues st !! contextId) = false ->
  canReplyNow st = true ->
  (QueueConfig.maxQueueSize (queueConfig st) <= Z.of_nat (length batch)
   /\ reason = max_size_trigger)
  \/ (Z.of_nat (length batch) < QueueConfig.maxQueueSize (queueConfig st)
      /\ (exists oldest, head batch = Some oldest
            /\ QueueConfig.maxQueueAgeSeconds (queueConfig st) * 1000
               <= now - QueuedMessage.receivedAt oldest)
      /\ reason = max_age_trigger) ->
  let r := addMessage processor now st message in
  r.2 = MessageQueued queuedMessage
        :: ProcessMessages batch
        :: match processor batch with
           | Fulfilled response =>
               [QueueFlushed (QueueProcessResult.mk true (length batch) (Some response)
                                None reason (createMessageLogs batch) (Some contextId))]
           | Rejected error => [QueueError error ("flush_queue_" +:+ reasonName reason)]
           end
  /\ queues r.1 !! contextId = None.
Proof.
  intros contextId queuedMessage batch Hlow Hidle Hcan Htrigger r. subst r.
  destruct (addMessage_quiet processor now st message Hlow)
    as (st2 & q2 & Hadd & Hq2 & Hm2 & _ & Hp2 & Hcfg & Hst & _ & _).
  fold contextId in Hadd, Hq2, Hm2, Hp2. fold queuedMessage in Hadd, Hm2.
  fold batch in Hm2. rewrite Hidle in Hp2.
  assert (Hcan2 : canReplyNow st2 = true) by (unfold canReplyNow; rewrite Hst; exact Hcan).
  rewrite Hadd.
  destruct batch as [| m ms] eqn:Hbatch.
  { subst batch. destruct (queuedBefore st contextId); discriminate. }
  pose proof (flushQueue_let_through processor now st2 contextId reason q2 m ms
                Hq2 Hm2 Hp2 Hcan2) as [Hev Hgone].
  assert (Hcheck : checkAndTriggerFlush processor now st2 contextId
                   = ((flushQueue processor now st2 contextId reason).1.1,
                      (flushQueue processor now st2 contextId reason).2)).
  { unfold checkAndTriggerFlush. rewrite Hq2, Hm2, Hcfg.
    destruct Htrigger as [[Hsize ->] | (Hsize & (oldest & Hold & Hage) & ->)].
    - destruct (Z.leb_spec (QueueConfig.maxQueueSize (queueConfig st))
                  (Z.of_nat (length (m :: ms)))) as [_ | Hlt]; [| lia].
      destruct (flushQueue _ _ _ _ _) as [[st' res] ev]. reflexivity.
    - destruct (Z.leb_spec (QueueConfig.maxQueueSize (queueConfig st))
                  (Z.of_nat (length (m :: ms)))) as [Hge | _]; [lia |].
      injection Hold as <-.
      destruct (Z.leb_spec (QueueConfig.maxQueueAgeSeconds (queueConfig st) * 1000)
                  (now - QueuedMessage.receivedAt m)) as [_ | Hlt]; [| lia].
      destruct (flushQueue _ _ _ _ _) as [[st' res] ev]. reflexivity. }
  rewrite Hcheck. cbn [fst snd]. rewrite Hev. split; [reflexivity | exact Hgone].
Qed.

(** X15.  A high-priority message that arrives while its context is being
    processed is appended to the queue, but no batch is handed to the
    processor and no silence timer is armed; when the flush in progress ends,
    the message is still queued, without a timer: it waits until something
    else triggers a flush of its context. *)
Theorem priority_message_during_processing_is_stranded (processor : Processor) (now : Z)
    (st : t) (message : Message.t) (queueState : QueueState.t) :
  let contextId := getContextId message in
  let queuedMessage := convertToQueuedMessage (queueConfig st) now message contextId in
  queues st !! contextId = Some queueState ->
  QueueState.isProcessing queueState = true ->
  isHighPriorityMessage (queueConfig st) message = true ->
  canReplyNow st = true \/ levelNow st <> StaminaManager.critical ->
  let r := addMessage processor now st message in
  batches r.2 = []
  /\ queues r.1 !! contextId
     = Some (QueueState.mk (QueueState.messages queueState ++ [queuedMessage]) None true
               (QueueState.lastFlushTime queueState) (QueueState.lastFlushReason queueState))
  /\ forall now' reason batch outcome,
       exists queueState',
         queues (flushQueue_end now' r.1 contextId reason batch outcome).1.1 !! contextId
         = Some queueState'
         /\ QueueState.messages queueState'
            = QueueState.messages queueState ++ [queuedMessage]
         /\ QueueState.silenceTimer queueState' = None
         /\ QueueState.isProcessing queueState' = false.
Proof.
  intros contextId queuedMessage Hq Hp Hhigh Hstamina r.
  assert (Hr : r.2 = [MessageQueued queuedMessage]
               /\ queues r.1 !! contextId
                  = Some (QueueState.mk (QueueState.messages queueState ++ [queuedMessage])
                            None true (QueueState.lastFlushTime queueState)
                            (QueueState.lastFlushReason queueState))).
  { subst r. unfold addMessage, getOrCreateQueue. fold contextId. rewrite Hq.
    fold queuedMessage.
    assert (Hflag : QueuedMessage.isHighPriority queuedMessage = true) by exact Hhigh.
    rewrite Hflag.
    unfold flushQueue, flushQueue_begin. cbn [queues withQueues].
    rewrite lookup_insert_eq. cbn.
    destruct (QueueState.messages queueState ++ [queuedMessage]) as [| m ms] eqn:Hl.
    { destruct (QueueState.messages queueState); discriminate. }
    cbn. unfold canReplyNow, levelNow in Hstamina.
    destruct (StaminaManager.canReply (staminaManager st)) eqn:Hcan; cbn.
    - rewrite Hp. cbn. split; [reflexivity |]. rewrite lookup_insert_eq.
      unfold clearSilenceTimer, withMessages. cbn. rewrite Hp. reflexivity.
    - destruct Hstamina as [Hc | Hlevel]; [discriminate |].
      unfold StaminaManager.getStatus. cbn.
      destruct (StaminaManager.calculateLevel _ _); [| | | contradiction]; cbn;
        (split; [reflexivity |]); rewrite lookup_insert_eq;
        unfold clearSilenceTimer, withMessages; cbn; rewrite Hp; reflexivity. }
  destruct Hr as [Hev Hqr]. split; [rewrite Hev; reflexivity |]. split; [exact Hqr |].
  intros now' reason batch outcome.
  unfold flushQueue_end.
  destruct (QueueState.messages queueState ++ [queuedMessage]) as [| m ms] eqn:Hl.
  { destruct (QueueState.messages queueState); discriminate. }
  destruct outcome as [response | error]; unfold flushQueue_finally; cbn [queues];
    rewrite ?Hqr; cbn; rewrite ?lookup_insert_eq; cbn; rewrite ?Hqr; cbn.
  all: rewrite ?lookup_insert_eq; eexists; (split; [reflexivity |]); cbn; auto.
Qed.

End WithPow.

Lemma append_inv_head (p a b : string) : p +:+ a = p +:+ b -> a = b.
Proof. induction p as [| c p IH]; cbn; [auto |]. intros [= Heq]. auto. Qed.

(** X16.  A message with a group id shares its context id exactly with the
    messages of the same group id; a message without a group id never has the
    same context id. *)
Theorem getContextId_separates (m1 m2 : Message.t) :
  truthyOpt (Message.groupId m1) = true ->
  (getContextId m1 = getContextId m2 <-> Message.groupId m2 = Message.groupId m1)
  /\ (truthyOpt (Message.groupId m2) = false -> getContextId m1 <> getContextId m2).
Proof.
  intros H1. unfold getContextId. rewrite H1.
  destruct (Message.groupId m1) as [g1 |] eqn:Hg1; [| discriminate]. cbn [default].
  split.
  - split.
    + destruct (truthyOpt (Message.groupId m2)) eqn:H2.
      * destruct (Message.groupId m2) as [g2 |]; [| discriminate]. cbn [default].
        intros Heq. apply (append_inv_head "group_" g1 g2) in Heq. congruence.
      * destruct (truthyOpt (Message.conversationId m2)); cbn; discriminate.
    + intros ->. cbn in H1 |- *. rewrite H1. reflexivity.
  - intros ->. destruct (truthyOpt (Message.conversationId m2)); cbn; discriminate.
Qed.

Lemma flush_hands_over_the_whole_queue_witness :
  batches (flushQueue (H := intPow) Examples.okProcessor (Examples.t0 + 8000)
             Examples.oneQueued "group_42" silence_trigger).2
  = [[convertToQueuedMessage Examples.queueConfig Examples.t0
        (Examples.groupMessage "m1" "hello") "group_42"]]
  /\ queues (flushQueue (H := intPow) Examples.okProcessor (Examples.t0 + 8000)
               Examples.oneQueued "group_42" silence_trigger).1.1 !! "group_42" = None.
Proof.
  destruct (flush_hands_over_the_whole_queue (H := intPow) Examples.okProcessor
              (Examples.t0 + 8000) Examples.oneQueued "group_42" silence_trigger
              (QueueState.mk
                 [convertToQueuedMessage Examples.queueConfig Examples.t0
                    (Examples.groupMessage "m1" "hello") "group_42"]
                 (Some (Examples.t0 + 8000)) false None None)
              (convertToQueuedMessage Examples.queueConfig Examples.t0
                 (Examples.groupMessage "m1" "hello") "group_42") []
              (ChatResponse.mk "ok" Examples.t0 None None None None None None None))
    as (_ & Hev & Hgone & _).
  - vm_compute. reflexivity.
  - reflexivity.
  - reflexivity.
  - vm_compute. reflexivity.
  - reflexivity.
  - split; [rewrite Hev; reflexivity | exact Hgone].
Defined.

Lemma failed_batch_is_not_requeued_witness :
  queues (flushQueue (H := intPow) Examples.failingProcessor (Examples.t0 + 8000)
            Examples.oneQueued "group_42" silence_trigger).1.1 !! "group_42" = None.
Proof.
  refine (proj1 (proj2 (proj2
            (failed_batch_is_not_requeued (H := intPow) Examples.failingProcessor
               (Examples.t0 + 8000) Examples.oneQueued "group_42" silence_trigger
               (QueueState.mk
                  [convertToQueuedMessage Examples.queueConfig Examples.t0
                     (Examples.groupMessage "m1" "hello") "group_42"]
                  (Some (Examples.t0 + 8000)) false None None)
               (convertToQueuedMessage Examples.queueConfig Examples.t0
                  (Examples.groupMessage "m1" "hello") "group_42") []
               "model unavailable" _ _ _ _ _)))).
  - vm_compute. reflexivity.
  - reflexivity.
  - reflexivity.
  - vm_compute. reflexivity.
  - reflexivity.
Defined.

Lemma tired_flush_keeps_the_queue_witness :
  messagesAt (flushQueue (H := intPow) Examples.okProcessor (Examples.t0 + 8000)
                Examples.oneQueuedResting "group_42" silence_trigger).1.1 "group_42"
  = Some [convertToQueuedMessage Examples.queueConfig Examples.t0
            (Examples.groupMessage "m1" "hello") "group_42"].
Proof.
  destruct (tired_flush_keeps_the_queue (H := intPow) Examples.okProcessor
              (Examples.t0 + 8000) Examples.oneQueuedResting "group_42" silence_trigger
              (QueueState.mk
                 [convertToQueuedMessage Examples.queueConfig Examples.t0
                    (Examples.groupMessage "m1" "hello") "group_42"]
                 (Some (Examples.t0 + 8000)) false None None)
              (convertToQueuedMessage Examples.queueConfig Examples.t0
                 (Examples.groupMessage "m1" "hello") "group_42") [])
    as (_ & _ & Hkept & _).
  - vm_compute. reflexivity.
  - reflexivity.
  - vm_compute. reflexivity.
  - vm_compute. discriminate.
  - unfold messagesAt. rewrite Hkept. reflexivity.
Defined.

Lemma quiet_message_waits_for_the_timer_witness :
  QueueState.silenceTimer
    <$> queues (addMessage (H := intPow) Examples.okProcessor Examples.t0
                  Examples.idleFresh (Examples.groupMessage "m1" "hello")).1 !! "group_42"
  = Some (Some (Examples.t0 + 8000)).
Proof.
  refine (proj1 (proj2 (proj2
            (quiet_message_waits_for_the_timer (H := intPow) Examples.okProcessor
               Examples.t0 Examples.idleFresh (Examples.groupMessage "m1" "hello")
               _ _ _)))).
  - vm_compute. reflexivity.
  - vm_compute. reflexivity.
  - intros oldest [= <-]. vm_compute. reflexivity.
Defined.

Lemma overdue_queue_is_flushed_witness :
  queues (addMessage (H := intPow) Examples.okProcessor Examples.t0
            (new Examples.tinyConfig Examples.freshStamina)
            (Examples.groupMessage "m1" "hello")).1 !! "group_42" = None.
Proof.
  refine (proj2 (overdue_queue_is_flushed (H := intPow) Examples.okProcessor Examples.t0
                   (new Examples.tinyConfig Examples.freshStamina)
                   (Examples.groupMessage "m1" "hello") max_size_trigger _ _ _ _)).
  - vm_compute. reflexivity.
  - reflexivity.
  - vm_compute. reflexivity.
  - left. split; [vm_compute; discriminate | reflexivity].
Defined.

Lemma priority_message_during_processing_is_stranded_witness :
  batches (addMessage (H := intPow) Examples.okProcessor (Examples.t0 + 1000)
             Examples.busyFresh (Examples.groupMessage "m2" "@FingerBot hi")).2 = [].
Proof.
  refine (proj1 (priority_message_during_processing_is_stranded (H := intPow)
                   Examples.okProcessor (Examples.t0 + 1000) Examples.busyFresh
                   (Examples.groupMessage "m2" "@FingerBot hi")
                   (QueueState.mk [] None true None None) _ _ _ _)).
  - vm_compute. reflexivity.
  - reflexivity.
  - vm_compute. reflexivity.
  - left. vm_compute. reflexivity.
Defined.

Lemma getContextId_separates_witness :
  getContextId (Examples.groupMessage "m1" "hello")
  <> getContextId (Message.mk "m9" "10001" None None None "hi" Examples.t0 MessageType.text).
Proof.
  refine (proj2 (getContextId_separates (Examples.groupMessage "m1" "hello")
                   (Message.mk "m9" "10001" None None None "hi" Examples.t0
                      MessageType.text) _) _).
  - reflexivity.
  - reflexivity.
Defined.

End QueueMoreFacts.

(** ** Task runner: order, priority and retries *)

Module TaskQueueMoreFacts.

Import TaskQueue.

Lemma run_quiesces {E} (handler : Handler E) (st : t) (env : E) :
  running st ->
  idle (run handler st env).1
  /\ handlers (run handler st env).1 = handlers st
  /\ (forall i, waiting st i \/ settled st i -> settled (run handler st env).1 i).
Proof.
  intros Hrun. unfold run. apply TaskQueueFacts.runLoop_quiesces; [exact Hrun | lia].
Qed.

(** X17.  Run with no stop requested, the loop of [processQueue] comes to
    rest: no loop is running, no task is in flight or queued, and the
    registered handlers are as before.  The promise of every task that was
    queued or in flight is settled, and the promises settled before stay so. *)
Theorem run_settles_every_task {E} (handler : Handler E) (st : t) (env : E) :
  running st ->
  idle (run handler st env).1
  /\ handlers (run handler st env).1 = handlers st
  /\ (forall i, waiting st i \/ settled st i -> settled (run handler st env).1 i).
Proof. apply run_quiesces. Qed.

Lemma traced_outcome {E} (handler : Handler E) (task : InternalTask)
    (log : list InternalTask) (env : E) :
  traced handler task (log, env)
  = ((handler task env).1, (log ++ [task], (handler task env).2)).
Proof. unfold traced. cbn. destruct (handler task env). reflexivity. Qed.

Lemma hasHandler_same (st st' : t) (type : TaskType) :
  handlers st' = handlers st -> hasHandler st' type = hasHandler st type.
Proof. unfold hasHandler. intros ->. reflexivity. Qed.

(** The loop on a handler that returns: every task once, in the order of
    the queue. *)
Lemma runLoop_in_order {E} (handler : Handler E) :
  (forall task env, (handler task env).1 = None) ->
  forall (q : list InternalTask) (fuel : nat) (st : t) (task0 : InternalTask)
         (log : list InternalTask) (env : E),
    stopRequested st = false -> isProcessing st = true ->
    inFlight st = Some task0 -> queue st = q ->
    (forall task, task ∈ q -> hasHandler st (taskTypeOf (payload task)) = true) ->
    (length q < fuel)%nat ->
    (runLoop (traced handler) fuel st (log, env)).2.1 = log ++ task0 :: map started q
    /\ (forall i, promises st !! i = Some Resolved \/ i ∈ map id (task0 :: q) ->
          promises (runLoop (traced handler) fuel st (log, env)).1 !! i = Some Resolved).
Proof.
  intros Hok. induction q as [| task rest IH];
    intros fuel st task0 log env Hs Hp Hf Hq Hh Hfuel;
    (destruct fuel as [| fuel]; [cbn in Hfuel; lia |]).
  - cbn [runLoop]. rewrite Hf. unfold turn. rewrite Hf.
    rewrite traced_outcome, Hok. unfold afterHandler. rewrite Hf, Hq. cbn [queue].
    rewrite TaskQueueFacts.loopHead_empty. cbn.
    destruct fuel; cbn; (split; [reflexivity |]);
      intros i [Hi | Hi];
      try (apply list_elem_of_singleton in Hi; subst i; apply lookup_insert_eq);
      (destruct (decide (i = id task0)) as [-> | Hne];
       [apply lookup_insert_eq | rewrite lookup_insert_ne by congruence; exact Hi]).
  - cbn [runLoop]. rewrite Hf. unfold turn. rewrite Hf.
    rewrite traced_outcome, Hok. unfold afterHandler. rewrite Hf, Hq. cbn [queue].
    set (st1 := mk (handlers st) (task :: rest) (isProcessing st) (stopRequested st) None
                   (<[id task0 := Resolved]> (promises st)) (nextId st)).
    assert (Hh1 : hasHandler st1 (taskTypeOf (payload task)) = true).
    { rewrite (hasHandler_same st st1) by reflexivity. apply Hh.
      apply elem_of_cons. left. reflexivity. }
    rewrite (TaskQueueFacts.loopHead_start task rest st1 Hs Hh1).
    cbn [fst snd].
    match goal with
    | |- context [runLoop _ fuel ?s (?l, ?e)] =>
        destruct (IH fuel s (started task) l e) as [Hlog Hres]
    end; try reflexivity.
    { intros t' Ht'. rewrite (hasHandler_same st) by reflexivity. apply Hh.
      apply elem_of_cons. right. exact Ht'. }
    { cbn in Hfuel. lia. }
    split.
    + rewrite Hlog. rewrite <- app_assoc. reflexivity.
    + intros i Hi. apply Hres. subst st1. cbn [promises].
      destruct (decide (i = id task0)) as [-> | Hne].
      * left. apply lookup_insert_eq.
      * rewrite lookup_insert_ne by congruence.
        destruct Hi as [Hi | Hi]; [left; exact Hi |].
        right. cbn [map] in Hi |- *. apply elem_of_cons in Hi.
        destruct Hi as [-> | Hi]; [congruence | exact Hi].
Qed.

Lemma length_le_turns (q : list InternalTask) :
  (length q <= list_sum (map triesLeft q))%nat.
Proof.
  induction q as [| task q IH]; [cbn; lia |].
  rewrite TaskQueueFacts.turns_cons. cbn [length]. unfold triesLeft at 1. lia.
Qed.

Lemma map_id_started (q : list InternalTask) : map id (map started q) = map id q.
Proof. induction q as [| task q IH]; cbn; [reflexivity |]. rewrite IH. reflexivity. Qed.

Lemma run_in_order {E} (handler : Handler E) (st : t)
    (task0 : InternalTask) (env : E) :
  (forall task env', (handler task env').1 = None) ->
  running st -> inFlight st = Some task0 ->
  (forall task, task ∈ queue st -> hasHandler st (taskTypeOf (payload task)) = true) ->
  (run (traced handler) st ([], env)).2.1 = task0 :: map started (queue st)
  /\ (forall task, task ∈ task0 :: queue st ->
        promises (run (traced handler) st ([], env)).1 !! id task = Some Resolved)
  /\ idle (run (traced handler) st ([], env)).1.
Proof.
  intros Hok Hrun Hf Hh.
  pose proof Hrun as [Hs Hshape]. rewrite Hf in Hshape.
  destruct (runLoop_in_order handler Hok (queue st) (turnsFor st) st task0 [] env
              Hs Hshape Hf eq_refl Hh) as [Hlog Hres].
  { unfold turnsFor. rewrite Hf. pose proof (length_le_turns (queue st)).
    unfold triesLeft at 2. lia. }
  split; [exact Hlog |]. split.
  - intros task Ht. apply Hres. right. apply list_elem_of_fmap. exists task. auto.
  - apply (run_quiesces (traced handler) st ([], env) Hrun).
Qed.

(** X18.  With handlers registered for all queued tasks and a handler that
    never throws, the tasks are handed to the handler in this order: the task
    in flight, then the queued tasks from the head of the queue, each once and
    with its attempt count raised by one.  All their promises are resolved and
    the queue ends at rest. *)
Theorem tasks_run_in_queue_order {E} (handler : Handler E) (st : t)
    (task0 : InternalTask) (env : E) :
  (forall task env', (handler task env').1 = None) ->
  running st -> inFlight st = Some task0 ->
  (forall task, task ∈ queue st -> hasHandler st (taskTypeOf (payload task)) = true) ->
  (run (traced handler) st ([], env)).2.1 = task0 :: map started (queue st)
  /\ (forall task, task ∈ task0 :: queue st ->
        promises (run (traced handler) st ([], env)).1 !! id task = Some Resolved)
  /\ idle (run (traced handler) st ([], env)).1.
Proof. apply run_in_order. Qed.

(** X19.  A task enqueued with high priority while a task is in flight is
    handled right after the task in flight, before all the tasks that were
    waiting; with any other priority it is handled after them.  In both cases
    its promise is resolved (the handler never throwing). *)
Theorem priority_decides_the_place {E} (handler : Handler E) (now : Z)
    (payload : TaskPayload) (options : TaskOptions.t) (st : t)
    (task0 : InternalTask) (env : E) :
  (forall task env', (handler task env').1 = None) ->
  running st -> inFlight st = Some task0 ->
  (forall task, task ∈ queue st -> hasHandler st (taskTypeOf (TaskQueue.payload task)) = true) ->
  hasHandler st (taskTypeOf payload) = true ->
  exists st1,
    enqueue now payload options st = Some (nextId st, st1)
    /\ map id (run (traced handler) st1 ([], env)).2.1
       = id task0
         :: match TaskOptions.priority options with
            | Some priority_high => nextId st :: map id (queue st)
            | _ => map id (queue st) ++ [nextId st]
            end
    /\ promises (run (traced handler) st1 ([], env)).1 !! nextId st = Some Resolved.
Proof.
  intros Hok Hrun Hf Hh Hhp.
  pose proof Hrun as [Hs Hshape]. rewrite Hf in Hshape.
  unfold enqueue. rewrite Hhp.
  set (task := mkTask (nextId st) payload 0
                 (default 3%nat (TaskOptions.maxAttempts options)) now).
  set (q := match TaskOptions.priority options with
            | Some priority_high => task :: queue st
            | _ => queue st ++ [task]
            end).
  set (st1 := mk (handlers st) q (isProcessing st) (stopRequested st) (inFlight st)
                 (<[nextId st := Pending]> (promises st)) (S (nextId st))).
  assert (Hpq : processQueue st1 = st1).
  { unfold processQueue. subst st1. cbn. rewrite Hshape. reflexivity. }
  rewrite Hpq. exists st1. split; [reflexivity |].
  assert (Hrun1 : running st1) by (unfold running; subst st1; cbn; rewrite Hf; auto).
  assert (Hin : forall t', t' ∈ q -> t' = task \/ t' ∈ queue st).
  { intros t' Ht'. subst q. destruct (TaskOptions.priority options) as [[|] |].
    - apply elem_of_cons in Ht'. exact Ht'.
    - apply elem_of_app in Ht'. destruct Ht' as [Ht' | Ht']; [auto |].
      apply list_elem_of_singleton in Ht'. auto.
    - apply elem_of_app in Ht'. destruct Ht' as [Ht' | Ht']; [auto |].
      apply list_elem_of_singleton in Ht'. auto. }
  destruct (run_in_order handler st1 task0 env Hok Hrun1 Hf)
    as (Hlog & Hres & _).
  { intros t' Ht'. change (queue st1) with q in Ht'.
    rewrite (hasHandler_same st st1) by reflexivity.
    destruct (Hin t' Ht') as [-> | Hq]; [exact Hhp | apply Hh, Hq]. }
  split.
  - rewrite Hlog. cbn [map]. rewrite map_id_started. change (queue st1) with q. subst q.
    destruct (TaskOptions.priority options) as [[|] |]; cbn [map];
      rewrite ?map_app; reflexivity.
  - apply (Hres task). apply elem_of_cons. right. change (queue st1) with q. subst q.
    destruct (TaskOptions.priority options) as [[|] |].
    + apply elem_of_cons. left. reflexivity.
    + apply elem_of_app. right. apply list_elem_of_singleton. reflexivity.
    + apply elem_of_app. right. apply list_elem_of_singleton. reflexivity.
Qed.

(** The loop on a handler that throws at every call: the task in flight
    is handed over until its attempts reach [maxAttempts]. *)
Lemma runLoop_retries {E} (handler : Handler E) :
  (forall task env, (handler task env).1 <> None) ->
  forall (n fuel : nat) (st : t) (task0 : InternalTask)
         (log : list InternalTask) (env : E),
    stopRequested st = false -> isProcessing st = true ->
    inFlight st = Some task0 -> queue st = [] ->
    hasHandler st (taskTypeOf (payload task0)) = true ->
    (maxAttempts task0 - attempts task0 = n)%nat -> (n < fuel)%nat ->
    map attempts (runLoop (traced handler) fuel st (log, env)).2.1
    = map attempts log ++ seq (attempts task0) (S n)
    /\ (exists e, promises (runLoop (traced handler) fuel st (log, env)).1 !! id task0
                  = Some (RejectedWith e))
    /\ idle (runLoop (traced handler) fuel st (log, env)).1.
Proof.
  intros Hfail. induction n as [| n IH];
    intros fuel st task0 log env Hs Hp Hf Hq Hh Hn Hfuel;
    (destruct fuel as [| fuel]; [lia |]).
  - cbn [runLoop]. rewrite Hf. unfold turn. rewrite Hf. rewrite traced_outcome.
    destruct (handler task0 env).1 as [error |] eqn:Hout; [| exfalso; exact (Hfail _ _ Hout)].
    unfold afterHandler. rewrite Hf.
    destruct (Nat.ltb_spec (attempts task0) (maxAttempts task0)) as [Hlt | _]; [lia |].
    rewrite Hq. cbn [queue]. rewrite TaskQueueFacts.loopHead_empty. cbn [fst snd].
    assert (Hrest : forall st' s, inFlight st' = None ->
                      runLoop (traced handler) fuel st' s = (st', s)).
    { intros st' s Hnone. destruct fuel; cbn; [reflexivity |]. rewrite Hnone. reflexivity. }
    rewrite Hrest by reflexivity. cbn [fst snd].
    split; [rewrite map_app; reflexivity |]. split.
    + exists error. cbn. apply lookup_insert_eq.
    + unfold idle. cbn. auto.
  - cbn [runLoop]. rewrite Hf. unfold turn. rewrite Hf. rewrite traced_outcome.
    destruct (handler task0 env).1 as [error |] eqn:Hout; [| exfalso; exact (Hfail _ _ Hout)].
    unfold afterHandler. rewrite Hf.
    destruct (Nat.ltb_spec (attempts task0) (maxAttempts task0)) as [_ | Hge]; [| lia].
    rewrite Hq. cbn [queue].
    set (st1 := mk (handlers st) [task0] (isProcessing st) (stopRequested st) None
                   (promises st) (nextId st)).
    assert (Hh1 : hasHandler st1 (taskTypeOf (payload task0)) = true)
      by (rewrite (hasHandler_same st st1) by reflexivity; exact Hh).
    rewrite (TaskQueueFacts.loopHead_start task0 [] st1 Hs Hh1). cbn [fst snd].
    match goal with
    | |- context [runLoop _ fuel ?s (?l, ?e)] =>
        destruct (IH fuel s (started task0) l e) as (Hlog & Hrej & Hidle)
    end; try reflexivity.
    { rewrite (hasHandler_same st) by reflexivity. exact Hh. }
    { cbn. lia. }
    { lia. }
    split; [| split; [exact Hrej | exact Hidle]].
    rewrite Hlog. rewrite map_app. cbn [map attempts started seq].
    rewrite <- app_assoc. reflexivity.
Qed.

(** X20.  A task enqueued on a queue at rest whose handler always
    throws is handed to the handler [maxAttempts] times (3 by default, and
    once when [maxAttempts] is 0), with the attempt numbers 1, 2, ...; then its
    promise is rejected and the queue is at rest again. *)
Theorem failing_task_is_tried_maxAttempts_times {E} (handler : Handler E) (now : Z)
    (payload : TaskPayload) (options : TaskOptions.t) (st : t) (env : E) :
  (forall task env', (handler task env').1 <> None) ->
  idle st -> hasHandler st (taskTypeOf payload) = true ->
  exists st1,
    enqueue now payload options st = Some (nextId st, st1)
    /\ map attempts (run (traced handler) st1 ([], env)).2.1
       = seq 1 (Nat.max 1 (default 3%nat (TaskOptions.maxAttempts options)))
    /\ (exists e, promises (run (traced handler) st1 ([], env)).1 !! nextId st
                  = Some (RejectedWith e))
    /\ idle (run (traced handler) st1 ([], env)).1.
Proof.
  intros Hfail (Hp & Hf & Hq & Hs) Hh.
  unfold enqueue. rewrite Hh, Hq.
  set (m := default 3%nat (TaskOptions.maxAttempts options)).
  set (task := mkTask (nextId st) payload 0 m now).
  assert (Hqueue : match TaskOptions.priority options with
                   | Some priority_high => [task]
                   | _ => [] ++ [task]
                   end = [task])
    by (destruct (TaskOptions.priority options) as [[|] |]; reflexivity).
  rewrite Hqueue.
  unfold processQueue. cbn [isProcessing stopRequested queue]. rewrite Hp, Hs. cbn [orb].
  match goal with
  | |- context [loopHead [task] ?s] =>
      assert (Hh' : hasHandler s (taskTypeOf (TaskQueue.payload task)) = true)
        by (rewrite (hasHandler_same st s) by reflexivity; exact Hh);
      rewrite (TaskQueueFacts.loopHead_start task [] s eq_refl Hh')
  end.
  eexists. split; [reflexivity |].
  unfold run.
  match goal with
  | |- context [runLoop _ ?fuel ?s (?l, ?e)] =>
      destruct (runLoop_retries handler Hfail (m - 1) fuel s (started task) l e)
        as (Hlog & Hrej & Hidle)
  end; try reflexivity.
  { rewrite (hasHandler_same st) by reflexivity. exact Hh. }
  { unfold turnsFor, triesLeft. cbn. lia. }
  split; [| split; [exact Hrej | exact Hidle]].
  rewrite Hlog. cbn [map app attempts started task].
  replace (S (m - 1)) with (Nat.max 1 m) by lia. reflexivity.
Qed.

Lemma busyQueue_running : running Examples.busyQueue.
Proof. unfold running. vm_compute. auto. Qed.

Lemma busyQueue_handlers (task : InternalTask) :
  task ∈ queue Examples.busyQueue ->
  hasHandler Examples.busyQueue (taskTypeOf (payload task)) = true.
Proof.
  assert (Hq : queue Examples.busyQueue
               = [mkTask 1 (Examples.sendPayload "second") 0 3 Examples.t0])
    by reflexivity.
  rewrite Hq. intros Ht. apply list_elem_of_singleton in Ht. subst task. reflexivity.
Qed.

Lemma run_settles_every_task_witness :
  idle (run Examples.returns Examples.busyQueue tt).1.
Proof.
  refine (proj1 (run_settles_every_task Examples.returns Examples.busyQueue tt _)).
  exact busyQueue_running.
Defined.

Lemma tasks_run_in_queue_order_witness :
  map id (run (traced Examples.returns) Examples.busyQueue ([], tt)).2.1 = [0; 1]%nat.
Proof.
  destruct (tasks_run_in_queue_order Examples.returns Examples.busyQueue
              (mkTask 0 (Examples.sendPayload "first") 1 3 Examples.t0) tt)
    as (Hlog & _).
  - reflexivity.
  - exact busyQueue_running.
  - reflexivity.
  - exact busyQueue_handlers.
  - rewrite Hlog. reflexivity.
Defined.

Lemma priority_decides_the_place_witness :
  exists st1,
    enqueue Examples.t0 (Examples.sendPayload "urgent")
      (TaskOptions.mk (Some priority_high) None) Examples.busyQueue
    = Some (2%nat, st1)
    /\ map id (run (traced Examples.returns) st1 ([], tt)).2.1 = [0; 2; 1]%nat.
Proof.
  destruct (priority_decides_the_place Examples.returns Examples.t0
              (Examples.sendPayload "urgent") (TaskOptions.mk (Some priority_high) None)
              Examples.busyQueue
              (mkTask 0 (Examples.sendPayload "first") 1 3 Examples.t0) tt)
    as (st1 & Henq & Hlog & _).
  - reflexivity.
  - exact busyQueue_running.
  - reflexivity.
  - exact busyQueue_handlers.
  - reflexivity.
  - exists st1. split; [exact Henq | exact Hlog].
Defined.

Lemma failing_task_is_tried_maxAttempts_times_witness :
  exists st1,
    enqueue Examples.t0 (Examples.sendPayload "first") TaskOptions.none Examples.readyQueue
    = Some (0%nat, st1)
    /\ map attempts (run (traced Examples.throws) st1 ([], tt)).2.1 = [1; 2; 3]%nat.
Proof.
  destruct (failing_task_is_tried_maxAttempts_times Examples.throws Examples.t0
              (Examples.sendPayload "first") TaskOptions.none Examples.readyQueue tt)
    as (st1 & Henq & Hlog & _).
  - discriminate.
  - unfold idle. cbn. auto.
  - reflexivity.
  - exists st1. split; [exact Henq | exact Hlog].
Defined.

End TaskQueueMoreFacts.

(** ** Outbound correlator: pending replies and task normalisation *)

Module AgentServerMoreFacts.

Import AgentServer.

Lemma runLoop_at_rest {E} (handler : TaskQueue.Handler E) (fuel : nat)
    (st : TaskQueue.t) (env : E) :
  TaskQueue.inFlight st = None -> TaskQueue.runLoop handler fuel st env = (st, env).
Proof. intros Hf. destruct fuel; cbn; [reflexivity |]. rewrite Hf. reflexivity. Qed.

(** One turn of the loop on a queue whose only task is in flight. *)
Lemma runLoop_single_task {E} (handler : TaskQueue.Handler E) (fuel : nat)
    (st : TaskQueue.t) (env : E) (task : TaskQueue.InternalTask) :
  TaskQueue.stopRequested st = false -> TaskQueue.isProcessing st = true ->
  TaskQueue.inFlight st = Some task -> TaskQueue.queue st = [] ->
  TaskQueue.hasHandler st (taskTypeOf (TaskQueue.payload task)) = true ->
  TaskQueue.runLoop handler (S fuel) st env
  = match (handler task env).1 with
    | None =>
        (TaskQueue.mk (TaskQueue.handlers st) [] false false None
           (<[TaskQueue.id task := Resolved]> (TaskQueue.promises st)) (TaskQueue.nextId st),
         (handler task env).2)
    | Some error =>
        if (TaskQueue.attempts task <? TaskQueue.maxAttempts task)%nat then
          TaskQueue.runLoop handler fuel
            (TaskQueue.mk (TaskQueue.handlers st) [] true false
               (Some (TaskQueue.started task)) (TaskQueue.promises st) (TaskQueue.nextId st))
            (handler task env).2
        else
          (TaskQueue.mk (TaskQueue.handlers st) [] false false None
             (<[TaskQueue.id task := RejectedWith error]> (TaskQueue.promises st))
             (TaskQueue.nextId st),
           (handler task env).2)
    end.
Proof.
  intros Hs Hp Hf Hq Hh. cbn [TaskQueue.runLoop]. rewrite Hf.
  unfold TaskQueue.turn. rewrite Hf.
  destruct (handler task env) as [outcome env1]. cbn [fst snd].
  unfold TaskQueue.afterHandler. rewrite Hf, Hq, Hs.
  destruct outcome as [error |].
  - destruct (TaskQueue.attempts task <? TaskQueue.maxAttempts task)%nat.
    + cbn [TaskQueue.queue].
      rewrite TaskQueueFacts.loopHead_start; [reflexivity | reflexivity | exact Hh].
    + cbn [TaskQueue.queue]. rewrite TaskQueueFacts.loopHead_empty.
      apply runLoop_at_rest. reflexivity.
  - cbn [TaskQueue.queue]. rewrite TaskQueueFacts.loopHead_empty.
    apply runLoop_at_rest. reflexivity.
Qed.

(** The handler on a [send_message] task. *)
Lemma taskHandler_send (ws : WsServer) (task : TaskQueue.InternalTask)
    (payload : SendMessageTaskPayload.t) (pendingMessageId : string)
    (pending : list (string * PendingReply)) :
  TaskQueue.payload task = SendMessage payload ->
  SendMessageTaskPayload.metadata_pendingMessageId payload = Some pendingMessageId ->
  pendingMessageId <> EmptyString ->
  taskHandler ws task pending
  = if truthyZ (SendMessageTaskPayload.groupId (SendMessageTaskPayload.target payload))
       || truthyZ (SendMessageTaskPayload.userId (SendMessageTaskPayload.target payload))
    then if ws payload (TaskQueue.attempts task)
         then (None, removePendingReply pendingMessageId pending)
         else (Some "Failed to deliver message via WebSocket server", pending)
    else (Some "Invalid message target", pending).
Proof.
  intros Hp Hid Hne. unfold taskHandler. rewrite Hp, Hid.
  destruct pendingMessageId; [contradiction | reflexivity].
Qed.

(** [await enqueue] of a [send_message] task on a queue at rest: up to
    three calls of the WebSocket server. *)
Lemma awaitEnqueue_send (ws : WsServer) (now : Z) (payload : SendMessageTaskPayload.t)
    (pendingMessageId : string) (st : t) :
  TaskQueue.idle (taskQueue st) ->
  TaskQueue.hasHandler (taskQueue st) send_message = true ->
  SendMessageTaskPayload.metadata_pendingMessageId payload = Some pendingMessageId ->
  pendingMessageId <> EmptyString ->
  let valid :=
    truthyZ (SendMessageTaskPayload.groupId (SendMessageTaskPayload.target payload))
    || truthyZ (SendMessageTaskPayload.userId (SendMessageTaskPayload.target payload)) in
  let delivered := valid && (ws payload 1%nat || ws payload 2%nat || ws payload 3%nat) in
  let r := awaitEnqueue ws now (SendMessage payload) st in
  r.1.2 = [SendMessage payload]
  /\ TaskQueue.idle (taskQueue r.1.1)
  /\ TaskQueue.handlers (taskQueue r.1.1) = TaskQueue.handlers (taskQueue st)
  /\ pendingReplies r.1.1
     = (if delivered then removePendingReply pendingMessageId (pendingReplies st)
        else pendingReplies st)
  /\ r.2 = (if delivered then Completed
            else Threw (if valid then "Failed to deliver message via WebSocket server"
                        else "Invalid message target")).
Proof.
  intros (Hp & Hf & Hq & Hs) Hh Hid Hne valid delivered r. subst r.
  unfold awaitEnqueue, TaskQueue.enqueue. cbn [taskTypeOf]. rewrite Hh, Hq.
  cbn [TaskOptions.priority TaskOptions.maxAttempts TaskOptions.none default from_option app].
  unfold TaskQueue.processQueue.
  cbn [TaskQueue.isProcessing TaskQueue.stopRequested TaskQueue.queue].
  rewrite Hp, Hs. cbn [orb].
  rewrite TaskQueueFacts.loopHead_start; [| reflexivity | exact Hh].
  cbn [TaskQueue.handlers TaskQueue.promises TaskQueue.nextId TaskQueue.id
       TaskQueue.payload TaskQueue.attempts TaskQueue.maxAttempts TaskQueue.createdAt].
  unfold TaskQueue.run, TaskQueue.turnsFor, TaskQueue.triesLeft.
  cbn [TaskQueue.queue TaskQueue.inFlight TaskQueue.maxAttempts TaskQueue.attempts
       map list_sum foldr Nat.add Nat.sub id].
  assert (Hhandler : forall a pending,
            taskHandler ws (TaskQueue.mkTask (TaskQueue.nextId (taskQueue st))
                              (SendMessage payload) a 3 now) pending
            = if valid
              then if ws payload a
                   then (None, removePendingReply pendingMessageId pending)
                   else (Some "Failed to deliver message via WebSocket server", pending)
              else (Some "Invalid message target", pending)).
  { intros a pending. apply taskHandler_send; [reflexivity | exact Hid | exact Hne]. }
  erewrite runLoop_single_task by (try reflexivity; exact Hh).
  rewrite Hhandler. subst delivered.
  destruct valid eqn:Hvalid; cbn [andb].
  - destruct (ws payload 1%nat) eqn:H1; cbn [fst snd orb].
    { cbn -[removePendingReply]. rewrite lookup_insert_eq. repeat split. }
    cbn [TaskQueue.attempts TaskQueue.maxAttempts Nat.ltb Nat.leb].
    erewrite runLoop_single_task by (try reflexivity; exact Hh).
    unfold TaskQueue.started.
    cbn [TaskQueue.attempts TaskQueue.maxAttempts TaskQueue.id
         TaskQueue.payload TaskQueue.createdAt].
    rewrite Hhandler.
    destruct (ws payload 2%nat) eqn:H2; cbn [fst snd orb].
    { cbn -[removePendingReply]. rewrite lookup_insert_eq. repeat split. }
    cbn [TaskQueue.attempts TaskQueue.maxAttempts Nat.ltb Nat.leb].
    erewrite runLoop_single_task by (try reflexivity; exact Hh).
    unfold TaskQueue.started.
    cbn [TaskQueue.attempts TaskQueue.maxAttempts TaskQueue.id
         TaskQueue.payload TaskQueue.createdAt].
    rewrite Hhandler.
    destruct (ws payload 3%nat) eqn:H3; cbn [fst snd orb].
    { cbn -[removePendingReply]. rewrite lookup_insert_eq. repeat split. }
    cbn [TaskQueue.attempts TaskQueue.maxAttempts Nat.ltb Nat.leb].
    cbn -[removePendingReply]. rewrite lookup_insert_eq. repeat split.
  - cbn [fst snd TaskQueue.attempts TaskQueue.maxAttempts Nat.ltb Nat.leb].
    erewrite runLoop_single_task by (try reflexivity; exact Hh).
    unfold TaskQueue.started.
    cbn [TaskQueue.attempts TaskQueue.maxAttempts TaskQueue.id
         TaskQueue.payload TaskQueue.createdAt].
    rewrite Hhandler.
    cbn [fst snd TaskQueue.attempts TaskQueue.maxAttempts Nat.ltb Nat.leb].
    erewrite runLoop_single_task by (try reflexivity; exact Hh).
    unfold TaskQueue.started.
    cbn [TaskQueue.attempts TaskQueue.maxAttempts TaskQueue.id
         TaskQueue.payload TaskQueue.createdAt].
    rewrite Hhandler.
    cbn [fst snd TaskQueue.attempts TaskQueue.maxAttempts Nat.ltb Nat.leb].
    cbn -[removePendingReply]. rewrite lookup_insert_eq. repeat split.
Qed.

(** X21.  On a task queue at rest with a handler for [send_message],
    [sendReply] with a non-empty pending id enqueues one [send_message] task
    that carries the reply text, and the task has run to its end when
    [sendReply] settles.  [sendReply] completes when the target has a group or
    user id and one of three delivery attempts succeeds; it throws [Failed to
    deliver message via WebSocket server] when all three fail and [Invalid
    message target] when the target has neither id.  In every case the pending
    reply of that id is removed and the task queue is at rest again. *)
Theorem sendReply_settles_the_pending_entry (ws : WsServer) (now : Z) (st : t)
    (m : QQMessage.t) (replyText pendingMessageId : string)
    (toolCalls : option (list ToolCallInfo.t)) :
  TaskQueue.idle (taskQueue st) ->
  TaskQueue.hasHandler (taskQueue st) send_message = true ->
  pendingMessageId <> EmptyString ->
  let r := sendReply ws now st m replyText pendingMessageId toolCalls in
  exists payload,
    r.1.2 = [SendMessage payload]
    /\ SendMessageTaskPayload.message payload = replyText
    /\ pendingReplies r.1.1 = removePendingReply pendingMessageId (pendingReplies st)
    /\ TaskQueue.idle (taskQueue r.1.1)
    /\ r.2 = (if truthyZ (SendMessageTaskPayload.groupId
                            (SendMessageTaskPayload.target payload))
                 || truthyZ (SendMessageTaskPayload.userId
                               (SendMessageTaskPayload.target payload))
              then if ws payload 1%nat || ws payload 2%nat || ws payload 3%nat
                   then Completed
                   else Threw "Failed to deliver message via WebSocket server"
              else Threw "Invalid message target").
Proof.
  intros Hidle Hh Hne r. subst r. unfold sendReply.
  match goal with
  | |- context [awaitEnqueue ws now (SendMessage ?p) st] =>
      pose proof (awaitEnqueue_send ws now p pendingMessageId st Hidle Hh eq_refl Hne)
        as (Henq & Hidle' & _ & Hpending & Hcompletion);
      exists p;
      destruct (awaitEnqueue ws now (SendMessage p) st) as [[st1 enqueued] completion];
      set (payload := p) in *
  end.
  cbn [fst snd] in Henq, Hidle', Hpending, Hcompletion.
  destruct (truthyZ (SendMessageTaskPayload.groupId (SendMessageTaskPayload.target payload))
            || truthyZ (SendMessageTaskPayload.userId
                          (SendMessageTaskPayload.target payload))) eqn:Hvalid;
    cbn [andb] in Hpending, Hcompletion.
  - destruct (ws payload 1%nat || ws payload 2%nat || ws payload 3%nat) eqn:Hws;
      subst completion; cbn [fst snd pendingReplies taskQueue].
    + split; [exact Henq |]. split; [reflexivity |]. split; [exact Hpending |].
      split; [exact Hidle' | reflexivity].
    + rewrite Hpending.
      split; [exact Henq |]. split; [reflexivity |]. split; [reflexivity |].
      split; [exact Hidle' | reflexivity].
  - subst completion. cbn [fst snd pendingReplies taskQueue].
    rewrite Hpending.
    split; [exact Henq |]. split; [reflexivity |]. split; [reflexivity |].
    split; [exact Hidle' | reflexivity].
Qed.

Lemma mapGet_mapSet_eq {V} (m : list (string * V)) (key : string) (v : V) :
  mapGet (mapSet m key v) key = Some v.
Proof.
  induction m as [| [k v0] m IH]; cbn.
  - rewrite String.eqb_refl. reflexivity.
  - destruct (String.eqb_spec k key) as [-> | Hne]; cbn.
    + rewrite String.eqb_refl. reflexivity.
    + destruct (String.eqb_spec k key); [contradiction | exact IH].
Qed.

Lemma mapGet_mapSet_ne {V} (m : list (string * V)) (key k' : string) (v : V) :
  k' <> key -> mapGet (mapSet m key v) k' = mapGet m k'.
Proof.
  intros Hne. induction m as [| [k v0] m IH]; cbn.
  - destruct (String.eqb_spec key k'); [congruence | reflexivity].
  - destruct (String.eqb_spec k key) as [-> | Hk]; cbn.
    + destruct (String.eqb_spec key k'); [congruence | reflexivity].
    + destruct (String.eqb_spec k k'); [reflexivity | exact IH].
Qed.

Lemma mapGet_filter {V} (f : string * V -> bool) (m : list (string * V))
    (key : string) (v : V) :
  mapGet m key = Some v -> f (key, v) = true -> mapGet (filter f m) key = Some v.
Proof.
  induction m as [| [k v0] m IH]; [discriminate |].
  cbn [mapGet]. intros Hget Hf. rewrite filter_cons.
  destruct (String.eqb_spec k key) as [-> | Hne].
  - injection Hget as ->.
    destruct (decide (f (key, v))) as [_ | Hn].
    + cbn [mapGet]. rewrite String.eqb_refl. reflexivity.
    + exfalso. apply Hn. rewrite Hf. exact I.
  - destruct (decide (f (k, v0))) as [_ | _]; cbn [mapGet].
    + destruct (String.eqb_spec k key); [contradiction | auto].
    + auto.
Qed.

Lemma mapGet_elem {V} (m : list (string * V)) (key : string) (v : V) :
  mapGet m key = Some v -> (key, v) ∈ m.
Proof.
  induction m as [| [k v0] m IH]; cbn; [discriminate |].
  destruct (String.eqb_spec k key) as [-> | Hne].
  - intros [= ->]. apply elem_of_cons. left. reflexivity.
  - intros Hget. apply elem_of_cons. right. auto.
Qed.

Lemma mapGet_mapDelete_eq {V} (m : list (string * V)) (key : string) :
  mapGet (mapDelete m key) key = None.
Proof.
  unfold mapDelete. induction m as [| [k v0] m IH]; [reflexivity |].
  rewrite filter_cons. cbn [fst].
  destruct (String.eqb_spec k key) as [-> | Hne]; cbn [negb].
  - destruct (decide (Is_true false)) as [[] | _]. exact IH.
  - destruct (decide (Is_true true)) as [_ | Hn]; [| exfalso; apply Hn; exact I].
    cbn [mapGet]. destruct (String.eqb_spec k key); [contradiction | exact IH].
Qed.

Lemma mapGet_mapDelete_ne {V} (m : list (string * V)) (key k' : string) :
  k' <> key -> mapGet (mapDelete m key) k' = mapGet m k'.
Proof.
  intros Hne. unfold mapDelete. induction m as [| [k v0] m IH]; [reflexivity |].
  rewrite filter_cons. cbn [fst mapGet].
  destruct (String.eqb_spec k key) as [-> | Hk]; cbn [negb].
  - destruct (decide (Is_true false)) as [[] | _].
    destruct (String.eqb_spec key k'); [congruence | exact IH].
  - destruct (decide (Is_true true)) as [_ | Hn]; [| exfalso; apply Hn; exact I].
    cbn [mapGet]. destruct (String.eqb_spec k k'); [reflexivity | exact IH].
Qed.

(** X22.  After [addToPendingReplies] the new entry is found under its
    message id, every entry of the table is at most thirty minutes old, and
    the entries under other ids that were at most thirty minutes old are kept.
    [removePendingReply] then removes the entry of that id and no other. *)
Theorem pending_replies_are_kept_for_thirty_minutes (now : Z) (messageId : string)
    (m : QQMessage.t) (st : t) :
  let st' := addToPendingReplies now messageId m st in
  getPendingRepliesForMessages [messageId] st' = [(messageId, m)]
  /\ (forall k e, mapGet (pendingReplies st') k = Some e ->
        now - timestamp e <= PENDING_REPLY_TIMEOUT)
  /\ (forall k e, k <> messageId -> mapGet (pendingReplies st) k = Some e ->
        now - timestamp e <= PENDING_REPLY_TIMEOUT ->
        mapGet (pendingReplies st') k = Some e)
  /\ mapGet (removePendingReply messageId (pendingReplies st')) messageId = None
  /\ (forall k, k <> messageId ->
        mapGet (removePendingReply messageId (pendingReplies st')) k
        = mapGet (pendingReplies st') k).
Proof.
  intros st'. subst st'. unfold addToPendingReplies, cleanupExpiredPendingReplies.
  cbn [pendingReplies].
  set (fresh := fun e : string * PendingReply =>
                  negb (PENDING_REPLY_TIMEOUT <? now - timestamp e.2)).
  assert (Hnew : mapGet (filter fresh (mapSet (pendingReplies st) messageId (mkPending m now)))
                   messageId = Some (mkPending m now)).
  { apply mapGet_filter; [apply mapGet_mapSet_eq |].
    subst fresh. cbn. replace (now - now) with 0 by lia. reflexivity. }
  split; [| split; [| split; [| split]]].
  - unfold getPendingRepliesForMessages. cbn [omap list_omap pendingReplies].
    unfold fresh in Hnew. rewrite Hnew. reflexivity.
  - intros k e Hget. apply mapGet_elem in Hget.
    apply list_elem_of_filter in Hget. destruct Hget as [Hf _].
    subst fresh. cbn in Hf. apply Is_true_true in Hf. apply negb_true_iff in Hf.
    apply Z.ltb_ge in Hf. exact Hf.
  - intros k e Hne Hget Hage. apply mapGet_filter.
    + rewrite mapGet_mapSet_ne by exact Hne. exact Hget.
    + subst fresh. cbn. apply negb_true_iff, Z.ltb_ge. exact Hage.
  - apply mapGet_mapDelete_eq.
  - intros k Hne. apply mapGet_mapDelete_ne. exact Hne.
Qed.

Lemma trimNonEmpty_content (l : list string) :
  Forall (fun reply => reply <> EmptyString) (trimNonEmpty l).
Proof.
  unfold trimNonEmpty. apply Forall_forall. intros reply Hin.
  apply list_elem_of_filter in Hin. destruct Hin as [Hlen _].
  intros ->. cbn in Hlen. exact Hlen.
Qed.

Lemma normalizeTask_content (task task' : ChatTask) :
  normalizeTask task = Some task' ->
  match task' with
  | ThinkingTask content => content <> EmptyString
  | ReplyTask content =>
      content <> [] /\ Forall (fun reply => reply <> EmptyString) content
  end.
Proof.
  destruct task as [content | content]; cbn.
  - destruct (Js.trim content) as [| c r] eqn:Ht; cbn; [discriminate |].
    intros [= <-]. discriminate.
  - destruct (trimNonEmpty content) as [| r rs] eqn:Hr; cbn; [discriminate |].
    intros [= <-]. split; [discriminate |]. rewrite <- Hr. apply trimNonEmpty_content.
Qed.

(** X23.  Every task that [normalizeChatTasks] returns has content: a
    thinking task a non-empty text, a reply task a non-empty list of non-empty
    replies.  So [collectRepliesFromTasks] gathers no empty reply from them. *)
Theorem normalized_tasks_have_content (response : ChatResponse.t) :
  Forall (fun task =>
            match task with
            | ThinkingTask content => content <> EmptyString
            | ReplyTask content =>
                content <> [] /\ Forall (fun reply => reply <> EmptyString) content
            end)
         (normalizeChatTasks response)
  /\ Forall (fun reply => reply <> EmptyString)
            (collectRepliesFromTasks (normalizeChatTasks response)).
Proof.
  split; [| apply trimNonEmpty_content].
  unfold normalizeChatTasks.
  destruct (ChatResponse.tasks response) as [[| task tasks] |].
  2: { apply Forall_forall. intros task' Hin. apply list_elem_of_omap in Hin.
       destruct Hin as (task0 & _ & Hnorm). exact (normalizeTask_content _ _ Hnorm). }
  all: apply Forall_app; split.
  all: try (destruct (ChatResponse.thinking response) as [thinking |]; [| constructor];
            destruct (Js.truthyStr thinking); cbn; [| constructor];
            destruct (Js.trim thinking) eqn:Ht; cbn; constructor;
            [discriminate | constructor]).
  all: match goal with
       | |- context [trimNonEmpty ?l] =>
           pose proof (trimNonEmpty_content l) as Hc;
           destruct (trimNonEmpty l) as [| r rs]; cbn; constructor;
           [split; [discriminate | exact Hc] | constructor]
       end.
Qed.

(** X24.  [formatReply] never returns more than 1000 characters, counted as
    [length] counts them, in UTF-16 code units: a text of at most 1000 is
    returned as it is, a longer one is cut to its first 997 followed by
    three dots. *)
Theorem formatReply_bound (content : string) :
  (Js.length (formatReply content) <= 1000)%nat
  /\ ((Js.length content <= 1000)%nat -> formatReply content = content)
  /\ ((1000 < Js.length content)%nat ->
      formatReply content = Js.substringTo 997 content +:+ "...").
Proof.
  unfold formatReply.
  destruct (Nat.ltb_spec 1000 (Js.length content)) as [Hlong | Hshort].
  - split; [| split; [lia | reflexivity]].
    rewrite JsFacts.length_append. pose proof (JsFacts.length_substringTo 997 content).
    change (Js.length "...") with 3%nat. lia.
  - split; [exact Hshort | split; [reflexivity | lia]].
Qed.

Lemma sendReply_settles_the_pending_entry_witness :
  pendingReplies
    (sendReply Examples.connected Examples.t0 Examples.readyServer Examples.inbound
       "hello" "m1" None).1.1 = []
  /\ (sendReply Examples.connected Examples.t0 Examples.readyServer Examples.inbound
        "hello" "m1" None).2 = Completed.
Proof.
  destruct (sendReply_settles_the_pending_entry Examples.connected Examples.t0
              Examples.readyServer Examples.inbound "hello" "m1" None)
    as (payload & Henq & _ & Hpending & _ & Hcompletion).
  - unfold TaskQueue.idle. cbn. auto.
  - reflexivity.
  - discriminate.
  - split; [rewrite Hpending; reflexivity |].
    rewrite Hcompletion. injection Henq as <-. reflexivity.
Defined.

End AgentServerMoreFacts.

(** ** LLM client: retries and response cleaning *)

Module GeminiClientMoreFacts.

Import GeminiClient.

(** X25.  Every error that the credential pool counts as a rate-limit
    error ([is429Error]) also makes the client switch keys
    ([shouldSwitchKey]). *)
Theorem rate_limit_errors_switch_the_key (error : ApiKeyManager.JsError) :
  ApiKeyManager.is429Error (Some error) = true -> shouldSwitchKey error = true.
Proof.
  unfold ApiKeyManager.is429Error, shouldSwitchKey.
  destruct (bool_decide _ || bool_decide _); [reflexivity |].
  destruct (ApiKeyManager.message error) as [m |]; [| discriminate].
  destruct (Js.truthyStr m); [| discriminate]. cbn [andb].
  destruct (Js.includes m "429"); [reflexivity |].
  destruct (Js.includes (Js.toLowerCase m) "rate limit"); [reflexivity |].
  destruct (Js.includes (Js.toLowerCase m) "quota exceeded"); [reflexivity |].
  discriminate.
Qed.

Section Client.
Variable estimateTokens : string -> Z.
Variable buildPromptWithThinking : string -> option string -> string.

(** X26.  [generateResponse] calls the model at most three times, every
    time with the same full prompt.  When call number [call] (0, 1 or 2) is the
    first that succeeds, the response built from its text is returned after
    [call + 1] calls; when three calls fail, the error of the third is thrown. *)
Theorem generateResponse_gives_up_after_three_calls (backend : Backend) (clock : nat -> Z)
    (prompt : string) (context : option string) (st : t) :
  let fullPrompt := buildPromptWithThinking prompt context in
  let r := generateResponse estimateTokens buildPromptWithThinking backend clock
             prompt context st in
  (length r.1.2 <= 3)%nat
  /\ Forall (fun sent => sent = fullPrompt) r.1.2
  /\ (forall call text tokens,
        (call < 3)%nat ->
        (forall earlier, (earlier < call)%nat ->
           exists error, backend earlier fullPrompt = Failed error) ->
        backend call fullPrompt = Generated text tokens ->
        r.1.1 = inl (buildResponse estimateTokens text tokens)
        /\ length r.1.2 = S call)
  /\ (forall e0 e1 e2,
        backend 0%nat fullPrompt = Failed e0 ->
        backend 1%nat fullPrompt = Failed e1 ->
        backend 2%nat fullPrompt = Failed e2 ->
        r.1.1 = inr (Some e2) /\ length r.1.2 = 3%nat).
Proof.
  intros fullPrompt r. subst r. unfold generateResponse, MAX_RETRIES. fold fullPrompt.
  cbn [executeWithRetry].
  destruct (backend 0%nat fullPrompt) as [text0 tokens0 | e0] eqn:H0.
  { cbn. split; [lia |]. split; [repeat constructor |]. split.
    - intros call text tokens Hcall Hearlier Hgen.
      destruct call as [| call].
      + rewrite H0 in Hgen. injection Hgen as <- <-. auto.
      + destruct (Hearlier 0%nat) as [error He]; [lia |]. congruence.
    - intros e0 e1 e2 He0. discriminate. }
  destruct (backend 1%nat fullPrompt) as [text1 tokens1 | e1] eqn:H1.
  { cbn. split; [lia |]. split; [repeat constructor |]. split.
    - intros call text tokens Hcall Hearlier Hgen.
      destruct call as [| [| call]].
      + congruence.
      + rewrite H1 in Hgen. injection Hgen as <- <-. auto.
      + destruct (Hearlier 1%nat) as [error He]; [lia |]. congruence.
    - intros e0' e1 e2 _ He1. discriminate. }
  destruct (backend 2%nat fullPrompt) as [text2 tokens2 | e2] eqn:H2.
  { cbn. split; [lia |]. split; [repeat constructor |]. split.
    - intros call text tokens Hcall Hearlier Hgen.
      destruct call as [| [| [| call]]]; try congruence; [| lia].
      rewrite H2 in Hgen. injection Hgen as <- <-. auto.
    - intros e0' e1' e2 _ _ He2. discriminate. }
  cbn. split; [lia |]. split; [repeat constructor |]. split.
  - intros call text tokens Hcall Hearlier Hgen.
    destruct call as [| [| [| call]]]; try congruence. lia.
  - intros e0' e1' e2' _ _ [= <-]. auto.
Qed.

End Client.

Lemma whiteSpace2_backtick (c : ascii) : Js.whiteSpace2 c "`" = false.
Proof. unfold Js.whiteSpace2. cbn. rewrite andb_false_r. reflexivity. Qed.

Lemma whiteSpace3_backtick (c1 c2 : ascii) : Js.whiteSpace3 c1 c2 "`" = false.
Proof. unfold Js.whiteSpace3. cbn. rewrite !andb_false_r. reflexivity. Qed.

Lemma allWhiteSpace_cons3 (c1 c2 c3 : ascii) (r : string) :
  Js.allWhiteSpace (String c1 (String c2 (String c3 r)))
  = if Js.whiteSpace1 c1 then Js.allWhiteSpace (String c2 (String c3 r))
    else if Js.whiteSpace2 c1 c2 then Js.allWhiteSpace (String c3 r)
    else Js.whiteSpace3 c1 c2 c3 && Js.allWhiteSpace r.
Proof. reflexivity. Qed.

Lemma allWhiteSpace_fence_aux (n : nat) (x : string) :
  (String.length x <= n)%nat -> Js.allWhiteSpace (x +:+ "```") = false.
Proof.
  revert x. induction n as [| n IH]; intros x Hn.
  - destruct x; [reflexivity | cbn in Hn; lia].
  - destruct x as [| c1 [| c2 [| c3 x]]]; cbn [String.length] in Hn.
    + reflexivity.
    + change (String c1 EmptyString +:+ "```") with (String c1 "```").
      cbn [Js.allWhiteSpace].
      rewrite !whiteSpace2_backtick, !whiteSpace3_backtick.
      destruct (Js.whiteSpace1 c1); reflexivity.
    + change (String c1 (String c2 EmptyString) +:+ "```")
        with (String c1 (String c2 "```")).
      cbn [Js.allWhiteSpace].
      rewrite !whiteSpace2_backtick, !whiteSpace3_backtick.
      destruct (Js.whiteSpace1 c1), (Js.whiteSpace1 c2), (Js.whiteSpace2 c1 c2); reflexivity.
    + assert (H2 : Js.allWhiteSpace (String c2 (String c3 (x +:+ "```"))) = false)
        by (apply (IH (String c2 (String c3 x))); cbn; lia).
      assert (H3 : Js.allWhiteSpace (String c3 (x +:+ "```")) = false)
        by (apply (IH (String c3 x)); cbn; lia).
      assert (H4 : Js.allWhiteSpace (x +:+ "```") = false) by (apply IH; lia).
      change (String c1 (String c2 (String c3 x)) +:+ "```")
        with (String c1 (String c2 (String c3 (x +:+ "```")))).
      rewrite allWhiteSpace_cons3, H2, H3, H4, andb_false_r.
      destruct (Js.whiteSpace1 c1), (Js.whiteSpace2 c1 c2); reflexivity.
Qed.

Lemma allWhiteSpace_fence (x : string) : Js.allWhiteSpace (x +:+ "```") = false.
Proof. apply (allWhiteSpace_fence_aux (String.length x)). lia. Qed.

Lemma trimEnd_fence (x : string) : Js.trimEnd (x +:+ "```") = x +:+ "```".
Proof.
  induction x as [| c x IH]; [reflexivity |].
  change (String c x +:+ "```") with (String c (x +:+ "```")).
  cbn [Js.trimEnd].
  change (String c (x +:+ "```")) with (String c x +:+ "```") at 1.
  rewrite allWhiteSpace_fence, IH. reflexivity.
Qed.

Lemma substring_all (s : string) : String.substring 0 (String.length s) s = s.
Proof. induction s as [| c s IH]; cbn; [reflexivity |]. rewrite IH. reflexivity. Qed.

Lemma includes_backtick (c : ascii) (s : string) :
  Js.includes (String c s) "`" = false -> c <> "`"%char /\ Js.includes s "`" = false.
Proof.
  cbn [Js.includes String.prefix].
  destruct (ascii_dec "`" c) as [<- | Hne].
  - destruct s; discriminate.
  - intros Hs. split; [congruence | exact Hs].
Qed.

Lemma stripFenceEnd_fence (body : string) :
  Js.includes body "`" = false -> stripFenceEnd (body +:+ "```") = body.
Proof.
  induction body as [| c body IH]; intros Hclean; [reflexivity |].
  apply includes_backtick in Hclean. destruct Hclean as [Hc Hclean].
  change (String c body +:+ "```") with (String c (body +:+ "```")).
  cbn [stripFenceEnd String.prefix].
  destruct (ascii_dec "`" c) as [<- | _]; [contradiction |].
  cbn [andb]. rewrite (IH Hclean). reflexivity.
Qed.

Lemma stripFenceStart_fence (opening Y : string) :
  String.length opening = 7%nat ->
  Js.toLowerCase opening = "```json" ->
  stripFenceStart (opening +:+ Y)
  = match Y with
    | String c r => if Json.isChar 10 c then r else String c r
    | EmptyString => EmptyString
    end.
Proof.
  intros Hlen Hlower.
  destruct opening as [| c1 [| c2 [| c3 [| c4 [| c5 [| c6 [| c7 [| c8 rest]]]]]]]];
    try discriminate.
  unfold stripFenceStart, Js.substring0.
  change (String c1 (String c2 (String c3 (String c4 (String c5 (String c6
            (String c7 EmptyString)))))) +:+ Y)
    with (String c1 (String c2 (String c3 (String c4 (String c5 (String c6
            (String c7 Y))))))).
  cbn [String.substring String.length Nat.sub].
  replace (String.substring 0 0 Y) with EmptyString by (destruct Y; reflexivity).
  rewrite Hlower.
  change (String.prefix "```json" "```json") with true. cbn iota.
  rewrite Nat.sub_0_r, substring_all. reflexivity.
Qed.

Lemma trimStart_backtick (X : string) : Js.trimStart (String "`" X) = String "`" X.
Proof. destruct X as [| c2 [| c3 X]]; reflexivity. Qed.

Lemma trim_fence (X : string) :
  Js.trim (String "`" (X +:+ "```")) = String "`" (X +:+ "```").
Proof.
  unfold Js.trim. rewrite trimStart_backtick.
  apply (trimEnd_fence (String "`" X)).
Qed.

(** X27.  The cleaning step of [parseTextResponse] unwraps a fenced block:
    for a body without backticks, the text made of the opening fence
    [```json] (in either case), the body on the next line or directly after
    the fence, and the closing fence, is cleaned to the body alone. *)
Theorem cleanText_unwraps_a_fenced_block (body : string) :
  Js.includes body "`" = false ->
  cleanText ("```json" +:+ String "010" (body +:+ "```")) = body
  /\ cleanText ("```JSON" +:+ String "010" (body +:+ "```")) = body
  /\ (forall c rest, body = String c rest -> c <> "010"%char ->
       cleanText ("```json" +:+ (body +:+ "```")) = body).
Proof.
  intros Hclean. unfold cleanText.
  split; [| split].
  - change ("```json" +:+ String "010" (body +:+ "```"))
      with (String "`" (("``json" +:+ String "010" body) +:+ "```")).
    rewrite trim_fence.
    change (String "`" (("``json" +:+ String "010" body) +:+ "```"))
      with ("```json" +:+ String "010" (body +:+ "```")).
    rewrite (stripFenceStart_fence "```json" (String "010" (body +:+ "```")) eq_refl eq_refl).
    change (Json.isChar 10 "010") with true. cbn iota.
    apply stripFenceEnd_fence, Hclean.
  - change ("```JSON" +:+ String "010" (body +:+ "```"))
      with (String "`" (("``JSON" +:+ String "010" body) +:+ "```")).
    rewrite trim_fence.
    change (String "`" (("``JSON" +:+ String "010" body) +:+ "```"))
      with ("```JSON" +:+ String "010" (body +:+ "```")).
    rewrite (stripFenceStart_fence "```JSON" (String "010" (body +:+ "```")) eq_refl eq_refl).
    change (Json.isChar 10 "010") with true. cbn iota.
    apply stripFenceEnd_fence, Hclean.
  - intros c rest -> Hc.
    change ("```json" +:+ (String c rest +:+ "```"))
      with (String "`" (("``json" +:+ String c rest) +:+ "```")).
    rewrite trim_fence.
    change (String "`" (("``json" +:+ String c rest) +:+ "```"))
      with ("```json" +:+ String c (rest +:+ "```")).
    rewrite (stripFenceStart_fence "```json" (String c (rest +:+ "```")) eq_refl eq_refl).
    assert (Hnl : Json.isChar 10 c = false).
    { unfold Json.isChar. apply Nat.eqb_neq. intros Hn. apply Hc.
      rewrite <- (ascii_nat_embedding c), Hn. reflexivity. }
    rewrite Hnl. apply (stripFenceEnd_fence (String c rest)), Hclean.
Qed.

Lemma cleanText_unwraps_a_fenced_block_witness :
  cleanText ("```json" +:+ String "010" ("{}" +:+ "```")) = "{}".
Proof.
  refine (proj1 (cleanText_unwraps_a_fenced_block "{}" _)). reflexivity.
Defined.

Lemma rate_limit_errors_switch_the_key_witness :
  shouldSwitchKey (ApiKeyManager.mkError None None (Some "Quota exceeded for today")) = true.
Proof.
  refine (rate_limit_errors_switch_the_key
            (ApiKeyManager.mkError None None (Some "Quota exceeded for today")) _).
  reflexivity.
Defined.

End GeminiClientMoreFacts.

(** ** Conversation history and batch processor *)

Module HistoryFacts.
Import MessageHandler.

Lemma addMessage_same (m : Message.t) (h : t) :
  conversations (addMessage m h) !! conversationKeyOf m
  = Some (let c := default [] (conversations h !! conversationKeyOf m) ++ [withConversationId m] in
          if (100 <? length c)%nat then tail c else c).
Proof.
  unfold addMessage. cbv zeta. cbn [conversations]. rewrite lookup_insert_eq.
  destruct (decide (is_Some (conversations h !! conversationKeyOf m))) as [Hs | Hn].
  - reflexivity.
  - rewrite lookup_insert_eq.
    destruct (conversations h !! conversationKeyOf m) eqn:Hk; [exfalso; apply Hn; eauto |].
    reflexivity.
Qed.

Lemma addMessage_other (m : Message.t) (h : t) (k : string) :
  k <> conversationKeyOf m -> conversations (addMessage m h) !! k = conversations h !! k.
Proof.
  intros Hne. unfold addMessage. cbv zeta. cbn [conversations].
  rewrite lookup_insert_ne by congruence.
  destruct (decide (is_Some (conversations h !! conversationKeyOf m))); [reflexivity |].
  apply lookup_insert_ne. congruence.
Qed.

Lemma tail_drop {A} (l : list A) : tail l = drop 1 l.
Proof. destruct l; reflexivity. Qed.

Lemma drop_last_hundred {A} (l : list A) (x : A) :
  (let c := drop (length l - 100) l ++ [x] in
   if (100 <? length c)%nat then tail c else c)
  = drop (length (l ++ [x]) - 100) (l ++ [x]).
Proof.
  cbv zeta. rewrite !length_app, length_drop. cbn [length].
  destruct (Nat.ltb_spec 100 (length l - (length l - 100) + 1)) as [Hlt | Hge].
  - rewrite tail_drop, !drop_app, drop_drop, length_drop.
    replace (1 - (length l - (length l - 100)))%nat with 0%nat by lia.
    replace (length l + 1 - 100 - length l)%nat with 0%nat by lia.
    replace (length l - 100 + 1)%nat with (length l + 1 - 100)%nat by lia.
    reflexivity.
  - replace (length l - 100)%nat with 0%nat by lia.
    replace (length l + 1 - 100)%nat with 0%nat by lia.
    reflexivity.
Qed.

Lemma history_lookup (ms : list Message.t) (k : string) :
  default [] (conversations (fold_left (fun h m => addMessage m h) ms new) !! k)
  = let l := withConversationId <$> filter (fun m => conversationKeyOf m = k) ms in
    drop (length l - 100) l.
Proof.
  induction ms as [| m ms IH] using rev_ind; [reflexivity |].
  rewrite fold_left_app. cbn [fold_left]. cbv zeta in *.
  rewrite filter_app, fmap_app.
  destruct (decide (conversationKeyOf m = k)) as [<- | Hne].
  - rewrite addMessage_same, IH. cbn [from_option id].
    rewrite filter_cons, decide_True by reflexivity.
    rewrite filter_nil. cbn [fmap list_fmap].
    apply drop_last_hundred.
  - rewrite addMessage_other by congruence. rewrite IH.
    rewrite filter_cons, decide_False by exact Hne.
    rewrite filter_nil. cbn [fmap list_fmap]. rewrite app_nil_r. reflexivity.
Qed.

(** X28.  Whatever messages are added to an empty history, the
    conversation that [getConversation] returns for a user and group holds
    the messages filed under that key, in the order of their arrival and with
    their conversation id filled in, cut to the last hundred; it never holds
    more than a hundred messages. *)
Theorem conversation_keeps_the_last_hundred (ms : list Message.t) (userId : string)
    (groupId : option string) :
  let h := fold_left (fun h m => addMessage m h) ms new in
  let filed := withConversationId
                 <$> filter (fun m => conversationKeyOf m = orElse groupId userId) ms in
  getConversation userId groupId h = drop (length filed - 100) filed
  /\ (length (getConversation userId groupId h) <= 100)%nat.
Proof.
  cbv zeta. unfold getConversation. rewrite history_lookup. cbv zeta.
  split; [reflexivity |]. rewrite length_drop. lia.
Qed.

Import BatchMessageProcessor.

Lemma addMessage_ends (m : Message.t) (h : t) :
  exists earlier, conversations (addMessage m h) !! conversationKeyOf m
                  = Some (earlier ++ [withConversationId m]).
Proof.
  rewrite addMessage_same. cbv zeta.
  destruct (100 <? length (default [] (conversations h !! conversationKeyOf m) ++ [withConversationId m]))%nat
    eqn:Hlen.
  - apply Nat.ltb_lt in Hlen. rewrite length_app in Hlen. cbn [length] in Hlen.
    destruct (default [] (conversations h !! conversationKeyOf m)) as [| x old]; [cbn in Hlen; lia |].
    exists old. reflexivity.
  - eexists. reflexivity.
Qed.

Lemma addMessage_ends_two (m x : Message.t) (h : t) (earlier : list Message.t) :
  conversations h !! conversationKeyOf m = Some (earlier ++ [x]) ->
  exists earlier', conversations (addMessage m h) !! conversationKeyOf m
                   = Some (earlier' ++ [x; withConversationId m]).
Proof.
  intros Hold. rewrite addMessage_same, Hold. cbv zeta. cbn [from_option id].
  rewrite <- app_assoc. cbn [app].
  destruct (100 <? length (earlier ++ [x; withConversationId m]))%nat eqn:Hlen.
  - apply Nat.ltb_lt in Hlen. rewrite length_app in Hlen. cbn [length] in Hlen.
    destruct earlier as [| y earlier]; [cbn in Hlen; lia |].
    exists earlier. reflexivity.
  - eexists. reflexivity.
Qed.

Lemma orElse_truthy (a : option string) (b : string) :
  MessageQueueManager.truthyOpt a = true -> orElse a b = default EmptyString a.
Proof. destruct a as [s |]; cbn; [intros -> |]; [reflexivity | discriminate]. Qed.

Lemma orElse_falsy (a : option string) (b : string) :
  MessageQueueManager.truthyOpt a = false -> orElse a b = b.
Proof. destruct a as [s |]; cbn; [intros -> |]; reflexivity. Qed.

Lemma historyMessage_key (now : Z) (q : QueuedMessage.t) :
  conversationKeyOf (historyMessage now q)
  = orElse (QueuedMessage.groupId q) (QueuedMessage.userId q).
Proof.
  unfold conversationKeyOf, historyMessage, createMessage. cbn.
  destruct (MessageQueueManager.truthyOpt (QueuedMessage.groupId q)) eqn:Hg.
  - rewrite !(orElse_truthy _ _ Hg). reflexivity.
  - rewrite !(orElse_falsy _ _ Hg). destruct (Js.truthyStr (QueuedMessage.userId q)); reflexivity.
Qed.

Lemma aiMessage_key (botId : string) (now : Z) (q : QueuedMessage.t) (reply : string) :
  Js.truthyStr (orElse (QueuedMessage.groupId q) (QueuedMessage.userId q)) = true ->
  conversationKeyOf (aiMessage botId now q reply)
  = orElse (QueuedMessage.groupId q) (QueuedMessage.userId q)
  /\ withConversationId (aiMessage botId now q reply) = aiMessage botId now q reply.
Proof.
  intros Hkey. unfold conversationKeyOf, withConversationId, aiMessage, createMessage.
  cbn. rewrite Hkey. cbn. rewrite Hkey. split; [| reflexivity].
  destruct (MessageQueueManager.truthyOpt (QueuedMessage.groupId q)) eqn:Hg.
  - rewrite !(orElse_truthy _ _ Hg). reflexivity.
  - rewrite !(orElse_falsy _ _ Hg). reflexivity.
Qed.

Lemma historyMessage_stored (now : Z) (q : QueuedMessage.t) :
  Js.truthyStr (orElse (QueuedMessage.groupId q) (QueuedMessage.userId q)) = true ->
  withConversationId (historyMessage now q) = historyMessage now q.
Proof.
  intros Hkey. unfold withConversationId, historyMessage, createMessage. cbn.
  rewrite Hkey. reflexivity.
Qed.

Lemma processMessages_begin_history (active : bool) (now : Z) (ms : list QueuedMessage.t)
    (h : t) :
  (processMessages_begin active now ms h).2 = addMessagesToHistory now ms h.
Proof.
  unfold processMessages_begin. destruct ms as [| m ms]; [reflexivity |].
  destruct (_ && _); reflexivity.
Qed.

(** X29.  When [processMessages] has called the model for a batch whose
    latest message has a non-empty group or user id, and the model gave at
    least one reply, the result carries the message ids of the batch, and the
    conversation of the latest message ends with that message followed by the
    message recording the first reply. *)
Theorem reply_is_filed_after_its_batch (botId : string) (active : bool) (now now' : Z)
    (front : list QueuedMessage.t) (latest : QueuedMessage.t) (response : ChatResponse.t)
    (h : t) (reply : string) (rest : list string) :
  Js.truthyStr (orElse (QueuedMessage.groupId latest) (QueuedMessage.userId latest)) = true ->
  repliesOf response = reply :: rest ->
  let begun := processMessages_begin active now (front ++ [latest]) h in
  begun.1 = None ->
  exists response' h' earlier,
    processMessages_end botId now' (front ++ [latest]) response begun.2
    = Some (response', h')
    /\ ChatResponse.messageIds response'
       = Some (QueuedMessage.messageId <$> front ++ [latest])
    /\ getConversation (QueuedMessage.userId latest) (QueuedMessage.groupId latest) h'
       = earlier ++ [historyMessage now latest; aiMessage botId now' latest reply].
Proof.
  intros Hkey Hreplies begun _. subst begun.
  rewrite processMessages_begin_history.
  unfold processMessages_end. rewrite last_snoc, Hreplies.
  unfold addMessagesToHistory. rewrite fold_left_app. cbn [fold_left].
  set (h1 := fold_left _ front h).
  destruct (addMessage_ends (historyMessage now latest) h1) as [earlier Hone].
  rewrite (historyMessage_stored now latest Hkey), historyMessage_key in Hone.
  destruct (aiMessage_key botId now' latest reply Hkey) as [Hai Hstored].
  rewrite <- Hai in Hone.
  destruct (addMessage_ends_two _ _ _ _ Hone) as [earlier' Htwo].
  rewrite Hstored, Hai in Htwo.
  eexists _, _, earlier'. split; [reflexivity |]. split; [reflexivity |].
  unfold getConversation. rewrite Htwo. reflexivity.
Qed.

Lemma reply_is_filed_after_its_batch_witness :
  exists response' h' earlier,
    processMessages_end "bot" (Examples.t0 + 1000) [Examples.queuedHello] Examples.helloReply
      (processMessages_begin true Examples.t0 [Examples.queuedHello] MessageHandler.new).2
    = Some (response', h')
    /\ ChatResponse.messageIds response' = Some ["m1"]
    /\ getConversation "10001" (Some "42") h'
       = earlier ++ [historyMessage Examples.t0 Examples.queuedHello;
                     aiMessage "bot" (Examples.t0 + 1000) Examples.queuedHello "hi there"].
Proof.
  exact (reply_is_filed_after_its_batch "bot" true Examples.t0 (Examples.t0 + 1000) []
           Examples.queuedHello Examples.helloReply MessageHandler.new "hi there" []
           eq_refl eq_refl eq_refl).
Defined.

Lemma fold_max_start (ts : list Z) (t : Z) : t <= fold_left Z.max ts t.
Proof.
  revert t. induction ts as [| y ts IH]; intros t; cbn [fold_left]; [lia |].
  transitivity (Z.max t y); [lia | apply IH].
Qed.

Lemma fold_min_start (ts : list Z) (t : Z) : fold_left Z.min ts t <= t.
Proof.
  revert t. induction ts as [| y ts IH]; intros t; cbn [fold_left]; [lia |].
  transitivity (Z.min t y); [apply IH | lia].
Qed.

Lemma fold_max_ge (ts : list Z) (t x : Z) :
  x = t \/ x ∈ ts -> x <= fold_left Z.max ts t.
Proof.
  intros [-> | Hx]; [apply fold_max_start |].
  revert t. induction ts as [| y ts IH]; intros t; [inversion Hx |].
  cbn [fold_left]. apply elem_of_cons in Hx. destruct Hx as [-> | Hx].
  - transitivity (Z.max t y); [lia | apply fold_max_start].
  - apply IH, Hx.
Qed.

Lemma fold_min_le (ts : list Z) (t x : Z) :
  x = t \/ x ∈ ts -> fold_left Z.min ts t <= x.
Proof.
  intros [-> | Hx]; [apply fold_min_start |].
  revert t. induction ts as [| y ts IH]; intros t; [inversion Hx |].
  cbn [fold_left]. apply elem_of_cons in Hx. destruct Hx as [-> | Hx].
  - transitivity (Z.min t y); [apply fold_min_start | lia].
  - apply IH, Hx.
Qed.

Lemma fold_max_in (ts : list Z) (t : Z) : fold_left Z.max ts t ∈ t :: ts.
Proof.
  revert t. induction ts as [| y ts IH]; intros t; cbn [fold_left].
  - apply elem_of_cons. left. reflexivity.
  - specialize (IH (Z.max t y)). apply elem_of_cons in IH. destruct IH as [-> | IH].
    + destruct (Z.max_spec t y) as [[_ ->] | [_ ->]].
      * apply elem_of_cons. right. apply elem_of_cons. left. reflexivity.
      * apply elem_of_cons. left. reflexivity.
    + apply elem_of_cons. right. apply elem_of_cons. right. exact IH.
Qed.

Lemma fold_min_in (ts : list Z) (t : Z) : fold_left Z.min ts t ∈ t :: ts.
Proof.
  revert t. induction ts as [| y ts IH]; intros t; cbn [fold_left].
  - apply elem_of_cons. left. reflexivity.
  - specialize (IH (Z.min t y)). apply elem_of_cons in IH. destruct IH as [-> | IH].
    + destruct (Z.min_spec t y) as [[_ ->] | [_ ->]].
      * apply elem_of_cons. left. reflexivity.
      * apply elem_of_cons. right. apply elem_of_cons. left. reflexivity.
    + apply elem_of_cons. right. apply elem_of_cons. right. exact IH.
Qed.

(** X30.  [getTimespan] is the widest gap between the timestamps of a
    batch: no two messages of the batch lie further apart, and for a non-empty
    batch two of its messages lie exactly that far apart. *)
Theorem getTimespan_is_the_widest_gap (ms : list QueuedMessage.t) :
  (forall a b, a ∈ ms -> b ∈ ms ->
     QueuedMessage.timestamp a - QueuedMessage.timestamp b <= getTimespan ms)
  /\ (ms <> [] ->
      exists a b, a ∈ ms /\ b ∈ ms
        /\ getTimespan ms = QueuedMessage.timestamp a - QueuedMessage.timestamp b).
Proof.
  unfold getTimespan. split.
  - intros a b Ha Hb.
    apply (list_elem_of_fmap_2 QueuedMessage.timestamp) in Ha, Hb.
    destruct (QueuedMessage.timestamp <$> ms) as [| t [| t' ts]].
    + inversion Ha.
    + apply list_elem_of_singleton in Ha, Hb. lia.
    + apply elem_of_cons in Ha, Hb.
      pose proof (fold_max_ge (t' :: ts) t (QueuedMessage.timestamp a) Ha).
      pose proof (fold_min_le (t' :: ts) t (QueuedMessage.timestamp b) Hb).
      lia.
  - intros Hne.
    destruct ms as [| m ms]; [congruence |]. clear Hne.
    destruct ms as [| m' ms].
    + exists m, m. cbn. repeat split; try (apply elem_of_cons; left; reflexivity). lia.
    + pose proof (fold_max_in (QueuedMessage.timestamp <$> m' :: ms)
                    (QueuedMessage.timestamp m)) as Hmax.
      pose proof (fold_min_in (QueuedMessage.timestamp <$> m' :: ms)
                    (QueuedMessage.timestamp m)) as Hmin.
      change (fold_left Z.max (QueuedMessage.timestamp <$> m' :: ms) (QueuedMessage.timestamp m)
                ∈ QueuedMessage.timestamp <$> m :: m' :: ms) in Hmax.
      change (fold_left Z.min (QueuedMessage.timestamp <$> m' :: ms) (QueuedMessage.timestamp m)
                ∈ QueuedMessage.timestamp <$> m :: m' :: ms) in Hmin.
      apply list_elem_of_fmap in Hmax, Hmin.
      destruct Hmax as (a & Ha & Hina). destruct Hmin as (b & Hb & Hinb).
      exists a, b. split; [exact Hina |]. split; [exact Hinb |].
      rewrite <- Ha, <- Hb. reflexivity.
Qed.

End HistoryFacts.
